(** * Stitching of per-patch model outputs (animaloc.eval.stitchers)

    A shallow embedding of [Stitcher] and [FasterRCNNStitcher] from
    [src/animaloc/eval/stitchers.py], with the properties stated by the
    specification of the stitching pipeline.

    Conventions of the embedding.
    - Python integers are [Z]; [//] is [Z.div] (both floor), and a zero
      divisor raises [ZeroDivisionError].
    - Tensor elements, box coordinates and scores are rationals [Q]: the
      arithmetic is the exact one, not the rounded one of 32-bit floats.
      Results on tensor contents are therefore stated up to [Qeq].
    - Where the code converts values to 32-bit floats, when it builds a
      tensor from Python numbers and when it compares a tensor of floats
      with a Python float, the conversion is the rounding [float32], to
      the nearest float, ties to even.  Infinities and NaN are not
      represented: a value beyond the range of the 32-bit floats, which
      torch turns into inf, is rounded as if the exponent had no upper
      limit.
    - A tensor is a shape together with an indexing function; every
      operation checks the shapes the way torch does and raises otherwise.
    - Exceptions are values of the result type [Res]. *)

From Stdlib Require Import String ZArith QArith Qminmax Qround Qpower.
From Stdlib Require Import Bool Lia Lqa List.
From Stdlib Require Import Permutation Sorted Setoid Morphisms.
Import ListNotations.

Local Open Scope Z_scope.

(** ** Exceptions *)

Inductive exn : Type :=
| AssertionError
| IndexError
| TypeError
| ValueError
| RuntimeError
| ZeroDivisionError
| ConfigurationError.

Inductive Res (A : Type) : Type :=
| Ok (a : A)
| Raise (e : exn).

Arguments Ok {A} a.
Arguments Raise {A} e.

Definition bind {A B : Type} (m : Res A) (k : A -> Res B) : Res B :=
  match m with
  | Ok a => k a
  | Raise e => Raise e
  end.

Notation "x <- m ;; k" := (bind m (fun x => k))
  (at level 61, m at next level, right associativity).
Notation "' pat <- m ;; k" := (bind m (fun x => match x with pat => k end))
  (at level 61, pat pattern, m at next level, right associativity).

(** Python's [assert c, msg]. *)
Definition assert (c : bool) : Res unit :=
  if c then Ok tt else Raise AssertionError.

(** ** Tensors *)

Record Tensor : Type := mkTensor {
  shape : list Z;
  data : list Z -> Q
}.

Definition const_tensor (v : Q) (sh : list Z) : Tensor :=
  {| shape := sh; data := fun _ => v |}.

(** [torch.zeros] and [torch.ones] refuse a negative dimension. *)
Definition torch_full (v : Q) (sh : list Z) : Res Tensor :=
  if forallb (fun d => 0 <=? d) sh then Ok (const_tensor v sh)
  else Raise RuntimeError.

Definition torch_zeros : list Z -> Res Tensor := torch_full 0%Q.
Definition torch_ones : list Z -> Res Tensor := torch_full 1%Q.

(** [t.unsqueeze(0)] *)
Definition unsqueeze0 (t : Tensor) : Tensor :=
  {| shape := 1 :: shape t; data := fun idx => data t (tl idx) |}.

(** [t[i]] for a non-negative row number [i] that iteration produces. *)
Definition row (t : Tensor) (i : Z) : Tensor :=
  {| shape := tl (shape t); data := fun idx => data t (i :: idx) |}.

Definition Zrange (n : Z) : list Z := map Z.of_nat (seq 0 (Z.to_nat n)).

(** Iterating over a tensor yields its rows; a 0-d tensor is not iterable. *)
Definition tensor_iter (t : Tensor) : Res (list Tensor) :=
  match shape t with
  | [] => Raise TypeError
  | n :: _ => Ok (map (row t) (Zrange n))
  end.

(** [t.select(dim, i)], that is [t[:, ..., i, ...]] with an integer at
    position [dim]; a negative [i] counts from the end. *)
Definition select (t : Tensor) (dim : nat) (i : Z) : Res Tensor :=
  match nth_error (shape t) dim with
  | None => Raise IndexError
  | Some n =>
      if (- n <=? i) && (i <? n) then
        let j := if i <? 0 then i + n else i in
        Ok {| shape := firstn dim (shape t) ++ skipn (S dim) (shape t);
              data := fun idx => data t (firstn dim idx ++ j :: skipn dim idx) |}
      else Raise IndexError
  end.

(** [t.narrow(0, start, len)] *)
Definition narrow0 (t : Tensor) (start len : Z) : Tensor :=
  {| shape := len :: tl (shape t);
     data := fun idx =>
       match idx with
       | i :: rest => data t (start + i :: rest)
       | [] => data t []
       end |}.

(** Bounds of a Python slice [a:b] on an axis of length [n]. *)
Definition slice_bound (a n : Z) : Z :=
  if a <? 0 then Z.max 0 (a + n) else Z.min a n.

Definition slice_len (a b n : Z) : Z :=
  Z.max 0 (slice_bound b n - slice_bound a n).

Definition list_eqb (l1 l2 : list Z) : bool :=
  if list_eq_dec Z.eq_dec l1 l2 then true else false.

(** [torch.cat(ts, dim=0)]: a non-empty list of tensors of at least one
    dimension that agree on every dimension but the first. *)
Fixpoint cat_data (ts : list Tensor) (idx : list Z) : Q :=
  match ts with
  | [] => 0%Q
  | t :: rest =>
      match idx with
      | i :: r =>
          if i <? hd 0 (shape t) then data t idx
          else cat_data rest (i - hd 0 (shape t) :: r)
      | [] => 0%Q
      end
  end.

Definition torch_cat0 (ts : list Tensor) : Res Tensor :=
  match ts with
  | [] => Raise RuntimeError
  | t :: _ =>
      match shape t with
      | [] => Raise RuntimeError
      | _ :: rest =>
          if forallb (fun u => match shape u with
                               | [] => false
                               | _ :: r => list_eqb r rest
                               end) ts
          then Ok {| shape := fold_right Z.add 0 (map (fun u => hd 0 (shape u)) ts) :: rest;
                     data := cat_data ts |}
          else Raise RuntimeError
      end
  end.

(** Broadcasting of two shapes, aligned on their last dimensions. *)
Fixpoint broadcast_rev (s1 s2 : list Z) : Res (list Z) :=
  match s1, s2 with
  | [], _ => Ok s2
  | _, [] => Ok s1
  | a :: r1, b :: r2 =>
      r <- broadcast_rev r1 r2 ;;
      if a =? b then Ok (a :: r)
      else if a =? 1 then Ok (b :: r)
      else if b =? 1 then Ok (a :: r)
      else Raise RuntimeError
  end.

Definition broadcast_shapes (s1 s2 : list Z) : Res (list Z) :=
  r <- broadcast_rev (rev s1) (rev s2) ;; Ok (rev r).

(** The index into a tensor of shape [sh] that the index [idx] into the
    broadcast result reads: leading dimensions are dropped, and a dimension
    of size 1 is read at 0. *)
Definition broadcast_index (sh : list Z) (idx : list Z) : list Z :=
  map (fun p => if fst p =? 1 then 0 else snd p)
      (combine sh (skipn (length idx - length sh) idx)).

Definition pointwise (f : Q -> Q -> Q) (a b : Tensor) : Res Tensor :=
  sh <- broadcast_shapes (shape a) (shape b) ;;
  Ok {| shape := sh;
        data := fun idx => f (data a (broadcast_index (shape a) idx))
                             (data b (broadcast_index (shape b) idx)) |}.

(** [torch.div]; [Qdiv] by zero is 0 where a float division gives inf or
    nan, so the results below are only stated where the divisor is not 0. *)
Definition torch_div : Tensor -> Tensor -> Res Tensor := pointwise Qdiv.
Definition torch_max : Tensor -> Tensor -> Res Tensor := pointwise Qmax.

(** Indices of a shape. *)
Definition in_bounds (sh idx : list Z) : Prop :=
  Forall2 (fun n i => 0 <= i < n) sh idx.

(** Python's [a // b] on integers. *)
Definition floordiv (a b : Z) : Res Z :=
  if b =? 0 then Raise ZeroDivisionError else Ok (a / b).

(** [list(range(start, stop, step))] *)
Definition py_range (start stop step : Z) : Res (list Z) :=
  if step =? 0 then Raise ValueError
  else
    let n := if 0 <? step then (stop - start + step - 1) / step
             else (start - stop - step - 1) / (- step) in
    Ok (map (fun i => start + i * step) (Zrange n)).

Definition Zprod (l : list Z) : Z := fold_right Z.mul 1 l.

(** Row-major offset of an index, and the index of an offset. *)
Fixpoint ravel (sh idx : list Z) : Z :=
  match sh, idx with
  | _ :: sh', i :: idx' => i * Zprod sh' + ravel sh' idx'
  | _, _ => 0
  end.

Fixpoint unravel (sh : list Z) (off : Z) : list Z :=
  match sh with
  | [] => []
  | _ :: sh' => off / Zprod sh' :: unravel sh' (off mod Zprod sh')
  end.

(** [t.permute(1,2,3,0).contiguous()] *)
Definition permute1230 (t : Tensor) : Res Tensor :=
  match shape t with
  | [n; c; h; w] =>
      Ok {| shape := [c; h; w; n];
            data := fun idx =>
              match idx with
              | [ci; i; j; l] => data t [l; ci; i; j]
              | _ => 0%Q
              end |}
  | _ => Raise RuntimeError
  end.

(** [t.view(1, -1, n)] of a contiguous tensor: the middle dimension is
    inferred from the number of elements. *)
Definition view_1_m1 (t : Tensor) (n : Z) : Res Tensor :=
  let total := Zprod (shape t) in
  if (n <=? 0) || negb (total mod n =? 0) then Raise RuntimeError
  else
    let sh := [1; total / n; n] in
    Ok {| shape := sh;
          data := fun idx => data t (unravel (shape t) (ravel sh idx)) |}.

(** Sum of [f] over a list of integers. *)
Definition Qsum (f : Z -> Q) (l : list Z) : Q :=
  fold_right (fun i acc => (f i + acc)%Q) 0%Q l.

(** [F.fold(input, output_size, kernel_size, stride)] (col2im, no padding,
    no dilation): [input] has shape (N, C*kh*kw, L), where L must be the
    number of sliding blocks of the output; every block is added to the
    output at its offset. *)
Definition F_fold (input : Tensor) (output_size kernel_size stride : Z * Z)
  : Res Tensor :=
  let '(oh, ow) := output_size in
  let '(kh, kw) := kernel_size in
  let '(sh, sw) := stride in
  match shape input with
  | [n; ckk; L] =>
      if (kh <=? 0) || (kw <=? 0) || (sh <=? 0) || (sw <=? 0) then
        Raise RuntimeError
      else if negb (ckk mod (kh * kw) =? 0) then Raise RuntimeError
      else
        let nbh := (oh - kh) / sh + 1 in
        let nbw := (ow - kw) / sw + 1 in
        if (nbh <? 1) || (nbw <? 1) || negb (L =? nbh * nbw) then
          Raise RuntimeError
        else
          Ok {| shape := [n; ckk / (kh * kw); oh; ow];
                data := fun idx =>
                  match idx with
                  | [b; c; y; x] =>
                      Qsum (fun l =>
                        let ki := y - (l / nbw) * sh in
                        let kj := x - (l mod nbw) * sw in
                        if (0 <=? ki) && (ki <? kh) && (0 <=? kj) && (kj <? kw)
                        then data input [b; (c * kh + ki) * kw + kj; l]
                        else 0%Q) (Zrange L)
                  | _ => 0%Q
                  end |}
  | _ => Raise RuntimeError
  end.

(** [t[:, :, 0:dh, 0:dw]] *)
Definition crop4 (t : Tensor) (dh dw : Z) : Res Tensor :=
  match shape t with
  | n :: c :: h :: w :: rest =>
      Ok {| shape := n :: c :: slice_len 0 dh h :: slice_len 0 dw w :: rest;
            data := data t |}
  | _ => Raise IndexError
  end.

(** [patch[:, :, a:b, c:d] = m] on a 4-d tensor: [m] is broadcast to the
    shape of the addressed region. *)
Definition slice_assign (patch : Tensor) (a b c d : Z) (m : Tensor)
  : Res Tensor :=
  match shape patch with
  | [n; ch; H; W] =>
      let y0 := slice_bound a H in
      let x0 := slice_bound c W in
      let region := [n; ch; slice_len a b H; slice_len c d W] in
      match broadcast_shapes (shape m) region with
      | Ok sh =>
          if list_eqb sh region then
            Ok {| shape := shape patch;
                  data := fun idx =>
                    match idx with
                    | [i; k; y; x] =>
                        if (y0 <=? y) && (y <? y0 + slice_len a b H)
                           && (x0 <=? x) && (x <? x0 + slice_len c d W)
                        then data m (broadcast_index (shape m)
                                       [i; k; y - y0; x - x0])
                        else data patch idx
                    | _ => data patch idx
                    end |}
          else Raise RuntimeError
      | Raise e => Raise RuntimeError
      end
  | _ => Raise IndexError
  end.

(** [DataLoader(TensorDataset(patches), batch_size, SequentialSampler)]:
    consecutive batches of [batch_size] rows, the last one shorter when
    the number of rows is not a multiple. *)
Definition DataLoader (patches : Tensor) (batch_size : Z) : Res (list Tensor) :=
  match shape patches with
  | [] => Raise IndexError
  | n :: _ =>
      if batch_size <=? 0 then Raise ValueError
      else
        Ok (map (fun i => narrow0 patches (i * batch_size)
                            (Z.min batch_size (n - i * batch_size)))
                (Zrange ((n + batch_size - 1) / batch_size)))
  end.

(** ** The patch extractor *)

Module ImageToPatches.

(** Modelled from the spec: the class [animaloc.data.ImageToPatches], which
    the stitchers inherit from, is not among the sources.  The model follows
    section 4.1 (TilingPlan) and the patch-extraction interface of section 6:
    the stride is the patch size minus the overlap and must be positive; the
    number of patches along an axis is the smallest count whose union,
    offset by the stride, covers the axis; patches are enumerated row-major
    and the last ones may extend past the image, where they are filled with
    zeros.  The source multiplies [_ncol] with the patch height and [_nrow]
    with the patch width, so [_ncol] is the count along the height and
    [_nrow] the count along the width. *)
Definition grid_count (len patch stride : Z) : Z :=
  if len <=? 0 then 0
  else if len <=? patch then 1
  else (len - patch + stride - 1) / stride + 1.

(** Modelled from the spec: the attributes that the constructor of
    [ImageToPatches] binds. *)
Record t : Type := {
  image : Tensor;
  size : Z * Z;
  overlap : Z
}.

(** Modelled from the spec: [make_patches] returns the patches, of shape
    (ncol*nrow, C, ph, pw), and sets [_ncol] and [_nrow], returned here
    with them. *)
Definition make_patches (self : t) : Res (Tensor * (Z * Z)) :=
  match shape (image self) with
  | [c; h; w] =>
      let '(ph, pw) := size self in
      let sh := ph - overlap self in
      let sw := pw - overlap self in
      if (sh <=? 0) || (sw <=? 0) then Raise ConfigurationError
      else
        let ncol := grid_count h ph sh in
        let nrow := grid_count w pw sw in
        Ok ({| shape := [ncol * nrow; c; ph; pw];
               data := fun idx =>
                 match idx with
                 | [l; ch; i; j] =>
                     let y := (l / nrow) * sh + i in
                     let x := (l mod nrow) * sw + j in
                     if (y <? h) && (x <? w) then data (image self) [ch; y; x]
                     else 0%Q
                 | _ => 0%Q
                 end |}, (ncol, nrow))
  | _ => Raise ValueError
  end.

(** Modelled from the spec: the limits of a patch (TilingLimits), the
    pixel box from ([x_min], [y_min]) to ([x_max], [y_max]), the latter
    excluded. *)
Record BoundingBox : Type := {
  x_min : Z;
  y_min : Z;
  x_max : Z;
  y_max : Z
}.

(** Modelled from the spec: [get_limits] is not among the sources either;
    it returns the boxes of the patches in the grid order of
    [make_patches], each patch size wide and high from its offset. *)
Definition get_limits (self : t) : Res (list BoundingBox) :=
  match shape (image self) with
  | [c; h; w] =>
      let '(ph, pw) := size self in
      let sh := ph - overlap self in
      let sw := pw - overlap self in
      if (sh <=? 0) || (sw <=? 0) then Raise ConfigurationError
      else
        let ncol := grid_count h ph sh in
        let nrow := grid_count w pw sw in
        Ok (map (fun l =>
                   {| x_min := (l mod nrow) * sw;
                      y_min := (l / nrow) * sh;
                      x_max := (l mod nrow) * sw + pw;
                      y_max := (l / nrow) * sh + ph |})
                (Zrange (ncol * nrow)))
  | _ => Raise ValueError
  end.

End ImageToPatches.

(** ** Stitcher *)

(** The [model] argument of a constructor is any Python object; the
    constructor accepts the instances of [torch.nn.Module]. *)
Inductive PyObject (M : Type) : Type :=
| NNModule (forward : M)
| OtherObject.

Arguments NNModule {M} forward.
Arguments OtherObject {M}.

Module Stitcher.

(** The attributes that [__init__] binds. *)
Record t (M : Type) : Type := {
  model : M;
  size : Z * Z;
  overlap : Z;
  batch_size : Z;
  down_ratio : Z;
  up : bool;
  reduction : string;
  device : string
}.

Arguments model {M} _.
Arguments size {M} _.
Arguments overlap {M} _.
Arguments batch_size {M} _.
Arguments down_ratio {M} _.
Arguments up {M} _.
Arguments reduction {M} _.
Arguments device {M} _.

(** The attributes that [__call__] and [make_patches] set for one image. *)
Record attrs : Type := {
  image : Tensor;
  _ncol : Z;
  _nrow : Z
}.

Section Init.

  (** [torch.device(device_name)] followed by [model.to(device)] succeeds on
      the devices of the machine. *)
Variable device_available : string -> bool.

Definition __init__ {M : Type} (model : PyObject M) (size : Z * Z)
      (overlap batch_size down_ratio : Z) (up : bool)
      (reduction device_name : string) : Res (t M) :=
    match model with
    | OtherObject => Raise AssertionError
    | NNModule m =>
        _ <- assert (existsb (String.eqb reduction)
                       ["sum"; "mean"; "max"]%string) ;;
        if device_available device_name then
          Ok {| model := m; size := size; overlap := overlap;
                batch_size := batch_size; down_ratio := down_ratio;
                up := up; reduction := reduction; device := device_name |}
        else Raise RuntimeError
    end.

End Init.

(** [_inference]: the list grows by the single row of
    [outputs.unsqueeze(0)], that is by one tensor per batch. *)
Fixpoint inference_loop (model : Tensor -> Tensor) (batches maps : list Tensor)
  : Res (list Tensor) :=
  match batches with
  | [] => Ok maps
  | patch :: rest =>
      let outputs := model patch in
      rows <- tensor_iter (unsqueeze0 outputs) ;;
      inference_loop model rest (maps ++ rows)
  end.

Definition _inference (self : t (Tensor -> Tensor)) (patches : Tensor)
  : Res (list Tensor) :=
  dataloader <- DataLoader patches (batch_size self) ;;
  inference_loop (model self) dataloader [].

(** [fn] of [_max_fold]: the windows [[i, i + kernel]] for [i] in
    [range(0, output, stride)], without the last one. *)
Definition max_fold_fn (output kernel stride : Z) : Res (list (Z * Z)) :=
  r <- py_range 0 output stride ;;
  Ok (removelast (map (fun i => (i, i + kernel)) r)).

(** [locs] of [_max_fold]: the comprehension [for h in fn(0) for w in
    fn(1)] evaluates [fn(1)], here [fn1], once for every window of
    [fn(0)], and not at all when there is none. *)
Fixpoint max_fold_locs (fh : list (Z * Z)) (fn1 : Res (list (Z * Z)))
  : Res (list ((Z * Z) * (Z * Z))) :=
  match fh with
  | [] => Ok []
  | h :: fh' =>
      fw <- fn1 ;;
      rest <- max_fold_locs fh' fn1 ;;
      Ok (map (fun w => (h, w)) fw ++ rest)
  end.

Fixpoint max_fold_loop (output : Tensor) (locs : list ((Z * Z) * (Z * Z)))
    (maps : list Tensor) : Res Tensor :=
  match locs, maps with
  | loc :: locs', m :: maps' =>
      patch <- torch_zeros (shape output) ;;
      patch <- slice_assign patch (fst (fst loc)) (snd (fst loc))
                 (fst (snd loc)) (snd (snd loc)) m ;;
      output <- torch_max output patch ;;
      max_fold_loop output locs' maps'
  | _, _ => Ok output
  end.

Definition _max_fold (maps : Tensor) (output_size kernel_size stride : Z * Z)
  : Res Tensor :=
  match nth_error (shape maps) 1 with
  | None => Raise IndexError
  | Some c =>
      output <- torch_zeros [1; c; fst output_size; snd output_size] ;;
      fh <- max_fold_fn (fst output_size) (fst kernel_size) (fst stride) ;;
      locs <- max_fold_locs fh
                (max_fold_fn (snd output_size) (snd kernel_size)
                   (snd stride)) ;;
      ms <- tensor_iter maps ;;
      max_fold_loop output locs ms
  end.

Definition _patch_maps {M : Type} (self : t M) (a : attrs) (maps : list Tensor)
  : Res Tensor :=
  match shape (image a) with
  | [_; h; w] =>
      dh <- floordiv h (down_ratio self) ;;
      dw <- floordiv w (down_ratio self) ;;
      let kernel_size := (fst (size self) / down_ratio self,
                          snd (size self) / down_ratio self) in
      let stride := (fst kernel_size - overlap self / down_ratio self,
                     snd kernel_size - overlap self / down_ratio self) in
      let output_size :=
        (_ncol a * fst kernel_size
           - ((_ncol a - 1) * overlap self) / down_ratio self,
         _nrow a * snd kernel_size
           - ((_nrow a - 1) * overlap self) / down_ratio self) in
      maps <- torch_cat0 maps ;;
      out_map <-
        (if String.eqb (reduction self) "max" then
           _max_fold maps output_size kernel_size stride
         else
           let n_patches := hd 0 (shape maps) in
           maps <- permute1230 maps ;;
           maps <- view_1_m1 maps n_patches ;;
           F_fold maps output_size kernel_size stride) ;;
      crop4 out_map dh dw
  | _ => Raise ValueError
  end.

Definition _reduce {M : Type} (self : t M) (a : attrs) (map_ : Tensor)
  : Res Tensor :=
  match shape (image a) with
  | c :: h :: w :: _ =>
      dh <- floordiv h (down_ratio self) ;;
      dw <- floordiv w (down_ratio self) ;;
      ones <- torch_ones [c; dh; dw] ;;
      norm_map <-
        (if String.eqb (reduction self) "mean" then
           '(ones_patches, _) <-
             ImageToPatches.make_patches
               {| ImageToPatches.image := ones;
                  ImageToPatches.size := (fst (size self) / down_ratio self,
                                          snd (size self) / down_ratio self);
                  ImageToPatches.overlap := overlap self / down_ratio self |} ;;
           chan <- select ones_patches 1 1 ;;
           ps <- tensor_iter chan ;;
           let ones_patches := map (fun p => unsqueeze0 (unsqueeze0 p)) ps in
           _patch_maps self a ones_patches
         else select ones 0 1) ;;
      torch_div map_ norm_map
  | _ => Raise IndexError
  end.

Section Call.

  (** [F.interpolate(x, scale_factor, mode='bilinear', align_corners=True)]
      is left abstract. *)
Variable F_interpolate : Tensor -> Z -> Res Tensor.

Definition __call__ (self : t (Tensor -> Tensor)) (image : Tensor)
    : Res Tensor :=
    '(patches, (ncol, nrow)) <-
      ImageToPatches.make_patches
        {| ImageToPatches.image := image;
           ImageToPatches.size := size self;
           ImageToPatches.overlap := overlap self |} ;;
    let a := {| image := image; _ncol := ncol; _nrow := nrow |} in
    det_maps <- _inference self patches ;;
    patched_map <- _patch_maps self a det_maps ;;
    patched_map <- _reduce self a patched_map ;;
    if up self then F_interpolate patched_map (down_ratio self)
    else Ok patched_map.

End Call.

End Stitcher.

(** ** Floating-point numbers *)

(** The nearest integer, a tie going to the even one. *)
Definition round_half_even (q : Q) : Z :=
  let f := Qfloor q in
  match Qcompare (q - inject_Z f) (1 # 2) with
  | Lt => f
  | Eq => if Z.even f then f else f + 1
  | Gt => f + 1
  end.

(** The integer part of the binary logarithm of a positive rational. *)
Definition Qlog2 (x : Q) : Z :=
  let e := Z.log2 (Qnum x) - Z.log2 (Zpos (Qden x)) in
  if Qle_bool (2 ^ e) x then e else e - 1.

(** The multiple of a power of two that is nearest to the positive [x],
    ties to even, with [prec] significant bits, or fewer below the least
    normal number: the power of two is [2 ^ emin] at least. *)
Definition round_pos (prec emin : Z) (x : Q) : Q :=
  let e := Z.max (Qlog2 x - (prec - 1)) emin in
  (inject_Z (round_half_even (x / 2 ^ e)) * 2 ^ e)%Q.

(** Rounding to the nearest binary floating-point number, ties to even,
    in reduced form. *)
Definition round_float (prec emin : Z) (x : Q) : Q :=
  Qred (match Qcompare x 0 with
        | Eq => 0
        | Gt => round_pos prec emin x
        | Lt => - round_pos prec emin (- x)
        end)%Q.

(** The 32-bit floats of torch and the 64-bit floats of Python. *)
Definition float32 : Q -> Q := round_float 24 (-149).
Definition float64 : Q -> Q := round_float 53 (-1074).

(** ** Detections *)

(** A box [x1, y1, x2, y2] of a detection. *)
Record Box : Type := {
  x1 : Q;
  y1 : Q;
  x2 : Q;
  y2 : Q
}.

(** The dictionary of a detection set: three parallel sequences. *)
Record DetMap : Type := {
  boxes : list Box;
  labels : list Z;
  scores : list Q
}.

Definition Qlt_bool (a b : Q) : bool := negb (Qle_bool b a).

(** [t[indices]] on the first dimension. *)
Fixpoint index_select {A : Type} (l : list A) (indices : list nat)
  : Res (list A) :=
  match indices with
  | [] => Ok []
  | i :: rest =>
      match nth_error l i with
      | None => Raise IndexError
      | Some x => xs <- index_select l rest ;; Ok (x :: xs)
      end
  end.

(** [torch.nonzero(mask, as_tuple=True)[0]] *)
Definition nonzero (mask : list bool) : list nat :=
  map fst (filter snd (combine (seq 0 (length mask)) mask)).

(** [torchvision.ops.nms], after the library's reference implementation:
    the boxes are visited by decreasing score (a stable sort), a visited
    box is kept unless its IoU with a box kept before exceeds the
    threshold, and the indices of the kept boxes are returned, by
    decreasing score. *)
Module torchvision_ops.

Definition area (b : Box) : Q := ((x2 b - x1 b) * (y2 b - y1 b))%Q.

Definition iou (a b : Box) : Q :=
  let w := Qmax 0 (Qmin (x2 a) (x2 b) - Qmax (x1 a) (x1 b)) in
  let h := Qmax 0 (Qmin (y2 a) (y2 b) - Qmax (y1 a) (y1 b)) in
  let inter := (w * h)%Q in
  (inter / (area a + area b - inter))%Q.

Definition cand : Type := nat * (Box * Q).

Fixpoint insert_desc (c : cand) (l : list cand) : list cand :=
  match l with
  | [] => [c]
  | d :: l' =>
      if Qlt_bool (snd (snd c)) (snd (snd d)) then d :: insert_desc c l'
      else c :: l
  end.

Definition sort_desc (l : list cand) : list cand :=
  fold_right insert_desc [] l.

Definition keep_step (iou_threshold : Q) (kept : list cand) (c : cand)
  : list cand :=
  if existsb (fun k => Qlt_bool iou_threshold (iou (fst (snd k)) (fst (snd c))))
       kept
  then kept else kept ++ [c].

Definition nms (boxes : list Box) (scores : list Q) (iou_threshold : Q)
  : Res (list nat) :=
  if Nat.eqb (length boxes) (length scores) then
    let order :=
      sort_desc (combine (seq 0 (length boxes)) (combine boxes scores)) in
    Ok (map fst (fold_left (keep_step iou_threshold) order []))
  else Raise RuntimeError.

End torchvision_ops.

(** ** FasterRCNNStitcher *)

Module FasterRCNNStitcher.

Import ImageToPatches.

Record t : Type := {
  base : Stitcher.t (Tensor -> list DetMap);
  nms_threshold : Q;
  score_threshold : Q
}.

Section Init.

Variable device_available : string -> bool.

  (** [super().__init__] takes the defaults for [down_ratio], [up] and
      [reduction]; [up] is then set to [False] once more. *)
Definition __init__ (model : PyObject (Tensor -> list DetMap))
      (size : Z * Z) (overlap : Z) (nms_threshold score_threshold : Q)
      (batch_size : Z) (device_name : string) : Res t :=
    b <- Stitcher.__init__ device_available model size overlap batch_size
           1 false "sum" device_name ;;
    Ok {| base := {| Stitcher.model := Stitcher.model b;
                     Stitcher.size := Stitcher.size b;
                     Stitcher.overlap := Stitcher.overlap b;
                     Stitcher.batch_size := Stitcher.batch_size b;
                     Stitcher.down_ratio := Stitcher.down_ratio b;
                     Stitcher.up := false;
                     Stitcher.reduction := Stitcher.reduction b;
                     Stitcher.device := Stitcher.device b |};
          nms_threshold := nms_threshold;
          score_threshold := score_threshold |}.

End Init.

(** [maps.append] of the unpacked [outputs]: [list.append] takes exactly
    one argument. *)
Definition append_star {A : Type} (maps outputs : list A) : Res (list A) :=
  match outputs with
  | [o] => Ok (maps ++ [o])
  | _ => Raise TypeError
  end.

Fixpoint inference_loop (model : Tensor -> list DetMap)
    (batches : list Tensor) (maps : list DetMap) : Res (list DetMap) :=
  match batches with
  | [] => Ok maps
  | patch :: rest =>
      let outputs := model patch in
      maps <- append_star maps outputs ;;
      inference_loop model rest maps
  end.

Definition _inference (self : t) (patches : Tensor) : Res (list DetMap) :=
  dataloader <- DataLoader patches (Stitcher.batch_size (base self)) ;;
  inference_loop (Stitcher.model (base self)) dataloader [].

Definition new_box (limit : BoundingBox) (box : Box) : Box :=
  {| x1 := x1 box + inject_Z (x_min limit);
     y1 := y1 box + inject_Z (y_min limit);
     x2 := x2 box + inject_Z (x_min limit);
     y2 := y2 box + inject_Z (y_min limit) |}.

(** The body of the outer loop of [_patch_maps]. *)
Definition patch_maps_step (acc : DetMap) (p : DetMap * BoundingBox) : DetMap :=
  let '(map_, limit) := p in
  {| boxes := fold_left (fun bs box => bs ++ [new_box limit box])
                (boxes map_) (boxes acc);
     labels := labels acc ++ labels map_;
     scores := scores acc ++ scores map_ |}.

(** [torch.Tensor(values)] of Python floats: a tensor of 32-bit floats. *)
Definition torch_Tensor (values : list Q) : list Q := map float32 values.

(** [torch.Tensor(boxes)] of lists of four Python floats. *)
Definition torch_Tensor_boxes (values : list Box) : list Box :=
  map (fun b => {| x1 := float32 (x1 b); y1 := float32 (y1 b);
                   x2 := float32 (x2 b); y2 := float32 (y2 b) |}) values.

(** [torch.Tensor(labels)] of Python integers: every integer is converted
    to a Python float and then to a 32-bit float, whose value is an
    integer again. *)
Definition torch_Tensor_int (values : list Z) : list Z :=
  map (fun n => Qfloor (float32 (float64 (inject_Z n)))) values.

(** [limits] is [self.get_limits().values()]; the three lists that the
    loop builds are returned as tensors. *)
Definition _patch_maps (limits : list BoundingBox) (maps : list DetMap)
  : DetMap :=
  let lists :=
    fold_left patch_maps_step (combine maps limits)
      {| boxes := []; labels := []; scores := [] |} in
  {| boxes := torch_Tensor_boxes (boxes lists);
     labels := torch_Tensor_int (labels lists);
     scores := torch_Tensor (scores lists) |}.

(** The scores are a tensor of 32-bit floats, as [_patch_maps] builds
    it: in the comparison the threshold, a Python float, is converted
    to a 32-bit float. *)
Definition _reduce (self : t) (map_ : DetMap) : Res DetMap :=
  match boxes map_ with
  | [] => Ok map_
  | _ :: _ =>
      indices <- torchvision_ops.nms (boxes map_) (scores map_)
                   (nms_threshold self) ;;
      b <- index_select (boxes map_) indices ;;
      l <- index_select (labels map_) indices ;;
      s <- index_select (scores map_) indices ;;
      let indices :=
        nonzero (map (Qlt_bool (float32 (score_threshold self))) s) in
      b <- index_select b indices ;;
      l <- index_select l indices ;;
      s <- index_select s indices ;;
      Ok {| boxes := b; labels := l; scores := s |}
  end.

(** [__call__] is inherited from [Stitcher]; [up] is [False]. *)
Definition __call__ (self : t) (image : Tensor) : Res DetMap :=
  let itp := {| ImageToPatches.image := image;
                ImageToPatches.size := Stitcher.size (base self);
                ImageToPatches.overlap := Stitcher.overlap (base self) |} in
  '(patches, _) <- make_patches itp ;;
  det_maps <- _inference self patches ;;
  limits <- get_limits itp ;;
  _reduce self (_patch_maps limits det_maps).

End FasterRCNNStitcher.

(** ** Notions used by the statements *)

(** A detection set holds as many labels and scores as boxes. *)
Definition well_formed (m : DetMap) : Prop :=
  length (labels m) = length (boxes m) /\
  length (scores m) = length (boxes m).

(** The detections of a set, one triple per detected object. *)
Definition detections (m : DetMap) : list (Box * (Z * Q)) :=
  combine (boxes m) (combine (labels m) (scores m)).

(** A rational that is a 32-bit float. *)
Definition is_float32 (x : Q) : Prop := float32 x == x.



(** A box of a detection lies within the box of a patch. *)
Definition box_within (b : Box) (l : ImageToPatches.BoundingBox) : Prop :=
  (inject_Z (ImageToPatches.x_min l) <= x1 b
   /\ x1 b <= inject_Z (ImageToPatches.x_max l)
   /\ inject_Z (ImageToPatches.x_min l) <= x2 b
   /\ x2 b <= inject_Z (ImageToPatches.x_max l)
   /\ inject_Z (ImageToPatches.y_min l) <= y1 b
   /\ y1 b <= inject_Z (ImageToPatches.y_max l)
   /\ inject_Z (ImageToPatches.y_min l) <= y2 b
   /\ y2 b <= inject_Z (ImageToPatches.y_max l))%Q.

(** A patch-local box lies within the extent of its patch. *)
Definition box_local (b : Box) (l : ImageToPatches.BoundingBox) : Prop :=
  (0 <= x1 b
   /\ x1 b <= inject_Z (ImageToPatches.x_max l - ImageToPatches.x_min l)
   /\ 0 <= x2 b
   /\ x2 b <= inject_Z (ImageToPatches.x_max l - ImageToPatches.x_min l)
   /\ 0 <= y1 b
   /\ y1 b <= inject_Z (ImageToPatches.y_max l - ImageToPatches.y_min l)
   /\ 0 <= y2 b
   /\ y2 b <= inject_Z (ImageToPatches.y_max l - ImageToPatches.y_min l))%Q.


(** The claim on the threshold, at one input: every detection that
    survives the suppression with a score strictly above the threshold
    is returned. *)
Definition retained_above_threshold (self : FasterRCNNStitcher.t)
    (m : DetMap) : Prop :=
  exists kept r,
    torchvision_ops.nms (boxes m) (scores m)
      (FasterRCNNStitcher.nms_threshold self) = Ok kept
    /\ FasterRCNNStitcher._reduce self m = Ok r
    /\ forall i, In i kept ->
         (FasterRCNNStitcher.score_threshold self < nth i (scores m) 0)%Q ->
         In (nth i (scores m) 0%Q) (scores r).

(** The coordinates of the box of a patch are at most 2^24 in magnitude,
    so that they are 32-bit floats. *)
Definition limit_in_float32 (l : ImageToPatches.BoundingBox) : Prop :=
  Z.abs (ImageToPatches.x_min l) <= 2 ^ 24
  /\ Z.abs (ImageToPatches.y_min l) <= 2 ^ 24
  /\ Z.abs (ImageToPatches.x_max l) <= 2 ^ 24
  /\ Z.abs (ImageToPatches.y_max l) <= 2 ^ 24.

(** The number of detections that the patches report together. *)
Definition input_count (maps : list DetMap) : nat :=
  fold_right (fun m n => (length (boxes m) + n)%nat) 0%nat maps.

Definition reduction_known (r : string) : Prop :=
  r = "sum"%string \/ r = "mean"%string \/ r = "max"%string.

(** The claim on construction, at one configuration: construction fails
    exactly when the reduction is unknown, the stride is not positive or
    the model is not a module. *)
Definition fails_as_claimed {M : Type} (dev : string -> bool)
    (model : PyObject M) (size : Z * Z) (overlap batch_size down_ratio : Z)
    (up : bool) (reduction device_name : string) : Prop :=
  (exists e, Stitcher.__init__ dev model size overlap batch_size down_ratio up
               reduction device_name = Raise e)
  <-> (~ reduction_known reduction
       \/ fst size - overlap <= 0 \/ snd size - overlap <= 0
       \/ model = OtherObject).


(** The guarantee claimed for the detection stitcher, at one input: no more
    detections than the patches reported, and every stitched box within
    the box of some patch. *)
Definition stitched_within_patches (self : FasterRCNNStitcher.t)
    (limits : list ImageToPatches.BoundingBox) (maps : list DetMap) : Prop :=
  exists r,
    FasterRCNNStitcher._reduce self
      (FasterRCNNStitcher._patch_maps limits maps) = Ok r
    /\ (length (boxes r) <= input_count maps)%nat
    /\ Forall (fun b => Exists (box_within b) limits) (boxes r).

(** A dense stitcher on the cpu that does not upsample. *)
Definition dense_stitcher (model : Tensor -> Tensor) (size : Z * Z)
    (overlap batch_size down_ratio : Z) (reduction : string)
  : Stitcher.t (Tensor -> Tensor) :=
  {| Stitcher.model := model;
     Stitcher.size := size; Stitcher.overlap := overlap;
     Stitcher.batch_size := batch_size;
     Stitcher.down_ratio := down_ratio; Stitcher.up := false;
     Stitcher.reduction := reduction;
     Stitcher.device := "cpu" |}.

(** A model that returns the value [v] everywhere, in one channel, for
    every patch of the batch. *)
Definition constant_model (v : Q) (kh kw : Z) (b : Tensor) : Tensor :=
  const_tensor v [hd 0 (shape b); 1; kh; kw].

(** A stitcher whose model returns a map of ones for every patch of the
    batch, of the size of the patches divided by the down ratio. *)
Definition ones_stitcher (reduction : string) (size : Z * Z)
    (overlap batch_size down_ratio : Z) : Stitcher.t (Tensor -> Tensor) :=
  dense_stitcher
    (constant_model 1 (fst size / down_ratio) (snd size / down_ratio))
    size overlap batch_size down_ratio reduction.

(** The claim on the reductions without overlap, at one input: the three
    modes return the same map. *)
Definition modes_agree (F_interpolate : Tensor -> Z -> Res Tensor)
    (model : Tensor -> Tensor) (size : Z * Z) (batch_size down_ratio : Z)
    (img : Tensor) : Prop :=
  exists rs rm rx,
    Stitcher.__call__ F_interpolate
      (dense_stitcher model size 0 batch_size down_ratio "sum") img = Ok rs
    /\ Stitcher.__call__ F_interpolate
         (dense_stitcher model size 0 batch_size down_ratio "mean") img = Ok rm
    /\ Stitcher.__call__ F_interpolate
         (dense_stitcher model size 0 batch_size down_ratio "max") img = Ok rx
    /\ shape rm = shape rs
    /\ shape rx = shape rs
    /\ forall idx, in_bounds (shape rs) idx ->
         data rm idx == data rs idx /\ data rx idx == data rs idx.

(** A patch placed by [_max_fold]: its window, rows [fst (fst w)] to
    [snd (fst w)] and columns [fst (snd w)] to [snd (snd w)], and its
    values. *)
Definition placed : Type := ((Z * Z) * (Z * Z)) * Tensor.

Definition in_window (p : placed) (y x : Z) : Prop :=
  fst (fst (fst p)) <= y < snd (fst (fst p))
  /\ fst (snd (fst p)) <= x < snd (snd (fst p)).

Definition value_at (p : placed) (c y x : Z) : Q :=
  data (snd p) [c; y - fst (fst (fst p)); x - fst (snd (fst p))].

(** [v] is the largest of 0 and of the values that the patches of [seen]
    whose window covers the pixel hold there. *)
Definition max_with_zero (seen : list placed) (c y x : Z) (v : Q) : Prop :=
  (0 <= v)%Q
  /\ (forall p, In p seen -> in_window p y x -> (value_at p c y x <= v)%Q)
  /\ ((v == 0)%Q
      \/ exists p, In p seen /\ in_window p y x /\ (v == value_at p c y x)%Q).


(** Two patches of 2 by 3 pixels side by side, overlapping in one column:
    the left one holds [v1] everywhere, the right one [v2]. *)
Definition two_patches (v1 v2 : Q) : Tensor :=
  {| shape := [2; 1; 2; 3];
     data := fun idx => if hd 0 idx =? 0 then v1 else v2 |}.

(** The patches that the loop of [_max_fold] can place in an output of
    [C] channels and [oh] by [ow] pixels: a window within the output and
    values of its size. *)
Definition placeable (C oh ow : Z) (p : placed) : Prop :=
  shape (snd p)
  = [C; snd (fst (fst p)) - fst (fst (fst p));
        snd (snd (fst p)) - fst (snd (fst p))]
  /\ 0 <= fst (fst (fst p)) <= snd (fst (fst p))
  /\ snd (fst (fst p)) <= oh
  /\ 0 <= fst (snd (fst p)) <= snd (snd (fst p))
  /\ snd (snd (fst p)) <= ow.

(** The output after the patches of [seen] were placed. *)
Definition assembled (C oh ow : Z) (out : Tensor) (seen : list placed)
  : Prop :=
  shape out = [1; C; oh; ow]
  /\ forall c y x, 0 <= c < C -> 0 <= y < oh -> 0 <= x < ow ->
       max_with_zero seen c y x (data out [0; c; y; x]).

(** Without overlap the sum and mean reductions tile the outputs of the
    patches: for an image of [dr * dh] by [dr * dw] pixels and patches of
    [dr * kh] by [dr * kw] pixels, both calls return a map of [dh] by [dw]
    pixels whose pixel (y, x) is the pixel (y mod kh, x mod kw) of the
    output for the patch of row y / kh and column x / kw of the grid.
    [maps] holds the outputs of the model, one row per patch in grid
    order. *)
Definition sum_mean_tile (F_interpolate : Tensor -> Z -> Res Tensor)
    (model : Tensor -> Tensor) (img : Tensor)
    (dh dw kh kw dr bs c : Z) : Prop :=
  let size := (dr * kh, dr * kw) in
  let nrow := ImageToPatches.grid_count dw kw kw in
  exists patches ncol maps rs rm,
    ImageToPatches.make_patches
      {| ImageToPatches.image := img;
         ImageToPatches.size := size;
         ImageToPatches.overlap := 0 |} = Ok (patches, (ncol, nrow))
    /\ (det_maps <- Stitcher._inference
                      (dense_stitcher model size 0 bs dr "sum") patches ;;
        torch_cat0 det_maps) = Ok maps
    /\ shape maps = [ncol * nrow; c; kh; kw]
    /\ Stitcher.__call__ F_interpolate
         (dense_stitcher model size 0 bs dr "sum") img = Ok rs
    /\ Stitcher.__call__ F_interpolate
         (dense_stitcher model size 0 bs dr "mean") img = Ok rm
    /\ shape rs = [1; c; dh; dw]
    /\ shape rm = [1; c; dh; dw]
    /\ forall cc y x,
         0 <= cc < c -> 0 <= y < dh -> 0 <= x < dw ->
         data rs [0; cc; y; x]
         == data maps [y / kh * nrow + x / kw; cc; y mod kh; x mod kw]
         /\ data rm [0; cc; y; x]
            == data maps [y / kh * nrow + x / kw; cc; y mod kh; x mod kw].

(** The window of the patch of rank [l], in a grid of [nw] columns of
    patches of [kh] by [kw] pixels with strides [sh] and [sw], covers the
    pixel (y, x). *)
Definition in_block (nw kh kw sh sw y x l : Z) : bool :=
  (0 <=? y - l / nw * sh) && (y - l / nw * sh <? kh)
  && (0 <=? x - l mod nw * sw) && (x - l mod nw * sw <? kw).

(** The number of patches of the grid that cover a pixel. *)
Definition cover_count (nh nw kh kw sh sw y x : Z) : Q :=
  Qsum (fun l => if in_block nw kh kw sh sw y x l then 1 else 0)%Q
       (Zrange (nh * nw)).

(** ** Notions used by the further properties *)

(** The batch of rank [i] that the loader cuts from [patches]. *)
Definition batch_of (patches : Tensor) (batch_size i : Z) : Tensor :=
  narrow0 patches (i * batch_size)
    (Z.min batch_size (hd 0 (shape patches) - i * batch_size)).

(** The detection set without detections. *)
Definition no_detections : DetMap :=
  {| boxes := []; labels := []; scores := [] |}.

(** The sum of the values that the patches covering the pixel (y, x) hold
    there, in channel [cc]; [maps] holds one row per patch. *)
Definition overlap_add (maps : Tensor) (nh nw kh kw sh sw cc y x : Z) : Q :=
  Qsum (fun l =>
          if in_block nw kh kw sh sw y x l
          then data maps [l; cc; y - l / nw * sh; x - l mod nw * sw]
          else 0%Q) (Zrange (nh * nw)).

(** What a dense call with down ratio 1 returns in sum and in mean mode,
    for an image of [H] by [W] pixels and patches of [kh] by [kw] pixels
    that overlap by [o]: the sum of the covering patches, and that sum
    divided by the number of covering patches. *)
Definition sum_and_mean_calls (F_interpolate : Tensor -> Z -> Res Tensor)
    (model : Tensor -> Tensor) (img : Tensor)
    (H W kh kw o bs c : Z) : Prop :=
  let nh := ImageToPatches.grid_count H kh (kh - o) in
  let nw := ImageToPatches.grid_count W kw (kw - o) in
  exists patches maps rs rm,
    ImageToPatches.make_patches
      {| ImageToPatches.image := img;
         ImageToPatches.size := (kh, kw);
         ImageToPatches.overlap := o |} = Ok (patches, (nh, nw))
    /\ (det_maps <- Stitcher._inference
                      (dense_stitcher model (kh, kw) o bs 1 "sum") patches ;;
        torch_cat0 det_maps) = Ok maps
    /\ shape maps = [nh * nw; c; kh; kw]
    /\ Stitcher.__call__ F_interpolate
         (dense_stitcher model (kh, kw) o bs 1 "sum") img = Ok rs
    /\ Stitcher.__call__ F_interpolate
         (dense_stitcher model (kh, kw) o bs 1 "mean") img = Ok rm
    /\ shape rs = [1; c; H; W]
    /\ shape rm = [1; c; H; W]
    /\ forall cc y x,
         0 <= cc < c -> 0 <= y < H -> 0 <= x < W ->
         data rs [0; cc; y; x]
         == overlap_add maps nh nw kh kw (kh - o) (kw - o) cc y x
         /\ (1 <= cover_count nh nw kh kw (kh - o) (kw - o) y x)%Q
         /\ data rm [0; cc; y; x]
            == overlap_add maps nh nw kh kw (kh - o) (kw - o) cc y x
               / cover_count nh nw kh kw (kh - o) (kw - o) y x.

(** The scores never increase along the sequence. *)
Definition non_increasing (ss : list Q) : Prop :=
  StronglySorted (fun s s' => (s' <= s)%Q) ss.

(** No box overlaps an earlier box of the sequence by more than [thr]. *)
Definition separated (thr : Q) (bs : list Box) : Prop :=
  ForallOrdPairs (fun a b => (torchvision_ops.iou a b <= thr)%Q) bs.

(** * Properties *)

(** A guard of the code that the hypotheses rule out: the comparison is
    decided and the branch where it holds is closed by arithmetic. *)
Ltac guard_false c :=
  let E := fresh "E" in
  destruct c eqn:E;
  [ first [ apply Z.leb_le in E | apply Z.ltb_lt in E | apply Z.eqb_eq in E ];
    first [ lia | nia ]
  | clear E ].

(** ** Results in the error monad *)

Lemma bind_inv_Ok {A B : Type} (m : Res A) (k : A -> Res B) (b : B) :
  bind m k = Ok b -> exists a, m = Ok a /\ k a = Ok b.
Proof. destruct m as [a|e]; simpl; intros H; [eauto | discriminate]. Qed.

Lemma Qlt_bool_iff (a b : Q) : Qlt_bool a b = true <-> (a < b)%Q.
Proof.
  unfold Qlt_bool. rewrite negb_true_iff.
  split; intros H.
  - apply Qnot_le_lt. intros Hle. apply Qle_bool_iff in Hle. congruence.
  - destruct (Qle_bool b a) eqn:E; [|reflexivity].
    apply Qle_bool_iff in E. exfalso. exact (Qlt_not_le _ _ H E).
Qed.

(** ** Construction (C4) *)

Module InitFacts.

Import Stitcher.

Lemma reduction_known_iff (r : string) :
  existsb (String.eqb r) ["sum"; "mean"; "max"]%string = true
  <-> reduction_known r.
Proof.
  unfold reduction_known. simpl.
  rewrite !orb_true_iff, !String.eqb_eq. intuition discriminate.
Qed.

(** C4, counterexample: with patch size 256x256 and overlap 256 the stride
    is 0, and the constructor returns a stitcher all the same. *)
Lemma init_accepts_zero_stride :
  ~ fails_as_claimed (fun _ => true) (NNModule (fun t : Tensor => t))
      (256, 256) 256 1 1 false "sum" "cpu".
Proof.
  unfold fails_as_claimed. intros [_ H].
  destruct H as [e He].
  - right. left. simpl. lia.
  - discriminate He.
Qed.

(** C4, amended: the constructor raises its assertion error exactly when
    the model is not a module or the reduction is not one of sum, mean and
    max; it returns a stitcher exactly when the model is a module, the
    reduction is known and the device is available.  Patch size and overlap
    play no part: the stride is not checked at construction. *)
Theorem init_outcome {M : Type} (dev : string -> bool) (model : PyObject M)
    (size : Z * Z) (overlap batch_size down_ratio : Z) (up : bool)
    (reduction device_name : string) :
  (__init__ dev model size overlap batch_size down_ratio up reduction
     device_name = Raise AssertionError
   <-> (model = OtherObject \/ ~ reduction_known reduction))
  /\
  ((exists s, __init__ dev model size overlap batch_size down_ratio up
                reduction device_name = Ok s)
   <-> ((exists m, model = NNModule m) /\ reduction_known reduction
        /\ dev device_name = true)).
Proof.
  unfold __init__.
  destruct model as [m|].
  - destruct (existsb (String.eqb reduction) ["sum"; "mean"; "max"]%string)
      eqn:E.
    + pose proof (proj1 (reduction_known_iff reduction) E) as K.
      cbn [assert bind].
      destruct (dev device_name) eqn:D; split; split.
      * discriminate.
      * intros [H|H]; [discriminate | contradiction].
      * intros _. repeat split; eauto.
      * intros _. eauto.
      * discriminate.
      * intros [H|H]; [discriminate | contradiction].
      * intros [s H]. discriminate.
      * intros (_ & _ & H). discriminate.
    + assert (K : ~ reduction_known reduction).
      { intros K. apply reduction_known_iff in K. congruence. }
      cbn [assert bind]. split; split.
      * intros _. now right.
      * reflexivity.
      * intros [s H]. discriminate.
      * intros (_ & H & _). contradiction.
  - split; split.
    + intros _. now left.
    + reflexivity.
    + intros [s H]. discriminate.
    + intros ([m H] & _). discriminate.
Qed.

End InitFacts.

(** ** Rounding to floating-point numbers *)

Module FloatFacts.

Lemma round_half_even_floor (q : Q) :
  Qfloor q <= round_half_even q <= Qfloor q + 1.
Proof.
  unfold round_half_even. cbv zeta.
  destruct (Qcompare _ _); [destruct (Z.even _)| |]; lia.
Qed.

Lemma round_half_even_lower (q : Q) (k : Z) :
  (inject_Z k <= q)%Q -> k <= round_half_even q.
Proof.
  intros H. apply Qfloor_resp_le in H. rewrite Qfloor_Z in H.
  pose proof (round_half_even_floor q). lia.
Qed.

Lemma round_half_even_upper (q : Q) (k : Z) :
  (q <= inject_Z k)%Q -> round_half_even q <= k.
Proof.
  intros H.
  assert (Hf : Qfloor q <= k).
  { apply Qfloor_resp_le in H. now rewrite Qfloor_Z in H. }
  unfold round_half_even. cbv zeta.
  assert (Hup : (0 < q - inject_Z (Qfloor q))%Q -> Qfloor q + 1 <= k).
  { intros Hpos.
    assert (Hlt : (inject_Z (Qfloor q) < inject_Z k)%Q) by lra.
    rewrite <- Zlt_Qlt in Hlt. lia. }
  destruct (Qcompare (q - inject_Z (Qfloor q)) (1 # 2)) eqn:E.
  - apply Qeq_alt in E. destruct (Z.even _); [exact Hf|].
    apply Hup. rewrite E. reflexivity.
  - exact Hf.
  - apply Qgt_alt in E. apply Hup. lra.
Qed.

Lemma two_power_pos (e : Z) : (0 < 2 ^ e)%Q.
Proof. apply Qpower_0_lt. reflexivity. Qed.

Lemma two_power_Z (n : Z) : 0 <= n -> (inject_Z (2 ^ n) == 2 ^ n)%Q.
Proof. intros H. now rewrite Zpower_Qpower. Qed.

(** The power of two below a positive rational. *)
Lemma Qlog2_le (x : Q) : (0 < x)%Q -> (2 ^ Qlog2 x <= x)%Q.
Proof.
  intros Hx. unfold Qlog2. cbv zeta.
  set (a := Z.log2 (Qnum x)). set (b := Z.log2 (Z.pos (Qden x))).
  destruct (Qle_bool (2 ^ (a - b)) x) eqn:E.
  - now apply Qle_bool_iff.
  - clear E.
    assert (Hn : 0 < Qnum x).
    { unfold Qlt in Hx. simpl in Hx. lia. }
    assert (Ha : 0 <= a) by apply Z.log2_nonneg.
    assert (Hb : 0 <= b) by apply Z.log2_nonneg.
    destruct (Z.log2_spec (Qnum x) Hn) as [Hlo _]. fold a in Hlo.
    destruct (Z.log2_spec (Z.pos (Qden x)) eq_refl) as [_ Hhi]. fold b in Hhi.
    replace (a - b - 1) with (a - (b + 1)) by lia.
    rewrite Qpower_minus by discriminate.
    rewrite <- !two_power_Z by lia.
    apply Qle_shift_div_r.
    + rewrite two_power_Z by lia. apply two_power_pos.
    + destruct x as [n d]. simpl in *.
      unfold Qle, Qmult, inject_Z. simpl.
      unfold Z.succ in Hhi. nia.
Qed.


Section Rounding.

Variables prec emin : Z.

Hypothesis Hprec : 0 < prec.
Hypothesis Hemin : emin <= 0.

Lemma grid_point (x : Q) (e k : Z) :
  ((inject_Z k * 2 ^ e <= x ->
    inject_Z k * 2 ^ e <= inject_Z (round_half_even (x / 2 ^ e)) * 2 ^ e)
   /\ (x <= inject_Z k * 2 ^ e ->
       inject_Z (round_half_even (x / 2 ^ e)) * 2 ^ e <= inject_Z k * 2 ^ e))%Q.
Proof.
  pose proof (two_power_pos e) as Hp.
  split; intros H.
  - apply Qmult_le_compat_r; [|now apply Qlt_le_weak].
    rewrite <- Zle_Qle. apply round_half_even_lower.
    apply Qle_shift_div_l; assumption.
  - apply Qmult_le_compat_r; [|now apply Qlt_le_weak].
    rewrite <- Zle_Qle. apply round_half_even_upper.
    apply Qle_shift_div_r; assumption.
Qed.

Lemma integer_on_grid (a e : Z) :
  e <= 0 -> (inject_Z a == inject_Z (a * 2 ^ (- e)) * 2 ^ e)%Q.
Proof.
  intros He. rewrite inject_Z_mult, two_power_Z by lia.
  rewrite <- Qmult_assoc, <- Qpower_plus by discriminate.
  replace (- e + e) with 0 by lia. simpl. ring.
Qed.

Lemma round_pos_nonneg (x : Q) : (0 < x)%Q -> (0 <= round_pos prec emin x)%Q.
Proof.
  intros Hx. unfold round_pos. cbv zeta.
  set (e := Z.max _ _).
  destruct (grid_point x e 0) as [H _].
  rewrite Qmult_0_l in H. apply H. now apply Qlt_le_weak.
Qed.

Lemma round_pos_bounds (x : Q) (a : Z) :
  (0 < x)%Q -> 0 < a <= 2 ^ prec ->
  ((inject_Z a <= x -> inject_Z a <= round_pos prec emin x)
   /\ (x <= inject_Z a -> round_pos prec emin x <= inject_Z a))%Q.
Proof.
  intros Hx Ha. unfold round_pos. cbv zeta.
  pose proof (Qlog2_le x Hx) as Hlog.
  set (fl := Qlog2 x) in *.
  set (e := Z.max (fl - (prec - 1)) emin).
  destruct (Z_le_gt_dec e 0) as [He | He].
  - rewrite (integer_on_grid a e He). apply grid_point.
  - assert (Ee : e = fl - (prec - 1)) by lia.
    assert (Hfl : prec <= fl) by lia.
    assert (Hg : (2 ^ fl == inject_Z (2 ^ (prec - 1)) * 2 ^ e)%Q).
    { rewrite two_power_Z by lia. rewrite <- Qpower_plus by discriminate.
      rewrite Ee. replace (prec - 1 + (fl - (prec - 1))) with fl by lia.
      reflexivity. }
    assert (Hap : (inject_Z a <= 2 ^ prec)%Q).
    { rewrite <- two_power_Z by lia. rewrite <- Zle_Qle. lia. }
    assert (Hpf : (2 ^ prec <= 2 ^ fl)%Q).
    { apply Qpower_le_compat_l; [exact Hfl | discriminate]. }
    split; intros H.
    + apply Qle_trans with (2 ^ fl)%Q; [lra|].
      rewrite Hg. apply grid_point. rewrite <- Hg. exact Hlog.
    + assert (Hfl' : fl <= prec).
      { apply (Qpower_le_compat_l_inv 2); [lra | reflexivity]. }
      assert (fl = prec) by lia. subst fl.
      assert (Ea : (inject_Z a == inject_Z (2 ^ (prec - 1)) * 2 ^ e)%Q).
      { rewrite <- Hg. apply Qle_antisym; lra. }
      rewrite Ea. apply grid_point. rewrite <- Ea. exact H.
Qed.

(** Rounding does not cross an integer of at most [prec] bits. *)
Lemma round_float_bounds (x : Q) (a : Z) :
  Z.abs a <= 2 ^ prec ->
  ((inject_Z a <= x -> inject_Z a <= round_float prec emin x)
   /\ (x <= inject_Z a -> round_float prec emin x <= inject_Z a))%Q.
Proof.
  intros Ha. unfold round_float. rewrite Qred_correct.
  destruct (Qcompare x 0) eqn:E.
  - apply Qeq_alt in E. rewrite E. tauto.
  - apply Qlt_alt in E.
    assert (Hx : (0 < - x)%Q) by lra.
    pose proof (round_pos_nonneg (- x) Hx) as Hr.
    destruct (Z_lt_ge_dec a 0) as [Hneg | Hpos].
    + destruct (round_pos_bounds (- x) (- a) Hx ltac:(lia)) as [Hlo Hhi].
      rewrite inject_Z_opp in Hlo, Hhi.
      split; intros H.
      * assert (H' : (- x <= - inject_Z a)%Q) by lra.
        apply Hhi in H'. lra.
      * assert (H' : (- inject_Z a <= - x)%Q) by lra.
        apply Hlo in H'. lra.
    + assert (H0 : (0 <= inject_Z a)%Q).
      { change 0%Q with (inject_Z 0). rewrite <- Zle_Qle. lia. }
      split; intros H; lra.
  - apply Qgt_alt in E.
    pose proof (round_pos_nonneg x E) as Hr.
    destruct (Z_le_gt_dec a 0) as [Hneg | Hpos].
    + assert (H0 : (inject_Z a <= 0)%Q).
      { change 0%Q with (inject_Z 0). rewrite <- Zle_Qle. lia. }
      split; intros H; lra.
    + apply round_pos_bounds; [exact E | lia].
Qed.


End Rounding.


Lemma round_half_even_mono (p q : Q) :
  (p <= q)%Q -> round_half_even p <= round_half_even q.
Proof.
  intros H.
  pose proof (Qfloor_resp_le _ _ H) as Hf.
  destruct (Z.eq_dec (Qfloor p) (Qfloor q)) as [E | N].
  - unfold round_half_even. cbv zeta. rewrite E.
    destruct (Qcompare (p - inject_Z (Qfloor q)) (1 # 2)) eqn:E1;
      destruct (Qcompare (q - inject_Z (Qfloor q)) (1 # 2)) eqn:E2;
      try (destruct (Z.even (Qfloor q))); try lia;
      repeat match goal with
             | H : Qcompare _ _ = Eq |- _ => apply Qeq_alt in H
             | H : Qcompare _ _ = Lt |- _ => apply Qlt_alt in H
             | H : Qcompare _ _ = Gt |- _ => apply Qgt_alt in H
             end; exfalso; lra.
  - pose proof (round_half_even_floor p). pose proof (round_half_even_floor q).
    lia.
Qed.

Lemma Qlog2_lt (x : Q) : (0 < x)%Q -> (x < 2 ^ (Qlog2 x + 1))%Q.
Proof.
  intros Hx. unfold Qlog2. cbv zeta.
  set (a := Z.log2 (Qnum x)). set (b := Z.log2 (Z.pos (Qden x))).
  destruct (Qle_bool (2 ^ (a - b)) x) eqn:E.
  - clear E.
    assert (Hn : 0 < Qnum x).
    { unfold Qlt in Hx. simpl in Hx. lia. }
    assert (Ha : 0 <= a) by apply Z.log2_nonneg.
    assert (Hb : 0 <= b) by apply Z.log2_nonneg.
    destruct (Z.log2_spec (Qnum x) Hn) as [_ Hhi]. fold a in Hhi.
    destruct (Z.log2_spec (Z.pos (Qden x)) eq_refl) as [Hlo _]. fold b in Hlo.
    replace (a - b + 1) with (a + 1 - b) by lia.
    rewrite Qpower_minus by discriminate.
    rewrite <- !two_power_Z by lia.
    apply Qlt_shift_div_l.
    + rewrite two_power_Z by lia. apply two_power_pos.
    + destruct x as [n d]. simpl in *.
      unfold Qlt, Qmult, inject_Z. simpl.
      unfold Z.succ in Hhi. nia.
  - replace (a - b - 1 + 1) with (a - b) by lia.
    apply Qnot_le_lt. intros H. apply Qle_bool_iff in H. congruence.
Qed.

Lemma Qlog2_mono (x y : Q) : (0 < x)%Q -> (x <= y)%Q -> Qlog2 x <= Qlog2 y.
Proof.
  intros Hx Hxy.
  assert (Hy : (0 < y)%Q) by lra.
  pose proof (Qlog2_le x Hx). pose proof (Qlog2_lt y Hy).
  assert (Hlt : (2 ^ Qlog2 x < 2 ^ (Qlog2 y + 1))%Q) by lra.
  apply Qpower_lt_compat_l_inv in Hlt; [lia | reflexivity].
Qed.

Section Monotone.

Variables prec emin : Z.

Hypothesis Hprec : 0 < prec.

Lemma round_pos_mono (x y : Q) :
  (0 < x)%Q -> (x <= y)%Q -> (round_pos prec emin x <= round_pos prec emin y)%Q.
Proof.
  intros Hx Hxy.
  assert (Hy : (0 < y)%Q) by lra.
  pose proof (Qlog2_mono x y Hx Hxy) as Hl.
  unfold round_pos. cbv zeta.
  set (ex := Z.max (Qlog2 x - (prec - 1)) emin).
  set (ey := Z.max (Qlog2 y - (prec - 1)) emin).
  destruct (Z.eq_dec ex ey) as [E | N].
  - rewrite E. apply Qmult_le_compat_r;
      [|apply Qlt_le_weak, two_power_pos].
    rewrite <- Zle_Qle. apply round_half_even_mono.
    apply Qmult_le_compat_r; [exact Hxy|].
    apply Qlt_le_weak, Qinv_lt_0_compat, two_power_pos.
  - assert (Hlt : ex < ey) by lia.
    assert (Ey : ey = Qlog2 y - (prec - 1)) by lia.
    assert (Hfl : Qlog2 x + 1 <= Qlog2 y) by lia.
    set (g := (2 ^ Qlog2 y)%Q).
    assert (Hxg : (x <= g)%Q).
    { apply Qle_trans with (2 ^ (Qlog2 x + 1))%Q.
      - apply Qlt_le_weak, Qlog2_lt, Hx.
      - apply Qpower_le_compat_l; [exact Hfl | discriminate]. }
    assert (Hgy : (g <= y)%Q) by (apply Qlog2_le, Hy).
    assert (Gx : (g == inject_Z (2 ^ (Qlog2 y - ex)) * 2 ^ ex)%Q).
    { rewrite two_power_Z by lia. rewrite <- Qpower_plus by discriminate.
      unfold g. replace (Qlog2 y - ex + ex) with (Qlog2 y) by lia.
      reflexivity. }
    assert (Gy : (g == inject_Z (2 ^ (Qlog2 y - ey)) * 2 ^ ey)%Q).
    { rewrite two_power_Z by lia. rewrite <- Qpower_plus by discriminate.
      unfold g. replace (Qlog2 y - ey + ey) with (Qlog2 y) by lia.
      reflexivity. }
    apply Qle_trans with g.
    + rewrite Gx. apply grid_point. rewrite <- Gx. exact Hxg.
    + rewrite Gy. apply grid_point. rewrite <- Gy. exact Hgy.
Qed.

(** Rounding keeps the order. *)
Lemma round_float_mono (x y : Q) :
  (x <= y)%Q -> (round_float prec emin x <= round_float prec emin y)%Q.
Proof.
  intros Hxy. unfold round_float. rewrite !Qred_correct.
  destruct (Qcompare x 0) eqn:E1; destruct (Qcompare y 0) eqn:E2;
    repeat match goal with
           | H : Qcompare _ _ = Eq |- _ => apply Qeq_alt in H
           | H : Qcompare _ _ = Lt |- _ => apply Qlt_alt in H
           | H : Qcompare _ _ = Gt |- _ => apply Qgt_alt in H
           end; try (exfalso; lra).
  - apply Qle_refl.
  - now apply round_pos_nonneg.
  - assert (H : (0 < - x)%Q) by lra.
    apply (round_pos_nonneg prec emin) in H. lra.
  - assert (H : (- y <= - x)%Q) by lra.
    apply round_pos_mono in H; [lra | lra].
  - assert (H : (0 < - x)%Q) by lra.
    apply (round_pos_nonneg prec emin) in H.
    apply (round_pos_nonneg prec emin) in E2. lra.
  - now apply round_pos_mono.
Qed.

End Monotone.






Section Idempotent.

Variables prec emin : Z.

Hypothesis Hprec : 0 < prec.




End Idempotent.



(** Rounding to a 32-bit float does not cross an integer up to 2^24 in
    magnitude. *)
Lemma float32_bounds (x : Q) (a : Z) :
  Z.abs a <= 2 ^ 24 ->
  ((inject_Z a <= x -> inject_Z a <= float32 x)
   /\ (x <= inject_Z a -> float32 x <= inject_Z a))%Q.
Proof. intros H. apply round_float_bounds; lia. Qed.

Lemma float32_mono (x y : Q) : (x <= y)%Q -> (float32 x <= float32 y)%Q.
Proof. apply round_float_mono. lia. Qed.


End FloatFacts.

(** ** Indexing and non-maximum suppression *)

Section IndexSelect.

Context {A : Type}.

Lemma index_select_in_range (l : list A) (indices : list nat) (d : A) :
    Forall (fun i => (i < length l)%nat) indices ->
    index_select l indices = Ok (map (fun i => nth i l d) indices).
  Proof.
    induction 1 as [|i rest Hi _ IH]; simpl; [reflexivity|].
    destruct (nth_error l i) as [x|] eqn:E.
    - rewrite IH. simpl. f_equal. f_equal.
      symmetry. now apply nth_error_nth.
    - apply nth_error_None in E. lia.
  Qed.

Lemma index_select_length (l : list A) (indices : list nat) (r : list A) :
    index_select l indices = Ok r -> length r = length indices.
  Proof.
    revert r. induction indices as [|i rest IH]; simpl; intros r H.
    - now inversion H.
    - destruct (nth_error l i) as [x|]; [|discriminate].
      destruct (index_select l rest) as [xs|e]; simpl in H; [|discriminate].
      inversion H. simpl. f_equal. now apply IH.
  Qed.

Lemma index_select_In (l : list A) (indices : list nat) (r : list A) (x : A) :
    index_select l indices = Ok r -> In x r -> In x l.
  Proof.
    revert r. induction indices as [|i rest IH]; simpl; intros r H Hx.
    - inversion H; subst. contradiction.
    - destruct (nth_error l i) as [y|] eqn:E; [|discriminate].
      destruct (index_select l rest) as [xs|e]; simpl in H; [|discriminate].
      inversion H; subst. destruct Hx as [->|Hx].
      + eapply nth_error_In; eauto.
      + eapply IH; eauto.
  Qed.

  (** Selecting the positions of a mask keeps the masked elements. *)
Lemma index_select_mask_shift (pre xs : list A) (mask : list bool) :
    length xs = length mask ->
    index_select (pre ++ xs)
      (map fst (filter snd (combine (seq (length pre) (length mask)) mask)))
    = Ok (map fst (filter snd (combine xs mask))).
  Proof.
    revert pre mask. induction xs as [|x xs IH]; intros pre [|b mask] Hlen;
      simpl in Hlen; try discriminate; [reflexivity|].
    injection Hlen as Hlen.
    assert (Hnext :
      index_select (pre ++ x :: xs)
        (map fst (filter snd (combine (seq (S (length pre)) (length mask)) mask)))
      = Ok (map fst (filter snd (combine xs mask)))).
    { specialize (IH (pre ++ [x]) mask Hlen).
      rewrite <- app_assoc in IH. simpl in IH.
      rewrite length_app in IH. simpl in IH.
      now rewrite Nat.add_1_r in IH. }
    simpl. destruct b; simpl.
    - rewrite nth_error_app2 by lia. rewrite Nat.sub_diag. simpl.
      now rewrite Hnext.
    - exact Hnext.
  Qed.

Lemma index_select_nonzero (xs : list A) (mask : list bool) :
    length xs = length mask ->
    index_select xs (nonzero mask)
    = Ok (map fst (filter snd (combine xs mask))).
  Proof. intros H. exact (index_select_mask_shift [] xs mask H). Qed.

End IndexSelect.

Lemma filter_combine_map {A B : Type} (f : A -> B) (p : A -> bool)
    (l : list A) :
  map fst (filter snd (combine (map f l) (map p l))) = map f (filter p l).
Proof.
  induction l as [|a l IH]; simpl; [reflexivity|].
  destruct (p a); simpl; now rewrite IH.
Qed.

Module NmsFacts.

Import torchvision_ops.

Lemma insert_desc_perm (c : cand) (l : list cand) :
  Permutation (insert_desc c l) (c :: l).
Proof.
  induction l as [|d l IH]; simpl; [reflexivity|].
  destruct (Qlt_bool (snd (snd c)) (snd (snd d))).
  - rewrite IH. apply perm_swap.
  - reflexivity.
Qed.

Lemma sort_desc_perm (l : list cand) : Permutation (sort_desc l) l.
Proof.
  induction l as [|c l IH]; simpl; [reflexivity|].
  rewrite insert_desc_perm. now constructor.
Qed.

Lemma keep_step_cases (thr : Q) (kept : list cand) (c : cand) :
  keep_step thr kept c = kept \/ keep_step thr kept c = kept ++ [c].
Proof.
  unfold keep_step.
  match goal with
  | |- context [existsb ?f kept] => destruct (existsb f kept)
  end; auto.
Qed.

(** The greedy pass keeps candidates of the visited list, each once. *)
Lemma keep_loop_incl (thr : Q) (order kept : list cand) :
  incl (fold_left (keep_step thr) order kept) (kept ++ order).
Proof.
  revert kept. induction order as [|c order IH]; intros kept; simpl.
  - rewrite app_nil_r. apply incl_refl.
  - destruct (keep_step_cases thr kept c) as [-> | ->].
    + intros x Hx. apply IH in Hx. apply in_app_or in Hx.
      apply in_or_app. destruct Hx; [now left | right; now right].
    + intros x Hx. apply IH in Hx. now rewrite <- app_assoc in Hx.
  Qed.

Lemma keep_loop_NoDup (thr : Q) (order kept : list cand) :
  NoDup (map fst (kept ++ order)) ->
  NoDup (map fst (fold_left (keep_step thr) order kept)).
Proof.
  revert kept. induction order as [|c order IH]; intros kept H; simpl.
  - now rewrite app_nil_r in H.
  - destruct (keep_step_cases thr kept c) as [-> | ->].
    + apply IH. rewrite map_app in *. simpl in H.
      now apply NoDup_remove_1 in H.
    + apply IH. now rewrite <- app_assoc.
Qed.

Lemma map_fst_combine_seq {B : Type} (l : list B) (s : nat) :
  map fst (combine (seq s (length l)) l) = seq s (length l).
Proof.
  revert s. induction l as [|b l IH]; intros s; simpl; [reflexivity|].
  now rewrite IH.
Qed.

(** [nms] returns distinct positions of its input. *)
Lemma nms_indices (bs : list Box) (ss : list Q) (thr : Q) :
  length ss = length bs ->
  exists kept,
    nms bs ss thr = Ok kept
    /\ NoDup kept
    /\ Forall (fun i => (i < length bs)%nat) kept.
Proof.
  intros Hlen. unfold nms. rewrite Hlen, Nat.eqb_refl.
  eexists. split; [reflexivity|].
  set (cands := combine (seq 0 (length bs)) (combine bs ss)).
  assert (Hc : map fst cands = seq 0 (length bs)).
  { unfold cands.
    replace (length bs) with (length (combine bs ss)) at 1
      by (rewrite length_combine; lia).
    rewrite map_fst_combine_seq. rewrite length_combine. f_equal. lia. }
  assert (Hp : Permutation (map fst (sort_desc cands)) (seq 0 (length bs))).
  { rewrite <- Hc. apply Permutation_map, sort_desc_perm. }
  split.
  - apply keep_loop_NoDup. simpl.
    eapply Permutation_NoDup; [symmetry; exact Hp | apply seq_NoDup].
  - apply Forall_forall. intros i Hi.
    apply in_map_iff in Hi. destruct Hi as (c & <- & Hin).
    apply keep_loop_incl in Hin. simpl in Hin.
    assert (Hs : In (fst c) (seq 0 (length bs))).
    { eapply Permutation_in; [exact Hp|]. now apply in_map. }
    apply in_seq in Hs. lia.
Qed.

End NmsFacts.

(** ** Translation and concatenation of the detections (C6) *)

Module PatchMapsFacts.

Import ImageToPatches FasterRCNNStitcher.

Lemma combine_app {A B : Type} (a a' : list A) (b b' : list B) :
  length a = length b ->
  combine (a ++ a') (b ++ b') = combine a b ++ combine a' b'.
Proof.
  revert b. induction a as [|x a IH]; intros [|y b] H; simpl in *;
    try discriminate; [reflexivity|].
  f_equal. apply IH. lia.
Qed.


Lemma box_loop (limit : BoundingBox) (bs acc : list Box) :
  fold_left (fun bs box => bs ++ [new_box limit box]) bs acc
  = acc ++ map (new_box limit) bs.
Proof.
  revert acc. induction bs as [|b bs IH]; intros acc; simpl.
  - now rewrite app_nil_r.
  - rewrite IH, <- app_assoc. reflexivity.
Qed.

Lemma patch_maps_loop (ps : list (DetMap * BoundingBox)) (acc : DetMap) :
  fold_left patch_maps_step ps acc =
  {| boxes := boxes acc
              ++ flat_map (fun p => map (new_box (snd p)) (boxes (fst p))) ps;
     labels := labels acc ++ flat_map (fun p => labels (fst p)) ps;
     scores := scores acc ++ flat_map (fun p => scores (fst p)) ps |}.
Proof.
  revert acc. induction ps as [|[m l] ps IH]; intros acc; simpl.
  - rewrite !app_nil_r. now destruct acc.
  - rewrite IH. simpl. rewrite box_loop, <- !app_assoc. reflexivity.
Qed.

Lemma patch_maps_fields (limits : list BoundingBox) (maps : list DetMap) :
  boxes (_patch_maps limits maps)
  = torch_Tensor_boxes
      (flat_map (fun p => map (new_box (snd p)) (boxes (fst p)))
         (combine maps limits))
  /\ labels (_patch_maps limits maps)
     = torch_Tensor_int
         (flat_map (fun p => labels (fst p)) (combine maps limits))
  /\ scores (_patch_maps limits maps)
     = torch_Tensor
         (flat_map (fun p => scores (fst p)) (combine maps limits)).
Proof. unfold _patch_maps. cbv zeta. rewrite patch_maps_loop. simpl. auto. Qed.

Lemma Forall_combine_fst {A B : Type} (P : A -> Prop) (a : list A)
    (b : list B) :
  Forall P a -> Forall (fun p => P (fst p)) (combine a b).
Proof.
  intros H. revert b. induction H as [|x a Hx _ IH]; intros [|y b]; simpl;
    constructor; auto.
Qed.

(** The lists that the loop of [_patch_maps] builds hold one label and
    one score per box. *)
Lemma patch_lists_aligned (limits : list BoundingBox) (maps : list DetMap) :
  Forall well_formed maps ->
  let ps := combine maps limits in
  length (flat_map (fun p => labels (fst p)) ps)
  = length (flat_map (fun p => map (new_box (snd p)) (boxes (fst p))) ps)
  /\ length (flat_map (fun p => scores (fst p)) ps)
     = length (flat_map (fun p => map (new_box (snd p)) (boxes (fst p))) ps).
Proof.
  intros H. cbv zeta.
  apply (Forall_combine_fst _ _ limits) in H.
  induction H as [|p ps [Hl Hs] _ [IHl IHs]]; simpl; [auto|].
  rewrite !length_app, length_map, IHl, IHs, Hl, Hs. auto.
Qed.

Lemma patch_maps_well_formed (limits : list BoundingBox) (maps : list DetMap) :
  Forall well_formed maps -> well_formed (_patch_maps limits maps).
Proof.
  intros H. unfold well_formed.
  destruct (patch_maps_fields limits maps) as (-> & -> & ->).
  destruct (patch_lists_aligned limits maps H) as [Hl Hs].
  unfold torch_Tensor_boxes, torch_Tensor_int, torch_Tensor.
  rewrite !length_map. auto.
Qed.

Lemma patch_maps_count (limits : list BoundingBox) (maps : list DetMap) :
  (length (boxes (_patch_maps limits maps)) <= input_count maps)%nat.
Proof.
  destruct (patch_maps_fields limits maps) as (-> & _).
  unfold torch_Tensor_boxes. rewrite length_map.
  revert limits. induction maps as [|m maps IH]; intros [|l limits]; simpl;
    try lia.
  rewrite length_app, length_map. specialize (IH limits). lia.
Qed.







End PatchMapsFacts.

(** ** Suppression and thresholding (C7, C8, C9) *)

Module ReduceFacts.

Import ImageToPatches FasterRCNNStitcher.

(** The positions that [_reduce] keeps: the ones kept by [nms] whose score
    exceeds the threshold. *)
Lemma reduce_well_formed (self : t) (m : DetMap) :
  well_formed m ->
  exists kept r,
    torchvision_ops.nms (boxes m) (scores m) (nms_threshold self) = Ok kept
    /\ NoDup kept
    /\ Forall (fun i => (i < length (boxes m))%nat) kept
    /\ _reduce self m = Ok r
    /\ let final :=
         filter (fun i => Qlt_bool (float32 (score_threshold self))
                            (nth i (scores m) 0%Q)) kept in
       index_select (boxes m) final = Ok (boxes r)
       /\ index_select (labels m) final = Ok (labels r)
       /\ index_select (scores m) final = Ok (scores r).
Proof.
  intros [Hl Hs].
  destruct (NmsFacts.nms_indices (boxes m) (scores m) (nms_threshold self) Hs)
    as (kept & Hnms & Hnd & Hrange).
  exists kept.
  destruct m as [bs ls ss]; simpl in *.
  destruct bs as [|b0 bs'].
  - destruct ls; [|discriminate]. destruct ss; [|discriminate].
    eexists. repeat split; eauto.
    + inversion Hnms; subst. reflexivity.
    + inversion Hnms; subst. reflexivity.
    + inversion Hnms; subst. reflexivity.
  - set (bs := b0 :: bs') in *.
    set (p := fun i => Qlt_bool (float32 (score_threshold self))
                         (nth i ss 0%Q)).
    assert (Hfin : Forall (fun i => (i < length bs)%nat) (filter p kept)).
    { apply Forall_forall. intros i Hi. apply filter_In in Hi.
      rewrite Forall_forall in Hrange. now apply Hrange. }
    assert (Hrl : Forall (fun i => (i < length ls)%nat) kept)
      by now rewrite Hl.
    assert (Hrs : Forall (fun i => (i < length ss)%nat) kept)
      by now rewrite Hs.
    assert (Hfl : Forall (fun i => (i < length ls)%nat) (filter p kept))
      by now rewrite Hl.
    assert (Hfs : Forall (fun i => (i < length ss)%nat) (filter p kept))
      by now rewrite Hs.
    exists {| boxes := map (fun i => nth i bs b0) (filter p kept);
              labels := map (fun i => nth i ls 0) (filter p kept);
              scores := map (fun i => nth i ss 0%Q) (filter p kept) |}.
    repeat split; auto; cbn [boxes labels scores].
    + unfold _reduce. cbn [boxes labels scores]. subst bs.
      rewrite Hnms. cbn [bind].
      rewrite (index_select_in_range _ _ b0 Hrange).
      rewrite (index_select_in_range _ _ 0 Hrl).
      rewrite (index_select_in_range _ _ 0%Q Hrs).
      cbn [bind].
      rewrite map_map. fold p.
      rewrite !index_select_nonzero by (now rewrite !length_map).
      cbn [bind]. rewrite !filter_combine_map. reflexivity.
    + apply index_select_in_range; assumption.
    + apply index_select_in_range; assumption.
    + apply index_select_in_range; assumption.
Qed.

(** C7, counterexample: one detection of score 1/2 and a threshold of
    1/2 - 2^-30, which is 1/2 as a 32-bit float: the detection survives
    the suppression and its score is above the threshold, but it is not
    returned. *)
Lemma reduce_drops_score_above_threshold :
  ~ retained_above_threshold
      {| base := {| Stitcher.model := fun _ => [];
                    Stitcher.size := (256, 256);
                    Stitcher.overlap := 64;
                    Stitcher.batch_size := 1;
                    Stitcher.down_ratio := 1;
                    Stitcher.up := false;
                    Stitcher.reduction := "sum";
                    Stitcher.device := "cpu" |};
         nms_threshold := 1 # 2;
         score_threshold := (1 # 2) - (1 # 1073741824) |}
      {| boxes := [ {| x1 := 0; y1 := 0; x2 := 10; y2 := 10 |} ];
         labels := [1]; scores := [1 # 2] |}.
Proof.
  intros (kept & r & Hnms & Hred & H).
  vm_compute in Hnms. injection Hnms as <-.
  vm_compute in Hred. injection Hred as <-.
  specialize (H 0%nat (or_introl eq_refl)).
  cbn [scores nth In] in H. apply H.
  unfold Qlt. simpl. lia.
Qed.

(** C7, amended: of the detections that survive the suppression,
    [_reduce] returns those whose score is strictly above the 32-bit
    float nearest to [score_threshold], and only those.  A score that is
    a 32-bit float and at most [score_threshold], in particular one equal
    to it, is dropped; and when [score_threshold] is itself a 32-bit
    float, the detections returned are exactly the surviving ones whose
    score is strictly above it. *)
Theorem reduce_score_threshold (self : t) (m : DetMap)
    (Hwf : well_formed m) :
  exists kept r,
    torchvision_ops.nms (boxes m) (scores m) (nms_threshold self) = Ok kept
    /\ _reduce self m = Ok r
    /\ exists final,
         index_select (boxes m) final = Ok (boxes r)
         /\ index_select (labels m) final = Ok (labels r)
         /\ index_select (scores m) final = Ok (scores r)
         /\ (forall i, In i final <->
               In i kept
               /\ (float32 (score_threshold self) < nth i (scores m) 0)%Q)
         /\ (forall i, In i kept ->
               is_float32 (nth i (scores m) 0%Q) ->
               (nth i (scores m) 0 <= score_threshold self)%Q ->
               ~ In i final)
         /\ (is_float32 (score_threshold self) ->
             forall i, In i final <->
               In i kept /\ (score_threshold self < nth i (scores m) 0)%Q)
         /\ Forall (fun s => (float32 (score_threshold self) < s)%Q)
              (scores r).
Proof.
  destruct (reduce_well_formed self m Hwf)
    as (kept & r & Hnms & _ & Hrange & Hred & Hb & Hl & Hs).
  exists kept, r. split; [exact Hnms|]. split; [exact Hred|].
  eexists. split; [exact Hb|]. split; [exact Hl|]. split; [exact Hs|].
  assert (Hin : forall i,
    In i (filter (fun i => Qlt_bool (float32 (score_threshold self))
                             (nth i (scores m) 0%Q)) kept) <->
    In i kept /\ (float32 (score_threshold self) < nth i (scores m) 0)%Q).
  { intros i. rewrite filter_In, Qlt_bool_iff. reflexivity. }
  split; [exact Hin|]. split; [|split].
  - intros i _ Hf Hle Hi. apply Hin in Hi. destruct Hi as [_ Hlt].
    apply FloatFacts.float32_mono in Hle. unfold is_float32 in Hf.
    rewrite Hf in Hle. exact (Qlt_not_le _ _ Hlt Hle).
  - intros Hthr i. rewrite Hin. unfold is_float32 in Hthr.
    now rewrite Hthr.
  - destruct Hwf as [_ Hlen].
    rewrite (index_select_in_range _ _ 0%Q) in Hs.
    + inversion Hs as [Heq]. apply Forall_forall. intros s Hin'.
      apply in_map_iff in Hin'. destruct Hin' as (i & <- & Hi).
      now apply Hin in Hi.
    + apply Forall_forall. intros i Hi. apply filter_In in Hi.
      rewrite Forall_forall in Hrange. rewrite Hlen. now apply Hrange.
Qed.

(** A score equal to the threshold is dropped, a greater one is kept. *)
Lemma reduce_score_threshold_example :
  let self := {| base := {| Stitcher.model := fun _ => [];
                            Stitcher.size := (256, 256);
                            Stitcher.overlap := 64;
                            Stitcher.batch_size := 1;
                            Stitcher.down_ratio := 1;
                            Stitcher.up := false;
                            Stitcher.reduction := "sum";
                            Stitcher.device := "cpu" |};
                 nms_threshold := 1 # 2;
                 score_threshold := 1 # 2 |} in
  let m := {| boxes := [ {| x1 := 0; y1 := 0; x2 := 10; y2 := 10 |};
                         {| x1 := 50; y1 := 50; x2 := 60; y2 := 60 |} ];
              labels := [1; 2];
              scores := [1 # 2; 5 # 8] |} in
  well_formed m
  /\ is_float32 (score_threshold self)
  /\ _reduce self m
     = Ok {| boxes := [ {| x1 := 50; y1 := 50; x2 := 60; y2 := 60 |} ];
             labels := [2]; scores := [5 # 8] |}
  /\ exists kept r,
       torchvision_ops.nms (boxes m) (scores m) (nms_threshold self) = Ok kept
       /\ _reduce self m = Ok r
       /\ Forall (fun s => (score_threshold self < s)%Q) (scores r).
Proof.
  intros self m.
  assert (Hwf : well_formed m) by (split; reflexivity).
  assert (Hthr : is_float32 (score_threshold self)) by reflexivity.
  split; [exact Hwf|]. split; [exact Hthr|]. split; [reflexivity|].
  destruct (reduce_score_threshold self m Hwf)
    as (kept & r & Hnms & Hred & final & _ & _ & _ & _ & _ & _ & Hall).
  exists kept, r. split; [exact Hnms|]. split; [exact Hred|].
  eapply Forall_impl; [|exact Hall].
  intros s Hs. cbv beta in Hs. unfold is_float32 in Hthr.
  now rewrite Hthr in Hs.
Defined.

(** C9: a detection set without boxes is returned as it is. *)
Theorem reduce_empty (self : t) (m : DetMap) (Hempty : boxes m = []) :
  _reduce self m = Ok m.
Proof. unfold _reduce. now rewrite Hempty. Qed.

(** When no patch reports a box, the stitched set is empty and is
    returned unchanged. *)
Lemma reduce_empty_example :
  let self := {| base := {| Stitcher.model := fun _ => [];
                            Stitcher.size := (256, 256);
                            Stitcher.overlap := 64;
                            Stitcher.batch_size := 1;
                            Stitcher.down_ratio := 1;
                            Stitcher.up := false;
                            Stitcher.reduction := "sum";
                            Stitcher.device := "cpu" |};
                 nms_threshold := 1 # 2;
                 score_threshold := 0 |} in
  let limits := [ {| x_min := 0; y_min := 0; x_max := 256; y_max := 256 |};
                  {| x_min := 192; y_min := 0; x_max := 448; y_max := 256 |} ] in
  let none := {| boxes := []; labels := []; scores := [] |} in
  boxes (_patch_maps limits [none; none]) = []
  /\ _reduce self (_patch_maps limits [none; none])
     = Ok (_patch_maps limits [none; none]).
Proof.
  intros self limits none.
  split; [reflexivity|]. apply reduce_empty. reflexivity.
Defined.

End ReduceFacts.

(** ** Count and extent of the stitched detections (C8) *)

Module ExtentFacts.

Import ImageToPatches FasterRCNNStitcher.

Lemma new_box_within (l : BoundingBox) (b : Box) :
  box_local b l -> box_within (new_box l b) l.
Proof.
  unfold box_local, box_within, new_box. simpl.
  unfold Z.sub. rewrite !inject_Z_plus, !inject_Z_opp.
  intros H. decompose [and] H. repeat split; lra.
Qed.

(** C8, counterexample: a model that reports the local box
    [250,250,300,300] in the only patch, which is 256 wide and high; the
    box is stitched as it is and reaches beyond the patch. *)
Lemma stitched_box_leaves_patch :
  ~ stitched_within_patches
      {| base := {| Stitcher.model := fun _ => [];
                    Stitcher.size := (256, 256);
                    Stitcher.overlap := 64;
                    Stitcher.batch_size := 1;
                    Stitcher.down_ratio := 1;
                    Stitcher.up := false;
                    Stitcher.reduction := "sum";
                    Stitcher.device := "cpu" |};
         nms_threshold := 1 # 2;
         score_threshold := 0 |}
      [ {| x_min := 0; y_min := 0; x_max := 256; y_max := 256 |} ]
      [ {| boxes := [ {| x1 := 250; y1 := 250; x2 := 300; y2 := 300 |} ];
           labels := [1]; scores := [9 # 10] |} ].
Proof.
  intros (r & Hr & _ & Hall).
  vm_compute in Hr. inversion Hr; subst r; clear Hr.
  simpl in Hall. inversion Hall as [|b bs Hex _]; subst.
  inversion Hex as [l ls Hw | l ls Hw]; subst.
  - unfold box_within in Hw. simpl in Hw.
    destruct Hw as (_ & _ & _ & Hx2 & _).
    revert Hx2. unfold Qle. simpl. lia.
  - inversion Hw.
Qed.

(** A box within its patch is within the box of the patch after it is
    moved and stored as 32-bit floats. *)
Lemma stored_box_within (l : BoundingBox) (b : Box) :
  limit_in_float32 l -> box_local b l ->
  box_within
    {| x1 := float32 (x1 (new_box l b)); y1 := float32 (y1 (new_box l b));
       x2 := float32 (x2 (new_box l b)); y2 := float32 (y2 (new_box l b)) |}
    l.
Proof.
  intros (Hx & Hy & HX & HY) Hloc.
  apply new_box_within in Hloc.
  unfold box_within in *. cbn [x1 y1 x2 y2].
  destruct Hloc as (H1 & H2 & H3 & H4 & H5 & H6 & H7 & H8).
  repeat split;
    first [ now apply (FloatFacts.float32_bounds _ _ Hx)
          | now apply (FloatFacts.float32_bounds _ _ HX)
          | now apply (FloatFacts.float32_bounds _ _ Hy)
          | now apply (FloatFacts.float32_bounds _ _ HY) ].
Qed.

(** [_reduce] returns no more boxes than it is given, whatever it is
    given. *)
Lemma reduce_count (self : t) (m r : DetMap) :
  _reduce self m = Ok r -> (length (boxes r) <= length (boxes m))%nat.
Proof.
  unfold _reduce. destruct (boxes m) as [|b0 bs'] eqn:Eb.
  - intros H. inversion H; subst. rewrite Eb. apply Nat.le_refl.
  - intros H.
    apply bind_inv_Ok in H. destruct H as (idx & Hnms & H).
    apply bind_inv_Ok in H. destruct H as (b & Hb & H).
    apply bind_inv_Ok in H. destruct H as (l & Hl & H).
    apply bind_inv_Ok in H. destruct H as (s & Hs & H).
    apply bind_inv_Ok in H. destruct H as (b' & Hb' & H).
    apply bind_inv_Ok in H. destruct H as (l' & Hl' & H).
    apply bind_inv_Ok in H. destruct H as (s' & Hs' & H).
    inversion H; subst r; clear H. cbn [boxes].
    assert (Hlen : length (scores m) = length (b0 :: bs')).
    { unfold torchvision_ops.nms in Hnms.
      destruct (Nat.eqb (length (b0 :: bs')) (length (scores m))) eqn:E;
        [|discriminate].
      apply Nat.eqb_eq in E. now symmetry. }
    destruct (NmsFacts.nms_indices (b0 :: bs') (scores m)
                (nms_threshold self) Hlen) as (kept & Hk & Hnd & Hrange).
    rewrite Hk in Hnms. inversion Hnms; subst idx; clear Hnms.
    rewrite (index_select_length _ _ _ Hb').
    transitivity (length kept).
    + unfold nonzero. rewrite length_map.
      etransitivity; [apply filter_length_le|].
      rewrite length_combine, length_seq, length_map.
      rewrite (index_select_length _ _ _ Hs). lia.
    + rewrite <- (length_seq (length (b0 :: bs')) 0%nat).
      apply NoDup_incl_length; [exact Hnd|].
      intros i Hi. rewrite Forall_forall in Hrange.
      apply in_seq. specialize (Hrange i Hi). lia.
Qed.

(** C8, amended: whenever the stitcher returns, it returns no more
    detections than the patches reported; it returns when the patches
    report as many labels and scores as boxes; and when, besides, every
    box that a patch reports lies within the extent of that patch, and
    the coordinates of the patches are at most 2^24 in magnitude, every
    stitched box lies within the box of some patch. *)
Theorem stitched_count_and_extent (self : t) (limits : list BoundingBox)
    (maps : list DetMap) :
  (forall r,
     _reduce self (_patch_maps limits maps) = Ok r ->
     (length (boxes r) <= length (boxes (_patch_maps limits maps)))%nat
     /\ (length (boxes r) <= input_count maps)%nat)
  /\ (Forall well_formed maps ->
      exists r,
        _reduce self (_patch_maps limits maps) = Ok r
        /\ (Forall limit_in_float32 limits ->
            Forall (fun p => Forall (fun b => box_local b (snd p))
                               (boxes (fst p)))
              (combine maps limits) ->
            Forall (fun b => Exists (box_within b) limits) (boxes r))).
Proof.
  split.
  - intros r Hr. apply reduce_count in Hr. split; [exact Hr|].
    etransitivity; [exact Hr | apply PatchMapsFacts.patch_maps_count].
  - intros Hwf.
    pose proof (PatchMapsFacts.patch_maps_well_formed limits maps Hwf) as Hm.
    destruct (ReduceFacts.reduce_well_formed self _ Hm)
      as (kept & r & _ & _ & _ & Hred & Hb & _ & _).
    exists r. split; [exact Hred|].
    intros Hlim Hlocal.
    apply Forall_forall. intros b Hbr.
    apply (index_select_In _ _ _ _ Hb) in Hbr.
    destruct (PatchMapsFacts.patch_maps_fields limits maps) as (Hf & _).
    rewrite Hf in Hbr. unfold torch_Tensor_boxes in Hbr.
    apply in_map_iff in Hbr. destruct Hbr as (b1 & <- & Hbr).
    apply in_flat_map in Hbr.
    destruct Hbr as ([m l] & Hp & Hin). cbn [fst snd] in Hin.
    apply in_map_iff in Hin. destruct Hin as (b0 & <- & Hb0).
    rewrite Forall_forall in Hlocal. specialize (Hlocal _ Hp).
    cbn [fst snd] in Hlocal. rewrite Forall_forall in Hlocal.
    assert (Hl : In l limits) by (eapply in_combine_r; eauto).
    rewrite Forall_forall in Hlim.
    apply Exists_exists. exists l. split; [exact Hl|].
    apply stored_box_within; [now apply Hlim | now apply Hlocal].
Qed.

(** Two patches that overlap report the same object; one detection is
    returned, within the patches. *)
Lemma stitched_count_and_extent_example :
  let self := {| base := {| Stitcher.model := fun _ => [];
                            Stitcher.size := (256, 256);
                            Stitcher.overlap := 64;
                            Stitcher.batch_size := 1;
                            Stitcher.down_ratio := 1;
                            Stitcher.up := false;
                            Stitcher.reduction := "sum";
                            Stitcher.device := "cpu" |};
                 nms_threshold := 1 # 2;
                 score_threshold := 0 |} in
  let limits := [ {| x_min := 0; y_min := 0; x_max := 256; y_max := 256 |};
                  {| x_min := 192; y_min := 0; x_max := 448; y_max := 256 |} ] in
  let maps := [ {| boxes := [ {| x1 := 200; y1 := 10; x2 := 240; y2 := 50 |} ];
                   labels := [1]; scores := [7 # 8] |};
                {| boxes := [ {| x1 := 8; y1 := 10; x2 := 50; y2 := 50 |} ];
                   labels := [1]; scores := [3 # 4] |} ] in
  _reduce self (_patch_maps limits maps)
  = Ok {| boxes := [ {| x1 := 200; y1 := 10; x2 := 240; y2 := 50 |} ];
          labels := [1]; scores := [7 # 8] |}
  /\ (forall r,
        _reduce self (_patch_maps limits maps) = Ok r ->
        (length (boxes r) <= length (boxes (_patch_maps limits maps)))%nat
        /\ (length (boxes r) <= input_count maps)%nat)
  /\ exists r,
       _reduce self (_patch_maps limits maps) = Ok r
       /\ Forall (fun b => Exists (box_within b) limits) (boxes r).
Proof.
  intros self limits maps.
  split; [reflexivity|].
  destruct (stitched_count_and_extent self limits maps) as [Hcount Hext].
  split; [exact Hcount|].
  destruct Hext as (r & Hr & Hin).
  - repeat constructor.
  - exists r. split; [exact Hr|]. apply Hin.
    + repeat constructor; cbn; lia.
    + repeat constructor; simpl; unfold Qle; simpl; lia.
Defined.

End ExtentFacts.

(** ** Batched inference (C5) *)

Module InferenceFacts.

Lemma Zrange_S (n : Z) : 0 < n -> Zrange n = 0 :: map Z.succ (Zrange (n - 1)).
Proof.
  intros H. unfold Zrange.
  replace (Z.to_nat n) with (S (Z.to_nat (n - 1))) by lia.
  simpl. f_equal. rewrite <- seq_shift, !map_map.
  apply map_ext. intros a. lia.
Qed.

Lemma Zrange_length (n : Z) : 0 <= n -> Z.of_nat (length (Zrange n)) = n.
Proof. intros H. unfold Zrange. rewrite length_map, length_seq. lia. Qed.

Lemma In_Zrange (n i : Z) : In i (Zrange n) <-> 0 <= i < n.
Proof.
  unfold Zrange. rewrite in_map_iff. split.
  - intros (k & <- & Hk). apply in_seq in Hk. lia.
  - intros H. exists (Z.to_nat i). split; [lia|]. apply in_seq. lia.
Qed.

(** The single row of [t.unsqueeze(0)] is [t]. *)
Lemma tensor_iter_unsqueeze0 (t : Tensor) : tensor_iter (unsqueeze0 t) = Ok [t].
Proof. destruct t as [sh d]. reflexivity. Qed.

(** In dense mode the model is called once per batch, in order, and the
    list holds the output of every batch. *)
Lemma dense_inference_loop (model : Tensor -> Tensor)
    (batches maps : list Tensor) :
  Stitcher.inference_loop model batches maps = Ok (maps ++ map model batches).
Proof.
  revert maps.
  induction batches as [|b rest IH]; intros maps;
    cbn [Stitcher.inference_loop map].
  - now rewrite app_nil_r.
  - rewrite tensor_iter_unsqueeze0. cbn [bind].
    rewrite IH, <- app_assoc. reflexivity.
Qed.

Lemma dense_inference (self : Stitcher.t (Tensor -> Tensor))
    (patches : Tensor) (batches : list Tensor) :
  DataLoader patches (Stitcher.batch_size self) = Ok batches ->
  Stitcher._inference self patches = Ok (map (Stitcher.model self) batches).
Proof.
  intros H. unfold Stitcher._inference. rewrite H. cbn [bind].
  apply dense_inference_loop.
Qed.

(** In detection mode a batch of one patch adds its detection set. *)
Lemma detection_inference_loop_single (model : Tensor -> list DetMap)
    (batches : list Tensor) (maps : list DetMap) (d : DetMap) :
  Forall (fun b => length (model b) = 1%nat) batches ->
  FasterRCNNStitcher.inference_loop model batches maps
  = Ok (maps ++ map (fun b => hd d (model b)) batches).
Proof.
  intros H. revert maps.
  induction H as [|b rest Hb _ IH]; intros maps; simpl.
  - now rewrite app_nil_r.
  - destruct (model b) as [|o [|o' os]]; try discriminate.
    cbn [FasterRCNNStitcher.append_star bind].
    rewrite IH, <- app_assoc. reflexivity.
Qed.

(** A batch of two or more patches makes the detection loop raise. *)
Lemma detection_inference_loop_raises (model : Tensor -> list DetMap)
    (b : Tensor) (rest : list Tensor) (maps : list DetMap) :
  (2 <= length (model b))%nat ->
  FasterRCNNStitcher.inference_loop model (b :: rest) maps = Raise TypeError.
Proof.
  intros H. simpl.
  destruct (model b) as [|o [|o' os]]; simpl in H; try lia. reflexivity.
Qed.

(** C5, failing input: the detection stitcher with batch size 2 on two
    patches, with a model that returns one detection set per patch of the
    batch.  [_inference] raises a type error where one output per patch is
    expected; with batch size 1 the same patches give their two outputs,
    and the dense stitcher accepts the batch of two. *)
Theorem detection_inference_batch_of_two :
  let det_model := fun b : Tensor =>
    map (fun _ => {| boxes := []; labels := []; scores := [] |})
        (Zrange (hd 0 (shape b))) in
  let self := fun bs =>
    {| FasterRCNNStitcher.base :=
         {| Stitcher.model := det_model;
            Stitcher.size := (4, 4);
            Stitcher.overlap := 1;
            Stitcher.batch_size := bs;
            Stitcher.down_ratio := 1;
            Stitcher.up := false;
            Stitcher.reduction := "sum";
            Stitcher.device := "cpu" |};
       FasterRCNNStitcher.nms_threshold := 1 # 2;
       FasterRCNNStitcher.score_threshold := 0 |} in
  let patches := const_tensor 1 [2; 3; 4; 4] in
  FasterRCNNStitcher._inference (self 2) patches = Raise TypeError
  /\ FasterRCNNStitcher._inference (self 1) patches
     = Ok [ {| boxes := []; labels := []; scores := [] |};
            {| boxes := []; labels := []; scores := [] |} ].
Proof. split; reflexivity. Qed.

End InferenceFacts.

(** ** The normalisation step and the number of channels (C1, C10) *)

Module ChannelFacts.

Import Stitcher.

Lemma torch_full_Ok (v : Q) (sh : list Z) (t : Tensor) :
  torch_full v sh = Ok t -> t = const_tensor v sh.
Proof.
  unfold torch_full. destruct (forallb _ sh); intros H; inversion H.
  reflexivity.
Qed.

Lemma make_patches_shape (self : ImageToPatches.t) (p : Tensor) (g : Z * Z) :
  ImageToPatches.make_patches self = Ok (p, g) ->
  exists c h w,
    shape (ImageToPatches.image self) = [c; h; w]
    /\ shape p = [fst g * snd g; c; fst (ImageToPatches.size self);
                  snd (ImageToPatches.size self)].
Proof.
  unfold ImageToPatches.make_patches.
  destruct (shape (ImageToPatches.image self)) as [|c [|h [|w [|x s]]]];
    try discriminate.
  destruct (ImageToPatches.size self) as [ph pw].
  destruct ((ph - ImageToPatches.overlap self <=? 0)
            || (pw - ImageToPatches.overlap self <=? 0)); [discriminate|].
  intros H. inversion H; subst. exists c, h, w. split; reflexivity.
Qed.

Lemma select_Ok (t : Tensor) (dim : nat) (i : Z) (r : Tensor) :
  select t dim i = Ok r ->
  exists n, nth_error (shape t) dim = Some n /\ - n <= i < n.
Proof.
  unfold select. destruct (nth_error (shape t) dim) as [n|]; [|discriminate].
  destruct ((- n <=? i) && (i <? n)) eqn:E; [|discriminate].
  intros _. exists n. split; [reflexivity|].
  apply andb_true_iff in E. destruct E as [E1 E2].
  apply Z.leb_le in E1. apply Z.ltb_lt in E2. lia.
Qed.

(** [_reduce] returns only when the image has a channel of index 1: in
    every reduction mode it reads channel 1 of a tensor that has the
    channels of the image. *)
Lemma reduce_Ok_channels {M : Type} (self : t M) (a : attrs)
    (m r : Tensor) :
  _reduce self a m = Ok r ->
  exists c h w rest, shape (image a) = c :: h :: w :: rest /\ 2 <= c.
Proof.
  unfold _reduce.
  destruct (shape (image a)) as [|c [|h [|w rest]]]; try discriminate.
  intros H. exists c, h, w, rest. split; [reflexivity|].
  apply bind_inv_Ok in H. destruct H as (dh & _ & H).
  apply bind_inv_Ok in H. destruct H as (dw & _ & H).
  apply bind_inv_Ok in H. destruct H as (ones & Hones & H).
  apply torch_full_Ok in Hones. subst ones.
  apply bind_inv_Ok in H. destruct H as (norm & Hnorm & _).
  destruct (String.eqb (reduction self) "mean").
  - apply bind_inv_Ok in Hnorm. destruct Hnorm as ([p g] & Hp & Hnorm).
    apply make_patches_shape in Hp. simpl in Hp.
    destruct Hp as (c' & h' & w' & Himg & Hshape).
    inversion Himg; subst c' h' w'.
    apply bind_inv_Ok in Hnorm. destruct Hnorm as (chan & Hsel & _).
    apply select_Ok in Hsel. rewrite Hshape in Hsel. simpl in Hsel.
    destruct Hsel as (n & Hn & Hlt). inversion Hn; subst. lia.
  - apply select_Ok in Hnorm. simpl in Hnorm.
    destruct Hnorm as (n & Hn & Hlt). inversion Hn; subst. lia.
Qed.

Section Call.

Variable F_interpolate : Tensor -> Z -> Res Tensor.

  (** The call returns only on an image of three dimensions with at least
      two channels. *)
Lemma call_Ok_channels (self : t (Tensor -> Tensor)) (img r : Tensor) :
    __call__ F_interpolate self img = Ok r ->
    exists c h w, shape img = [c; h; w] /\ 2 <= c.
  Proof.
    unfold __call__. intros H.
    apply bind_inv_Ok in H. destruct H as ([p [ncol nrow]] & Hp & H).
    apply make_patches_shape in Hp. simpl in Hp.
    destruct Hp as (c & h & w & Himg & _).
    apply bind_inv_Ok in H. destruct H as (det_maps & _ & H).
    apply bind_inv_Ok in H. destruct H as (pm & _ & H).
    apply bind_inv_Ok in H. destruct H as (pm' & Hred & _).
    apply reduce_Ok_channels in Hred. simpl in Hred.
    destruct Hred as (c' & h' & w' & rest & Hsh & Hc).
    rewrite Himg in Hsh. inversion Hsh; subst.
    exists c', h', w'. split; [exact Himg | exact Hc].
  Qed.

  (** C10: on an image with one channel the dense stitching call fails,
      whatever the reduction mode, the model and the other settings; the
      call returns only on images with at least two channels. *)
Theorem call_one_channel_fails (self : t (Tensor -> Tensor))
      (img : Tensor) :
    (forall h w, shape img = [1; h; w] ->
       exists e, __call__ F_interpolate self img = Raise e)
    /\ (forall r, __call__ F_interpolate self img = Ok r ->
          exists c h w, shape img = [c; h; w] /\ 2 <= c).
  Proof.
    split.
    - intros h w Hsh.
      destruct (__call__ F_interpolate self img) as [r|e] eqn:E; [|eauto].
      apply call_Ok_channels in E. destruct E as (c & h' & w' & Hsh' & Hc).
      rewrite Hsh in Hsh'. inversion Hsh'; subst. lia.
    - apply call_Ok_channels.
  Qed.

End Call.

(** The call fails in each of the three modes on a 1x4x4 image. *)
Lemma call_one_channel_fails_example :
  let interp := fun (x : Tensor) (_ : Z) => Ok x in
  let img := const_tensor (1 # 2) [1; 4; 4] in
  (exists e, __call__ interp (ones_stitcher "sum" (2, 2) 0 1 1) img = Raise e)
  /\ (exists e, __call__ interp (ones_stitcher "mean" (2, 2) 0 1 1) img
                = Raise e)
  /\ (exists e, __call__ interp (ones_stitcher "max" (2, 2) 0 1 1) img
                = Raise e).
Proof.
  intros interp img.
  repeat split;
    match goal with
    | |- exists e, __call__ _ ?s _ = _ =>
        exact (proj1 (call_one_channel_fails interp s img) 4 4 eq_refl)
    end.
Defined.

(** C1, failing input: a 512x512 image with one channel, patches of
    256x256 with overlap 64, reduction mean and a model that returns ones.
    The nine patches are folded, and the normalisation then reads channel 1
    of the patches of a one-channel tensor of ones: the call raises an
    index error where a map of ones is expected. *)
Theorem call_512_one_channel_mean :
  forall F_interpolate,
    __call__ F_interpolate (ones_stitcher "mean" (256, 256) 64 1 1)
      (const_tensor 1 [1; 512; 512]) = Raise IndexError.
Proof. intros F. vm_compute. reflexivity. Qed.

End ChannelFacts.

(** ** Shapes, ranges and broadcasting *)

Module TensorFacts.

Import InferenceFacts.

Lemma Zrange_succ (n : Z) : 0 <= n -> Zrange (n + 1) = Zrange n ++ [n].
Proof.
  intros H. unfold Zrange.
  replace (Z.to_nat (n + 1)) with (S (Z.to_nat n)) by lia.
  rewrite seq_S, map_app. simpl. f_equal. f_equal. lia.
Qed.

Lemma Zrange_app (a b : Z) :
  0 <= a -> 0 <= b -> Zrange (a + b) = Zrange a ++ map (Z.add a) (Zrange b).
Proof.
  intros Ha. revert b. apply natlike_ind.
  - rewrite Z.add_0_r. simpl. now rewrite app_nil_r.
  - intros b Hb IH. unfold Z.succ.
    rewrite Z.add_assoc, !Zrange_succ, IH, map_app by lia.
    now rewrite <- app_assoc.
Qed.

Lemma Zrange_NoDup (n : Z) : NoDup (Zrange n).
Proof.
  unfold Zrange. apply Finite.Injective_map_NoDup; [|apply seq_NoDup].
  intros a b H. lia.
Qed.

(** Row-major enumeration of a grid. *)
Lemma grid_enumeration {A : Type} (F : Z -> Z -> A) (nh nw : Z) :
  0 <= nh -> 0 < nw ->
  flat_map (fun i => map (F i) (Zrange nw)) (Zrange nh)
  = map (fun l => F (l / nw) (l mod nw)) (Zrange (nh * nw)).
Proof.
  intros Hh Hw. revert nh Hh.
  apply natlike_ind.
  - reflexivity.
  - intros n Hn IH. unfold Z.succ.
    rewrite Zrange_succ, flat_map_app, IH by lia. simpl.
    rewrite app_nil_r.
    replace ((n + 1) * nw) with (n * nw + nw) by lia.
    rewrite Zrange_app, map_app by nia. f_equal.
    rewrite map_map. apply map_ext_in. intros j Hj.
    apply In_Zrange in Hj.
    replace (n * nw + j) with (j + n * nw) by lia.
    rewrite Z.div_add, Z.mod_add by lia.
    rewrite Z.div_small, Z.mod_small by lia. reflexivity.
Qed.

Lemma removelast_map {A B : Type} (f : A -> B) (l : list A) :
  removelast (map f l) = map f (removelast l).
Proof.
  induction l as [|a [|b l] IH]; try reflexivity.
  change (f a :: removelast (map f (b :: l)) = f a :: map f (removelast (b :: l))).
  now rewrite IH.
Qed.

(** When [fn(1)] returns, [locs] pairs every window of [fn(0)] with
    every window of [fn(1)], rows first. *)
Lemma max_fold_locs_Ok (fh fw : list (Z * Z)) :
  Stitcher.max_fold_locs fh (Ok fw)
  = Ok (flat_map (fun h => map (fun w => (h, w)) fw) fh).
Proof.
  induction fh as [|h fh IH]; cbn [Stitcher.max_fold_locs flat_map bind];
    [reflexivity|].
  rewrite IH. reflexivity.
Qed.

(** The range of [_max_fold] for a positive overlap that is at most the
    stride: one offset per patch and a last one, which is dropped. *)
Lemma py_range_overlap (n s o : Z) :
  0 <= n -> 0 < o <= s ->
  py_range 0 (n * s + o) s = Ok (map (fun i => 0 + i * s) (Zrange (n + 1))).
Proof.
  intros Hn Ho. unfold py_range.
  guard_false (s =? 0).
  destruct (0 <? s) eqn:E'; [|apply Z.ltb_ge in E'; lia].
  replace ((n * s + o - 0 + s - 1) / s) with (n + 1); [reflexivity|].
  apply Z.div_unique with (r := o - 1); lia.
Qed.

Lemma max_fold_fn_overlap (n k o : Z) :
  0 <= n -> 0 < o <= k - o ->
  Stitcher.max_fold_fn (n * (k - o) + o) k (k - o)
  = Ok (map (fun i => (i * (k - o), i * (k - o) + k)) (Zrange n)).
Proof.
  intros Hn Ho. unfold Stitcher.max_fold_fn.
  rewrite py_range_overlap by lia. cbn [bind].
  rewrite map_map, removelast_map, Zrange_succ, removelast_last by lia.
  reflexivity.
Qed.

(** A shape broadcasts with itself behind further leading dimensions. *)
Lemma broadcast_rev_prefix_r (r extra : list Z) :
  broadcast_rev r (r ++ extra) = Ok (r ++ extra).
Proof.
  induction r as [|a r IH]; simpl; [reflexivity|].
  rewrite IH. cbn [bind]. now rewrite Z.eqb_refl.
Qed.

Lemma broadcast_rev_prefix_l (r extra : list Z) :
  broadcast_rev (r ++ extra) r = Ok (r ++ extra).
Proof.
  induction r as [|a r IH]; simpl.
  - now destruct extra.
  - rewrite IH. cbn [bind]. now rewrite Z.eqb_refl.
Qed.

Lemma broadcast_shapes_suffix_r (pre sh : list Z) :
  broadcast_shapes sh (pre ++ sh) = Ok (pre ++ sh).
Proof.
  unfold broadcast_shapes. rewrite rev_app_distr, broadcast_rev_prefix_r.
  cbn [bind]. now rewrite <- rev_app_distr, rev_involutive.
Qed.

Lemma broadcast_shapes_suffix_l (pre sh : list Z) :
  broadcast_shapes (pre ++ sh) sh = Ok (pre ++ sh).
Proof.
  unfold broadcast_shapes. rewrite rev_app_distr, broadcast_rev_prefix_l.
  cbn [bind]. now rewrite <- rev_app_distr, rev_involutive.
Qed.

Lemma broadcast_shapes_refl (sh : list Z) : broadcast_shapes sh sh = Ok sh.
Proof. exact (broadcast_shapes_suffix_r [] sh). Qed.

(** An index within the bounds of a shape is read as it is. *)
Lemma broadcast_index_in_bounds (sh pre idx : list Z) :
  in_bounds sh idx -> broadcast_index sh (pre ++ idx) = idx.
Proof.
  intros H. unfold broadcast_index.
  assert (Hlen : length sh = length idx) by (eapply Forall2_length; eauto).
  replace (length (pre ++ idx) - length sh)%nat with (length pre)
    by (rewrite length_app; lia).
  rewrite skipn_app, skipn_all, Nat.sub_diag. simpl.
  induction H as [|n i sh idx Hi _ IH]; simpl; [reflexivity|].
  rewrite IH by (simpl in Hlen; lia).
  destruct (Z.eqb_spec n 1); f_equal; lia.
Qed.

Lemma broadcast_index_same (sh idx : list Z) :
  in_bounds sh idx -> broadcast_index sh idx = idx.
Proof. exact (broadcast_index_in_bounds sh [] idx). Qed.

Lemma broadcast_index_tail (sh : list Z) (i : Z) (idx : list Z) :
  in_bounds sh idx -> broadcast_index sh (i :: idx) = idx.
Proof. exact (broadcast_index_in_bounds sh [i] idx). Qed.

Lemma list_eqb_refl (l : list Z) : list_eqb l l = true.
Proof. unfold list_eqb. destruct (list_eq_dec Z.eq_dec l l); congruence. Qed.

Lemma torch_full_nonneg (v : Q) (sh : list Z) :
  Forall (fun d => 0 <= d) sh -> torch_full v sh = Ok (const_tensor v sh).
Proof.
  intros H. unfold torch_full.
  replace (forallb (fun d => 0 <=? d) sh) with true; [reflexivity|].
  symmetry. apply forallb_forall. intros d Hd.
  rewrite Forall_forall in H. apply Z.leb_le. auto.
Qed.

Lemma slice_bound_inside (a n : Z) : 0 <= a <= n -> slice_bound a n = a.
Proof.
  intros H. unfold slice_bound.
  destruct (a <? 0) eqn:E; [apply Z.ltb_lt in E; lia | lia].
Qed.

Lemma slice_len_inside (a b n : Z) :
  0 <= a <= b -> b <= n -> slice_len a b n = b - a.
Proof.
  intros Ha Hb. unfold slice_len.
  rewrite !slice_bound_inside by lia. lia.
Qed.

End TensorFacts.

(** ** The max reduction (C3) *)

Module MaxFoldFacts.

Import InferenceFacts TensorFacts Stitcher.

Section Loop.

Variables C oh ow : Z.
Hypothesis HC : 0 <= C.
Hypothesis Hoh : 0 <= oh.
Hypothesis How : 0 <= ow.

Lemma bounds4 (c y x : Z) :
    0 <= c < C -> 0 <= y < oh -> 0 <= x < ow ->
    in_bounds [1; C; oh; ow] [0; c; y; x].
  Proof. intros. repeat constructor; lia. Qed.

  (** One turn of the loop takes the maximum with the placed patch. *)
Lemma place_patch (out : Tensor) (p : placed) :
    shape out = [1; C; oh; ow] -> placeable C oh ow p ->
    exists out',
      (patch <- torch_zeros (shape out) ;;
       patch <- slice_assign patch (fst (fst (fst p))) (snd (fst (fst p)))
                  (fst (snd (fst p))) (snd (snd (fst p))) (snd p) ;;
       torch_max out patch) = Ok out'
      /\ shape out' = [1; C; oh; ow]
      /\ forall c y x, 0 <= c < C -> 0 <= y < oh -> 0 <= x < ow ->
           data out' [0; c; y; x]
           = Qmax (data out [0; c; y; x])
               (if (fst (fst (fst p)) <=? y) && (y <? snd (fst (fst p)))
                   && (fst (snd (fst p)) <=? x) && (x <? snd (snd (fst p)))
                then value_at p c y x else 0%Q).
  Proof.
    destruct p as [[[a a'] [b b']] m]. unfold placeable, value_at. simpl.
    intros Hout (Hm & Ha & Ha' & Hb & Hb').
    rewrite Hout. unfold torch_zeros.
    rewrite torch_full_nonneg by (repeat constructor; lia).
    cbn [bind]. unfold slice_assign. cbn [shape const_tensor].
    rewrite !slice_len_inside, !slice_bound_inside by lia.
    rewrite Hm.
    pose proof (broadcast_shapes_suffix_r [1] [C; a' - a; b' - b]) as Hbs.
    cbn [app] in Hbs. rewrite Hbs.
    rewrite list_eqb_refl. cbn [bind].
    unfold torch_max, pointwise. cbn [shape]. rewrite Hout.
    rewrite broadcast_shapes_refl. cbn [bind].
    eexists. split; [reflexivity|]. split; [reflexivity|].
    intros c y x Hc Hy Hx. cbn [data].
    rewrite (broadcast_index_same _ _ (bounds4 c y x Hc Hy Hx)).
    f_equal.
    replace (a + (a' - a)) with a' by lia.
    replace (b + (b' - b)) with b' by lia.
    destruct ((a <=? y) && (y <? a') && (b <=? x) && (x <? b')) eqn:E;
      [|reflexivity].
    rewrite !andb_true_iff in E. destruct E as [[[E1 E2] E3] E4].
    apply Z.leb_le in E1, E3. apply Z.ltb_lt in E2, E4.
    rewrite (broadcast_index_tail [C; a' - a; b' - b] 0 [c; y - a; x - b])
      by (repeat constructor; lia).
    reflexivity.
  Qed.

Lemma max_with_zero_step (seen : list placed) (p : placed) (c y x : Z)
      (v : Q) :
    max_with_zero seen c y x v ->
    max_with_zero (seen ++ [p]) c y x
      (Qmax v
         (if (fst (fst (fst p)) <=? y) && (y <? snd (fst (fst p)))
             && (fst (snd (fst p)) <=? x) && (x <? snd (snd (fst p)))
          then value_at p c y x else 0%Q)).
  Proof.
    intros (H0 & Hub & Hex).
    set (b := (fst (fst (fst p)) <=? y) && (y <? snd (fst (fst p)))
              && (fst (snd (fst p)) <=? x) && (x <? snd (snd (fst p)))).
    assert (Hb : b = true <-> in_window p y x).
    { unfold b, in_window. rewrite !andb_true_iff, !Z.leb_le, !Z.ltb_lt. tauto. }
    set (u := if b then value_at p c y x else 0%Q).
    repeat split.
    - eapply Qle_trans; [exact H0 | apply Q.le_max_l].
    - intros q Hq Hw. apply in_app_or in Hq. destruct Hq as [Hq | [<- | []]].
      + eapply Qle_trans; [apply Hub; assumption | apply Q.le_max_l].
      + unfold u. rewrite (proj2 Hb Hw). apply Q.le_max_r.
    - destruct (Q.max_dec v u) as [E | E].
      + destruct Hex as [Hz | (q & Hq & Hw & Hv)].
        * left. now rewrite E.
        * right. exists q. split; [apply in_or_app; now left|].
          split; [exact Hw|]. now rewrite E.
      + unfold u in E. destruct b eqn:Eb.
        * right. exists p. split; [apply in_or_app; right; now left|].
          split; [now apply Hb | exact E].
        * left. exact E.
  Qed.

Lemma max_fold_loop_assembles (ps seen : list placed) (out : Tensor) :
    Forall (placeable C oh ow) ps ->
    assembled C oh ow out seen ->
    exists r,
      max_fold_loop out (map fst ps) (map snd ps) = Ok r
      /\ assembled C oh ow r (seen ++ ps).
  Proof.
    intros Hps. revert seen out.
    induction Hps as [|p ps Hp _ IH]; intros seen out [Hsh Hinv].
    - exists out. rewrite app_nil_r. split; [reflexivity | now split].
    - destruct (place_patch out p Hsh Hp) as (out' & Hstep & Hsh' & Hdata).
      cbn [map max_fold_loop].
      apply bind_inv_Ok in Hstep. destruct Hstep as (z & Hz & Hstep).
      apply bind_inv_Ok in Hstep. destruct Hstep as (pt & Hpt & Hmax).
      rewrite Hz. cbn [bind]. rewrite Hpt. cbn [bind]. rewrite Hmax.
      cbn [bind].
      destruct (IH (seen ++ [p]) out') as (r & Hr & Hasm).
      + split; [exact Hsh'|]. intros c y x Hc Hy Hx.
        rewrite Hdata by assumption.
        apply max_with_zero_step. now apply Hinv.
      + exists r. split; [exact Hr|]. now rewrite <- app_assoc in Hasm.
  Qed.

End Loop.

(** The windows that [_max_fold] computes for a grid of [nh] by [nw]
    patches with an overlap that is positive and at most the stride, and
    the patch that it places in each. *)
Lemma max_fold_unfold (maps : Tensor) (C kh kw o nh nw : Z) :
  shape maps = [nh * nw; C; kh; kw] ->
  0 <= C -> 0 < nh -> 0 < nw -> 0 < o <= kh - o -> o <= kw - o ->
  _max_fold maps (nh * kh - (nh - 1) * o, nw * kw - (nw - 1) * o) (kh, kw)
    (kh - o, kw - o)
  = let ps := map (fun l =>
                     (((l / nw * (kh - o), l / nw * (kh - o) + kh),
                       (l mod nw * (kw - o), l mod nw * (kw - o) + kw)),
                      row maps l)) (Zrange (nh * nw)) in
    max_fold_loop
      (const_tensor 0 [1; C; nh * kh - (nh - 1) * o; nw * kw - (nw - 1) * o])
      (map fst ps) (map snd ps).
Proof.
  intros Hshape HC Hnh Hnw Hoh How.
  unfold _max_fold. rewrite Hshape. cbn [nth_error fst snd].
  unfold torch_zeros. rewrite torch_full_nonneg by (repeat constructor; nia).
  cbn [bind].
  replace (nh * kh - (nh - 1) * o) with (nh * (kh - o) + o) by lia.
  replace (nw * kw - (nw - 1) * o) with (nw * (kw - o) + o) by lia.
  rewrite !max_fold_fn_overlap by lia. cbn [bind].
  rewrite max_fold_locs_Ok. cbn [bind].
  unfold tensor_iter. rewrite Hshape. cbn [bind].
  cbv zeta. rewrite !map_map. cbn [fst snd].
  f_equal.
  rewrite flat_map_concat_map, map_map, <- flat_map_concat_map.
  rewrite <- (grid_enumeration
                (fun i j => ((i * (kh - o), i * (kh - o) + kh),
                             (j * (kw - o), j * (kw - o) + kw)))) by lia.
  apply flat_map_ext. intros i. now rewrite map_map.
Qed.




End MaxFoldFacts.

(** ** Folding without overlap (C2) *)

Module FoldFacts.

Import InferenceFacts TensorFacts Stitcher.

Lemma div_mod_unique (a b n : Z) :
  0 <= b < n -> (a * n + b) / n = a /\ (a * n + b) mod n = b.
Proof.
  intros H. split.
  - symmetry. apply Z.div_unique with (r := b); lia.
  - symmetry. apply Z.mod_unique with (q := a); lia.
Qed.

Lemma ravel_bounds (sh idx : list Z) :
  in_bounds sh idx -> 0 <= ravel sh idx < Zprod sh.
Proof.
  induction 1 as [|n i sh idx Hi _ IH]; simpl; [lia|].
  fold (Zprod sh). nia.
Qed.

Lemma unravel_ravel (sh idx : list Z) :
  in_bounds sh idx -> unravel sh (ravel sh idx) = idx.
Proof.
  induction 1 as [|n i sh idx Hi Hrest IH]; simpl; [reflexivity|].
  fold (Zprod sh).
  destruct (div_mod_unique i (ravel sh idx) (Zprod sh)
              (ravel_bounds _ _ Hrest)) as [-> ->].
  now rewrite IH.
Qed.

Lemma Qsum_zero (f : Z -> Q) (l : list Z) :
  (forall i, In i l -> f i == 0) -> Qsum f l == 0.
Proof.
  induction l as [|a l IH]; intros H; simpl; [reflexivity|].
  rewrite (H a) by now left. rewrite IH by (intros; apply H; now right).
  reflexivity.
Qed.

(** A sum with one term that is not zero. *)
Lemma Qsum_single (f : Z -> Q) (l : list Z) (i0 : Z) :
  NoDup l -> In i0 l ->
  (forall i, In i l -> i <> i0 -> f i == 0) ->
  Qsum f l == f i0.
Proof.
  induction 1 as [|a l Ha Hnd IH]; intros Hin Hz; [contradiction|].
  simpl. destruct Hin as [-> | Hin].
  - rewrite Qsum_zero; [ring|].
    intros i Hi. apply Hz; [now right|]. intros ->. contradiction.
  - rewrite (Hz a); [|now left | intros ->; contradiction].
    rewrite IH; [ring | assumption |].
    intros i Hi. apply Hz. now right.
Qed.

(** The branch of [_patch_maps] for sum and mean, when the stride is the
    kernel: every pixel of the folded map is the pixel of the one patch
    that covers it. *)
Lemma fold_tiling (maps : Tensor) (c kh kw nh nw : Z) :
  shape maps = [nh * nw; c; kh; kw] ->
  0 < c -> 0 < kh -> 0 < kw -> 0 < nh -> 0 < nw ->
  exists r,
    (m <- permute1230 maps ;;
     m <- view_1_m1 m (nh * nw) ;;
     F_fold m (nh * kh, nw * kw) (kh, kw) (kh, kw)) = Ok r
    /\ shape r = [1; c; nh * kh; nw * kw]
    /\ forall ci y x,
         0 <= ci < c -> 0 <= y < nh * kh -> 0 <= x < nw * kw ->
         data r [0; ci; y; x]
         == data maps [y / kh * nw + x / kw; ci; y mod kh; x mod kw].
Proof.
  intros Hsh Hc Hkh Hkw Hnh Hnw.
  unfold permute1230. rewrite Hsh. cbn [bind].
  unfold view_1_m1. cbn [shape].
  assert (Hn : 0 < nh * nw) by nia.
  assert (Htot : Zprod [c; kh; kw; nh * nw] = c * (kh * kw) * (nh * nw))
    by (simpl; ring).
  rewrite Htot.
  guard_false (nh * nw <=? 0).
  rewrite Z.mod_mul by lia. cbn [Z.eqb negb orb bind].
  rewrite Z.div_mul by lia.
  unfold F_fold. cbn [shape].
  guard_false (kh <=? 0).
  guard_false (kw <=? 0).
  cbn [orb].
  rewrite Z.mod_mul by nia. cbn [Z.eqb negb].
  assert (Hbh : (nh * kh - kh) / kh + 1 = nh).
  { replace (nh * kh - kh) with ((nh - 1) * kh) by ring.
    rewrite Z.div_mul by lia. lia. }
  assert (Hbw : (nw * kw - kw) / kw + 1 = nw).
  { replace (nw * kw - kw) with ((nw - 1) * kw) by ring.
    rewrite Z.div_mul by lia. lia. }
  rewrite Hbh, Hbw.
  guard_false (nh <? 1).
  guard_false (nw <? 1).
  rewrite Z.eqb_refl. cbn [orb negb].
  eexists. split; [reflexivity|]. split.
  { cbn [shape]. now rewrite Z.div_mul by nia. }
  intros ci y x Hci Hy Hx. cbn [data].
  assert (Hyk : 0 <= y / kh < nh).
  { split; [apply Z.div_pos; lia | apply Z.div_lt_upper_bound; lia]. }
  assert (Hxk : 0 <= x / kw < nw).
  { split; [apply Z.div_pos; lia | apply Z.div_lt_upper_bound; lia]. }
  pose proof (Z.mod_pos_bound y kh Hkh) as Hym.
  pose proof (Z.mod_pos_bound x kw Hkw) as Hxm.
  pose proof (Z.div_mod y kh ltac:(lia)) as Hyd.
  pose proof (Z.div_mod x kw ltac:(lia)) as Hxd.
  set (l0 := y / kh * nw + x / kw).
  destruct (div_mod_unique (y / kh) (x / kw) nw Hxk) as [Hl0d Hl0m].
  fold l0 in Hl0d, Hl0m.
  rewrite (Qsum_single _ _ l0).
  - rewrite Hl0d, Hl0m.
    replace (y - y / kh * kh) with (y mod kh) by lia.
    replace (x - x / kw * kw) with (x mod kw) by lia.
    replace ((0 <=? y mod kh) && (y mod kh <? kh)
             && (0 <=? x mod kw) && (x mod kw <? kw)) with true.
    + assert (Hr : ravel [1; c * (kh * kw); nh * nw]
                     [0; (ci * kh + y mod kh) * kw + x mod kw; l0]
                   = ravel [c; kh; kw; nh * nw]
                       [ci; y mod kh; x mod kw; l0]) by (simpl; ring).
      rewrite Hr, unravel_ravel; [reflexivity|].
      repeat constructor; try lia. unfold l0. nia.
    + symmetry. rewrite !andb_true_iff, !Z.leb_le, !Z.ltb_lt. lia.
  - apply Zrange_NoDup.
  - apply In_Zrange. unfold l0. nia.
  - intros l Hl Hne. apply In_Zrange in Hl.
    destruct ((0 <=? y - l / nw * kh) && (y - l / nw * kh <? kh)
              && (0 <=? x - l mod nw * kw) && (x - l mod nw * kw <? kw))
      eqn:E; [|reflexivity].
    exfalso. apply Hne.
    rewrite !andb_true_iff, !Z.leb_le, !Z.ltb_lt in E.
    assert (Hq : l / nw = y / kh).
    { apply Z.div_unique with (r := y - l / nw * kh); lia. }
    assert (Hm : l mod nw = x / kw).
    { apply Z.div_unique with (r := x - l mod nw * kw); lia. }
    unfold l0. rewrite <- Hq, <- Hm.
    rewrite (Z.div_mod l nw) at 1 by lia. lia.
Qed.

Lemma torch_cat0_uniform (ts : list Tensor) (rest : list Z) :
  ts <> [] ->
  Forall (fun u => exists n, shape u = n :: rest) ts ->
  torch_cat0 ts
  = Ok {| shape := fold_right Z.add 0 (map (fun u => hd 0 (shape u)) ts)
                   :: rest;
          data := cat_data ts |}.
Proof.
  intros Hne Hall. unfold torch_cat0.
  destruct ts as [|t0 ts']; [contradiction|].
  pose proof (Forall_inv Hall) as [n0 Hn0]. rewrite Hn0.
  replace (forallb _ (t0 :: ts')) with true; [reflexivity|].
  symmetry. apply forallb_forall. intros u Hu.
  rewrite Forall_forall in Hall. destruct (Hall u Hu) as [n Hn].
  rewrite Hn. apply list_eqb_refl.
Qed.

Lemma floordiv_pos (a b : Z) : 0 < b -> floordiv a b = Ok (a / b).
Proof.
  intros H. unfold floordiv.
  destruct (b =? 0) eqn:E; [apply Z.eqb_eq in E; lia | reflexivity].
Qed.

(** [_patch_maps] for sum and mean without overlap: the patches are laid
    side by side and the map is cropped. *)
Lemma patch_maps_tiling {M : Type} (self : t M) (a : attrs)
    (ts : list Tensor) (maps : Tensor) (ci H W c kh kw nh nw : Z) :
  shape (image a) = [ci; H; W] ->
  String.eqb (reduction self) "max" = false ->
  overlap self = 0 ->
  0 < down_ratio self ->
  fst (size self) / down_ratio self = kh ->
  snd (size self) / down_ratio self = kw ->
  _ncol a = nh -> _nrow a = nw ->
  torch_cat0 ts = Ok maps ->
  shape maps = [nh * nw; c; kh; kw] ->
  0 < c -> 0 < kh -> 0 < kw -> 0 < nh -> 0 < nw ->
  0 <= H / down_ratio self <= nh * kh ->
  0 <= W / down_ratio self <= nw * kw ->
  exists r,
    _patch_maps self a ts = Ok r
    /\ shape r = [1; c; H / down_ratio self; W / down_ratio self]
    /\ forall cc y x,
         0 <= cc < c ->
         0 <= y < H / down_ratio self ->
         0 <= x < W / down_ratio self ->
         data r [0; cc; y; x]
         == data maps [y / kh * nw + x / kw; cc; y mod kh; x mod kw].
Proof.
  intros Himg Hred Hov Hdr Hkh Hkw Hncol Hnrow Hcat Hsh Hc Hk1 Hk2 Hn1 Hn2
    Hdh Hdw.
  destruct (fold_tiling maps c kh kw nh nw Hsh Hc Hk1 Hk2 Hn1 Hn2)
    as (r & Hfold & Hrsh & Hdata).
  unfold _patch_maps. rewrite Himg.
  rewrite !floordiv_pos by assumption. cbn [bind]. cbv zeta. cbn [fst snd].
  rewrite Hcat. cbn [bind]. rewrite Hred.
  rewrite Hov, Hkh, Hkw, Hncol, Hnrow, Hsh. cbn [hd].
  rewrite !Z.mul_0_r, Z.div_0_l, !Z.sub_0_r by lia.
  rewrite Hfold. cbn [bind].
  unfold crop4. rewrite Hrsh.
  rewrite !slice_len_inside by lia. rewrite !Z.sub_0_r.
  eexists. split; [reflexivity|]. split; [reflexivity|].
  intros cc y x Hcc Hy Hx. cbn [data]. apply Hdata; lia.
Qed.

(** The batches of the loader hold all the rows. *)
Lemma batch_sizes_sum (bs : Z) (n : nat) :
  0 < bs ->
  forall N, 0 <= N -> (Z.to_nat N <= n)%nat ->
  fold_right Z.add 0
    (map (fun i => Z.min bs (N - i * bs)) (Zrange ((N + bs - 1) / bs))) = N.
Proof.
  intros Hbs. induction n as [|n IH]; intros N HN Hn.
  - replace N with 0 by lia. rewrite Z.add_0_l, Z.div_small by lia.
    reflexivity.
  - destruct (Z.eq_dec N 0) as [-> | Hne].
    { rewrite Z.add_0_l, Z.div_small by lia. reflexivity. }
    assert (Hcnt : 0 < (N + bs - 1) / bs) by (apply Z.div_str_pos; lia).
    rewrite (Zrange_S _ Hcnt). cbn [map fold_right]. rewrite map_map.
    destruct (Z_lt_le_dec N bs) as [Hlt | Hge].
    + assert (Hone : (N + bs - 1) / bs = 1)
        by (symmetry; apply Z.div_unique with (r := N - 1); lia).
      rewrite Hone. simpl. lia.
    + replace ((N + bs - 1) / bs - 1) with ((N - bs + bs - 1) / bs).
      * rewrite (map_ext _ (fun i => Z.min bs (N - bs - i * bs)))
          by (intros i; f_equal; lia).
        rewrite IH by lia. lia.
      * replace (N + bs - 1) with (N - bs + bs - 1 + 1 * bs) by ring.
        rewrite Z.div_add by lia. lia.
Qed.

(** Inference followed by the concatenation of [_patch_maps] gives one
    row per patch. *)
Lemma inference_cat (self : t (Tensor -> Tensor)) (patches : Tensor)
    (N ci ph pw c kh kw : Z) :
  shape patches = [N; ci; ph; pw] ->
  0 < N -> 0 < batch_size self ->
  (forall b B, shape b = [B; ci; ph; pw] ->
               shape (model self b) = [B; c; kh; kw]) ->
  exists det_maps maps,
    _inference self patches = Ok det_maps
    /\ torch_cat0 det_maps = Ok maps
    /\ shape maps = [N; c; kh; kw].
Proof.
  intros Hsh HN Hbs Hmodel.
  set (bs := batch_size self) in *.
  set (batch := fun i => narrow0 patches (i * bs) (Z.min bs (N - i * bs))).
  set (nb := (N + bs - 1) / bs).
  assert (Hload : DataLoader patches bs = Ok (map batch (Zrange nb))).
  { unfold DataLoader. rewrite Hsh.
    destruct (bs <=? 0) eqn:E; [apply Z.leb_le in E; lia | reflexivity]. }
  assert (Hbatch : forall i,
    shape (model self (batch i)) = [Z.min bs (N - i * bs); c; kh; kw]).
  { intros i. apply Hmodel. unfold batch, narrow0. cbn [shape].
    now rewrite Hsh. }
  exists (map (model self) (map batch (Zrange nb))). eexists.
  split; [now apply dense_inference|].
  rewrite (torch_cat0_uniform _ [c; kh; kw]).
  - split; [reflexivity|]. cbn [shape]. f_equal.
    rewrite !map_map.
    rewrite (map_ext _ (fun i => Z.min bs (N - i * bs)))
      by (intros i; now rewrite Hbatch).
    apply (batch_sizes_sum bs (Z.to_nat N)); lia.
  - assert (Hcnt : 0 < nb) by (apply Z.div_str_pos; lia).
    rewrite (Zrange_S _ Hcnt). discriminate.
  - apply Forall_forall. intros u Hu.
    apply in_map_iff in Hu. destruct Hu as (b & <- & Hb).
    apply in_map_iff in Hb. destruct Hb as (i & <- & _).
    rewrite Hbatch. eauto.
Qed.

Import ImageToPatches.

Lemma grid_count_pos (len p : Z) : 0 < len -> 0 < p -> 0 < grid_count len p p.
Proof.
  intros Hl Hp. unfold grid_count.
  guard_false (len <=? 0).
  destruct (len <=? p); [lia|].
  assert (0 <= (len - p + p - 1) / p) by (apply Z.div_pos; lia). lia.
Qed.

(** The patches of the grid cover the axis. *)
Lemma grid_count_covers (len p : Z) :
  0 < len -> 0 < p -> len <= grid_count len p p * p.
Proof.
  intros Hl Hp. unfold grid_count.
  guard_false (len <=? 0).
  destruct (len <=? p) eqn:E'; [apply Z.leb_le in E'; lia|].
  replace (len - p + p - 1) with (len - 1) by ring.
  pose proof (Z.div_mod (len - 1) p ltac:(lia)).
  pose proof (Z.mod_pos_bound (len - 1) p Hp). nia.
Qed.

(** Dividing the image and the patches by the down ratio keeps the grid. *)
Lemma grid_count_scale (d len p : Z) :
  0 < d -> 0 < len -> 0 < p ->
  grid_count (d * len) (d * p) (d * p) = grid_count len p p.
Proof.
  intros Hd Hl Hp. unfold grid_count.
  guard_false (d * len <=? 0).
  guard_false (len <=? 0).
  destruct (len <=? p) eqn:E1.
  - apply Z.leb_le in E1.
    destruct (d * len <=? d * p) eqn:E2; [reflexivity|].
    apply Z.leb_gt in E2. nia.
  - apply Z.leb_gt in E1.
    guard_false (d * len <=? d * p).
    f_equal.
    replace (d * len - d * p + d * p - 1) with (d * len - 1) by ring.
    replace (len - p + p - 1) with (len - 1) by ring.
    rewrite <- Z.div_div by lia. f_equal.
    symmetry. apply Z.div_unique with (r := d - 1); lia.
Qed.

(** In sum and max mode [_reduce] divides by ones. *)
Lemma reduce_plain {M : Type} (self : Stitcher.t M) (a : attrs) (m : Tensor)
    (ci H W c : Z) :
  shape (Stitcher.image a) = [ci; H; W] ->
  2 <= ci -> 0 < down_ratio self ->
  String.eqb (reduction self) "mean" = false ->
  shape m = [1; c; H / down_ratio self; W / down_ratio self] ->
  0 <= H / down_ratio self -> 0 <= W / down_ratio self ->
  exists r,
    _reduce self a m = Ok r
    /\ shape r = shape m
    /\ forall cc y x,
         in_bounds (shape m) [0; cc; y; x] ->
         data r [0; cc; y; x] == data m [0; cc; y; x].
Proof.
  intros Himg Hci Hdr Hred Hm Hdh Hdw.
  unfold _reduce. rewrite Himg. rewrite !floordiv_pos by assumption.
  cbn [bind]. unfold torch_ones.
  rewrite torch_full_nonneg by (repeat constructor; lia). cbn [bind].
  rewrite Hred. unfold select. cbn [shape const_tensor nth_error].
  replace ((- ci <=? 1) && (1 <? ci)) with true
    by (symmetry; rewrite andb_true_iff, Z.leb_le, Z.ltb_lt; lia).
  cbn [bind firstn skipn app]. unfold torch_div, pointwise. cbn [shape].
  rewrite Hm.
  pose proof (broadcast_shapes_suffix_l [1; c]
                [H / down_ratio self; W / down_ratio self]) as Hbs.
  cbn [app] in Hbs. rewrite Hbs. cbn [bind].
  eexists. split; [reflexivity|]. split; [reflexivity|].
  intros cc y x Hb. cbn [data].
  rewrite (broadcast_index_same _ _ Hb).
  unfold Qdiv. change (/ 1)%Q with 1%Q. apply Qmult_1_r.
Qed.

Lemma sum_of_ones {A : Type} (f : A -> Z) (l : list A) :
  (forall a, f a = 1) ->
  fold_right Z.add 0 (map f l) = Z.of_nat (length l).
Proof.
  intros Hf. induction l as [|a l IH]; [reflexivity|].
  cbn [map fold_right length]. rewrite Hf, IH. lia.
Qed.

(** Concatenating tensors of one row each: row [l] is the row of the
    tensor of rank [l]. *)
Lemma cat_data_rows (n : nat) :
  forall (f : Z -> Tensor) (l : Z) (r : list Z),
    (forall i, hd 0 (shape (f i)) = 1) ->
    0 <= l < Z.of_nat n ->
    cat_data (map f (Zrange (Z.of_nat n))) (l :: r) = data (f l) (0 :: r).
Proof.
  induction n as [|n IH]; intros f l r Hf Hl; [lia|].
  rewrite Zrange_S by lia. cbn [map cat_data]. rewrite Hf.
  destruct (l <? 1) eqn:E.
  - apply Z.ltb_lt in E. now replace l with 0 by lia.
  - apply Z.ltb_ge in E. rewrite map_map.
    replace (Z.of_nat (S n) - 1) with (Z.of_nat n) by lia.
    rewrite (IH (fun i => f (Z.succ i)) (l - 1) r) by (auto; lia).
    now replace (Z.succ (l - 1)) with l by lia.
Qed.

Lemma broadcast_shapes_channel (c dh dw : Z) :
  broadcast_shapes [1; c; dh; dw] [1; 1; dh; dw] = Ok [1; c; dh; dw].
Proof.
  unfold broadcast_shapes. cbn [rev app broadcast_rev bind].
  rewrite !Z.eqb_refl. cbn [bind Z.eqb].
  destruct (c =? 1); reflexivity.
Qed.

Lemma broadcast_index_channel (dh dw cc y x : Z) :
  0 <= y < dh -> 0 <= x < dw ->
  broadcast_index [1; 1; dh; dw] [0; cc; y; x] = [0; 0; y; x].
Proof.
  intros Hy Hx. unfold broadcast_index. cbn.
  destruct (Z.eqb_spec dh 1); destruct (Z.eqb_spec dw 1);
    repeat f_equal; lia.
Qed.

(** In mean mode without overlap the normalisation map is 1 on the
    image, so that [_reduce] leaves the map as it is. *)
Lemma reduce_mean {M : Type} (self : Stitcher.t M) (a : attrs) (m : Tensor)
    (ci dh dw kh kw c : Z) :
  shape (Stitcher.image a)
  = [ci; down_ratio self * dh; down_ratio self * dw] ->
  2 <= ci -> 0 < down_ratio self ->
  0 < dh -> 0 < dw -> 0 < kh -> 0 < kw ->
  reduction self = "mean"%string ->
  Stitcher.overlap self = 0 ->
  Stitcher.size self = (down_ratio self * kh, down_ratio self * kw) ->
  _ncol a = grid_count dh kh kh ->
  _nrow a = grid_count dw kw kw ->
  shape m = [1; c; dh; dw] ->
  exists r,
    _reduce self a m = Ok r
    /\ shape r = shape m
    /\ forall cc y x,
         0 <= cc < c -> 0 <= y < dh -> 0 <= x < dw ->
         data r [0; cc; y; x] == data m [0; cc; y; x].
Proof.
  intros Himg Hci Hdr Hdh Hdw Hkh Hkw Hred Hov Hsize Hncol Hnrow Hm.
  set (dr := down_ratio self) in *.
  assert (Hd1 : dr * dh / dr = dh) by (rewrite Z.mul_comm; apply Z.div_mul; lia).
  assert (Hd2 : dr * dw / dr = dw) by (rewrite Z.mul_comm; apply Z.div_mul; lia).
  assert (Hd3 : dr * kh / dr = kh) by (rewrite Z.mul_comm; apply Z.div_mul; lia).
  assert (Hd4 : dr * kw / dr = kw) by (rewrite Z.mul_comm; apply Z.div_mul; lia).
  set (nh := grid_count dh kh kh) in *.
  set (nw := grid_count dw kw kw) in *.
  assert (Hnh : 0 < nh) by (apply grid_count_pos; lia).
  assert (Hnw : 0 < nw) by (apply grid_count_pos; lia).
  pose proof (grid_count_covers dh kh Hdh Hkh) as Hch. fold nh in Hch.
  pose proof (grid_count_covers dw kw Hdw Hkw) as Hcw. fold nw in Hcw.
  (* the patches of the tensor of ones *)
  set (ones := const_tensor 1 [ci; dh; dw]).
  set (P := {| shape := [nh * nw; ci; kh; kw];
               data := fun idx =>
                 match idx with
                 | [l; ch; i; j] =>
                     if (l / nw * kh + i <? dh) && (l mod nw * kw + j <? dw)
                     then data ones [ch; l / nw * kh + i; l mod nw * kw + j]
                     else 0%Q
                 | _ => 0%Q
                 end |}).
  assert (HP : make_patches
                 {| ImageToPatches.image := ones;
                    ImageToPatches.size := (kh, kw);
                    ImageToPatches.overlap := 0 |} = Ok (P, (nh, nw))).
  { unfold make_patches.
    cbn [ImageToPatches.image ImageToPatches.size ImageToPatches.overlap
         shape ones const_tensor].
    rewrite !Z.sub_0_r.
    guard_false (kh <=? 0).
    guard_false (kw <=? 0).
    reflexivity. }
  set (chan := {| shape := [nh * nw; kh; kw];
                  data := fun idx =>
                    data P (firstn 1 idx ++ 1 :: skipn 1 idx) |}).
  assert (Hsel : select P 1 1 = Ok chan).
  { unfold select. cbn [shape P nth_error].
    replace ((- ci <=? 1) && (1 <? ci)) with true
      by (symmetry; rewrite andb_true_iff, Z.leb_le, Z.ltb_lt; lia).
    reflexivity. }
  set (f := fun i => unsqueeze0 (unsqueeze0 (row chan i))).
  set (maps1 := {| shape := [nh * nw; 1; kh; kw];
                   data := cat_data (map f (Zrange (nh * nw))) |}).
  assert (Hcat : torch_cat0 (map f (Zrange (nh * nw))) = Ok maps1).
  { rewrite (torch_cat0_uniform _ [1; kh; kw]).
    - unfold maps1. rewrite map_map.
      rewrite (sum_of_ones (fun i => hd 0 (shape (f i)))) by reflexivity.
      rewrite Zrange_length by nia. reflexivity.
    - rewrite Zrange_S by nia. discriminate.
    - apply Forall_forall. intros u Hu. apply in_map_iff in Hu.
      destruct Hu as (i & <- & _). exists 1. reflexivity. }
  destruct (patch_maps_tiling self a (map f (Zrange (nh * nw))) maps1
              ci (dr * dh) (dr * dw) 1 kh kw nh nw)
    as (norm & Hnorm & Hnsh & Hndata);
    try assumption; try reflexivity; try lia.
  { now rewrite Hred. }
  { rewrite Hsize. exact Hd3. }
  { rewrite Hsize. exact Hd4. }
  { fold dr. rewrite Hd1. lia. }
  { fold dr. rewrite Hd2. lia. }
  fold dr in Hnsh, Hndata. rewrite Hd1, Hd2 in Hnsh, Hndata.
  assert (Hone : forall y x, 0 <= y < dh -> 0 <= x < dw ->
                   data norm [0; 0; y; x] == 1).
  { intros y x Hy Hx. rewrite Hndata by lia.
    assert (Hyk : 0 <= y / kh < nh).
    { split; [apply Z.div_pos; lia | apply Z.div_lt_upper_bound; nia]. }
    assert (Hxk : 0 <= x / kw < nw).
    { split; [apply Z.div_pos; lia | apply Z.div_lt_upper_bound; nia]. }
    pose proof (Z.div_mod y kh ltac:(lia)) as Hyd.
    pose proof (Z.div_mod x kw ltac:(lia)) as Hxd.
    destruct (div_mod_unique (y / kh) (x / kw) nw Hxk) as [Hq Hr].
    unfold maps1. cbn [data].
    replace (nh * nw) with (Z.of_nat (Z.to_nat (nh * nw))) by nia.
    rewrite cat_data_rows by (try reflexivity; nia).
    unfold f. cbn [data unsqueeze0 row tl chan firstn skipn app P].
    rewrite Hq, Hr.
    replace (y / kh * kh + y mod kh) with y by lia.
    replace (x / kw * kw + x mod kw) with x by lia.
    replace ((y <? dh) && (x <? dw)) with true
      by (symmetry; rewrite andb_true_iff, !Z.ltb_lt; lia).
    reflexivity. }
  unfold _reduce. rewrite Himg. rewrite !floordiv_pos by assumption.
  fold dr. rewrite Hd1, Hd2. cbn [bind]. unfold torch_ones.
  rewrite torch_full_nonneg by (repeat constructor; lia). cbn [bind].
  rewrite Hred. cbn [String.eqb Ascii.eqb Bool.eqb].
  rewrite Hsize, Hov. cbn [fst snd]. rewrite Hd3, Hd4, Z.div_0_l by lia.
  fold ones. rewrite HP. cbn [bind]. rewrite Hsel. cbn [bind].
  unfold tensor_iter. cbn [shape chan bind]. rewrite map_map. fold f.
  rewrite Hnorm. cbn [bind].
  unfold torch_div, pointwise. rewrite Hm, Hnsh.
  rewrite broadcast_shapes_channel. cbn [bind].
  eexists. split; [reflexivity|]. split; [reflexivity|].
  intros cc y x Hcc Hy Hx. cbn [data].
  rewrite broadcast_index_same by (repeat constructor; lia).
  rewrite broadcast_index_channel by lia.
  rewrite Hone by lia.
  unfold Qdiv. change (/ 1)%Q with 1%Q. apply Qmult_1_r.
Qed.

(** C2, failing input: a 2-channel image of 4x4 pixels, patches of 2x2
    without overlap and a model that returns 1 everywhere.  The sum and
    the mean reduction return the tiling, 1 at the last pixel as at the
    first; of the windows of [_max_fold] the last one is dropped in each
    direction, so that the max reduction places the first of the four
    patches only and returns 0 at the last pixel.  On an image of 2x2
    pixels, a single patch, it places nothing and returns 0 where the
    sum returns 1.  The three modes do not return the same map. *)
Theorem max_leaves_patches_out_without_overlap :
  let call := fun reduction img =>
    __call__ (fun x _ => Ok x) (ones_stitcher reduction (2, 2) 0 1 1) img in
  match call "sum"%string (const_tensor 1 [2; 4; 4]),
        call "mean"%string (const_tensor 1 [2; 4; 4]),
        call "max"%string (const_tensor 1 [2; 4; 4]) with
  | Ok rs, Ok rm, Ok rx =>
      shape rs = [1; 1; 4; 4] /\ shape rm = [1; 1; 4; 4]
      /\ shape rx = [1; 1; 4; 4]
      /\ data rs [0; 0; 1; 1] == 1 /\ data rs [0; 0; 3; 3] == 1
      /\ data rm [0; 0; 1; 1] == 1 /\ data rm [0; 0; 3; 3] == 1
      /\ data rx [0; 0; 1; 1] == 1 /\ data rx [0; 0; 3; 3] == 0
  | _, _, _ => False
  end
  /\ match call "sum"%string (const_tensor 1 [2; 2; 2]),
           call "max"%string (const_tensor 1 [2; 2; 2]) with
     | Ok rs, Ok rx =>
         shape rs = [1; 1; 2; 2] /\ shape rx = [1; 1; 2; 2]
         /\ data rs [0; 0; 0; 0] == 1 /\ data rx [0; 0; 0; 0] == 0
     | _, _ => False
     end
  /\ ~ modes_agree (fun x _ => Ok x) (constant_model 1 2 2) (2, 2) 1 1
         (const_tensor 1 [2; 4; 4]).
Proof.
  cbv zeta. split; [|split].
  - vm_compute. repeat split.
  - vm_compute. repeat split.
  - intros (rs & rm & rx & Hs & _ & Hx & _ & _ & H).
    assert (Hsh : match __call__ (fun x _ => Ok x)
                          (dense_stitcher (constant_model 1 2 2) (2, 2) 0 1 1
                             "sum") (const_tensor 1 [2; 4; 4]) with
                  | Ok u => shape u
                  | Raise _ => []
                  end = [1; 1; 4; 4]) by (vm_compute; reflexivity).
    assert (Hvs : match __call__ (fun x _ => Ok x)
                          (dense_stitcher (constant_model 1 2 2) (2, 2) 0 1 1
                             "sum") (const_tensor 1 [2; 4; 4]) with
                  | Ok u => data u [0; 0; 3; 3]
                  | Raise _ => 0%Q
                  end = 1%Q) by (vm_compute; reflexivity).
    assert (Hvx : match __call__ (fun x _ => Ok x)
                          (dense_stitcher (constant_model 1 2 2) (2, 2) 0 1 1
                             "max") (const_tensor 1 [2; 4; 4]) with
                  | Ok u => data u [0; 0; 3; 3]
                  | Raise _ => 1%Q
                  end = 0%Q) by (vm_compute; reflexivity).
    rewrite Hs in Hsh, Hvs. rewrite Hx in Hvx.
    destruct (H [0; 0; 3; 3]) as [_ Hxs].
    { rewrite Hsh. repeat constructor; lia. }
    rewrite Hvs, Hvx in Hxs. discriminate Hxs.
Qed.

(** X21: without overlap, for an image of at least two channels whose
    height and width, like the height and width of the patches, are
    multiples of the down ratio, and a model that returns one map of the
    downsized patch size per patch, the sum and the mean reduction return
    the same map: the outputs of the patches side by side, cropped to the
    downsized image. *)
Theorem overlap_zero_sum_mean_tiling
    (F_interpolate : Tensor -> Z -> Res Tensor) (model : Tensor -> Tensor)
    (img : Tensor) (ci dh dw kh kw dr bs c : Z)
    (Himg : shape img = [ci; dr * dh; dr * dw])
    (Hci : 2 <= ci) (Hdh : 0 < dh) (Hdw : 0 < dw)
    (Hkh : 0 < kh) (Hkw : 0 < kw) (Hdr : 0 < dr) (Hbs : 0 < bs)
    (Hc : 0 < c)
    (Hmodel : forall b B, shape b = [B; ci; dr * kh; dr * kw] ->
                          shape (model b) = [B; c; kh; kw]) :
  sum_mean_tile F_interpolate model img dh dw kh kw dr bs c.
Proof.
  unfold sum_mean_tile. cbv zeta.
  set (nh := grid_count dh kh kh). set (nw := grid_count dw kw kw).
  assert (Hnh : 0 < nh) by (apply grid_count_pos; lia).
  assert (Hnw : 0 < nw) by (apply grid_count_pos; lia).
  pose proof (grid_count_covers dh kh Hdh Hkh) as Hch. fold nh in Hch.
  pose proof (grid_count_covers dw kw Hdw Hkw) as Hcw. fold nw in Hcw.
  assert (Hd1 : dr * dh / dr = dh) by (rewrite Z.mul_comm; apply Z.div_mul; lia).
  assert (Hd2 : dr * dw / dr = dw) by (rewrite Z.mul_comm; apply Z.div_mul; lia).
  assert (Hd3 : dr * kh / dr = kh) by (rewrite Z.mul_comm; apply Z.div_mul; lia).
  assert (Hd4 : dr * kw / dr = kw) by (rewrite Z.mul_comm; apply Z.div_mul; lia).
  destruct (make_patches {| ImageToPatches.image := img;
                            ImageToPatches.size := (dr * kh, dr * kw);
                            ImageToPatches.overlap := 0 |})
    as [[patches [ncol nrow]]|e] eqn:HP.
  2:{ exfalso. revert HP. unfold make_patches.
      cbn [ImageToPatches.image ImageToPatches.size ImageToPatches.overlap].
      rewrite Himg, !Z.sub_0_r.
      guard_false (dr * kh <=? 0).
      guard_false (dr * kw <=? 0).
      discriminate. }
  assert (Hgrid : ncol = nh /\ nrow = nw
                  /\ shape patches = [nh * nw; ci; dr * kh; dr * kw]).
  { revert HP. unfold make_patches.
    cbn [ImageToPatches.image ImageToPatches.size ImageToPatches.overlap].
    rewrite Himg, !Z.sub_0_r.
    guard_false (dr * kh <=? 0).
    guard_false (dr * kw <=? 0).
    cbn [orb]. rewrite !grid_count_scale by lia. fold nh nw.
    intros HP. inversion HP; subst. auto. }
  destruct Hgrid as (-> & -> & Hpsh).
  set (ssum := dense_stitcher model (dr * kh, dr * kw) 0 bs dr "sum").
  set (smean := dense_stitcher model (dr * kh, dr * kw) 0 bs dr "mean").
  destruct (inference_cat ssum patches (nh * nw) ci (dr * kh) (dr * kw)
              c kh kw Hpsh ltac:(nia) Hbs Hmodel)
    as (det_maps & maps & Hinf & Hcat & Hmsh).
  set (a := {| Stitcher.image := img; _ncol := nh; _nrow := nw |}).
  destruct (patch_maps_tiling ssum a det_maps maps ci (dr * dh) (dr * dw)
              c kh kw nh nw)
    as (ps & Hps & Hpssh & Hpsd); try assumption; try reflexivity;
    try (cbn [down_ratio ssum dense_stitcher]; lia).
  destruct (patch_maps_tiling smean a det_maps maps ci (dr * dh) (dr * dw)
              c kh kw nh nw)
    as (pm & Hpm & Hpmsh & Hpmd); try assumption; try reflexivity;
    try (cbn [down_ratio smean dense_stitcher]; lia).
  cbn [down_ratio ssum smean dense_stitcher] in Hpssh, Hpsd, Hpmsh, Hpmd.
  rewrite Hd1, Hd2 in Hpssh, Hpsd, Hpmsh, Hpmd.
  destruct (reduce_plain ssum a ps ci (dr * dh) (dr * dw) c)
    as (rs & Hrs & Hrssh & Hrsd); try assumption; try reflexivity;
    try (cbn [down_ratio ssum dense_stitcher]; lia).
  { cbn [down_ratio ssum dense_stitcher]. now rewrite Hd1, Hd2. }
  destruct (reduce_mean smean a pm ci dh dw kh kw c)
    as (rm & Hrm & Hrmsh & Hrmd); try assumption; try reflexivity.
  exists patches, nh, maps, rs, rm.
  split; [reflexivity|].
  split; [fold ssum; rewrite Hinf; exact Hcat|].
  split; [exact Hmsh|].
  split.
  { unfold __call__. fold ssum.
    cbn [Stitcher.size Stitcher.overlap ssum dense_stitcher].
    rewrite HP. cbn [bind]. fold ssum a.
    rewrite Hinf. cbn [bind]. rewrite Hps. cbn [bind]. rewrite Hrs.
    reflexivity. }
  split.
  { unfold __call__. fold smean.
    cbn [Stitcher.size Stitcher.overlap smean dense_stitcher].
    rewrite HP. cbn [bind]. fold smean a.
    change (_inference smean patches) with (_inference ssum patches).
    rewrite Hinf. cbn [bind]. rewrite Hpm. cbn [bind]. rewrite Hrm.
    reflexivity. }
  split; [congruence|]. split; [congruence|].
  intros cc y x Hcc Hy Hx. split.
  - rewrite Hrsd by (rewrite Hpssh; repeat constructor; lia).
    apply Hpsd; assumption.
  - rewrite Hrmd by assumption. apply Hpmd; assumption.
Qed.

(** A 2-channel image of 4x6 pixels, patches of 2x2, batches of 3 and a
    model that returns 7 everywhere. *)
Lemma overlap_zero_sum_mean_tiling_example :
  sum_mean_tile (fun x _ => Ok x) (constant_model 7 2 2)
    (const_tensor (1 # 2) [2; 4; 6]) 4 6 2 2 1 3 1.
Proof.
  apply (overlap_zero_sum_mean_tiling (fun x _ => Ok x)
           (constant_model 7 2 2) (const_tensor (1 # 2) [2; 4; 6]) 2);
    try lia; try reflexivity.
  intros b B Hb. unfold constant_model. cbn [shape const_tensor].
  now rewrite Hb.
Defined.

End FoldFacts.

(** ** Folding with overlap and the mean reduction *)

Module MeanFacts.

Import InferenceFacts TensorFacts FoldFacts Stitcher.

Lemma Qsum_ext (f g : Z -> Q) (l : list Z) :
  (forall i, In i l -> f i == g i) -> Qsum f l == Qsum g l.
Proof.
  induction l as [|a l IH]; intros H; simpl; [reflexivity|].
  rewrite (H a) by now left. rewrite IH by (intros; apply H; now right).
  reflexivity.
Qed.

Lemma Qsum_scale (v : Q) (g : Z -> Q) (l : list Z) :
  Qsum (fun i => (v * g i)%Q) l == (v * Qsum g l)%Q.
Proof.
  induction l as [|a l IH]; simpl; [ring|]. rewrite IH. ring.
Qed.

Lemma Qsum_nonneg (f : Z -> Q) (l : list Z) :
  (forall i, (0 <= f i)%Q) -> (0 <= Qsum f l)%Q.
Proof.
  intros H. induction l as [|a l IH]; simpl; [apply Qle_refl|].
  pose proof (H a). lra.
Qed.

Lemma Qsum_ge_term (f : Z -> Q) (l : list Z) (i0 : Z) :
  (forall i, (0 <= f i)%Q) -> In i0 l -> (f i0 <= Qsum f l)%Q.
Proof.
  intros H. induction l as [|a l IH]; intros Hin; [contradiction|].
  simpl. destruct Hin as [-> | Hin].
  - pose proof (Qsum_nonneg f l H). lra.
  - pose proof (H a). specialize (IH Hin). lra.
Qed.

(** The tensor that [F.fold] receives holds the patches, pixel by
    pixel. *)
Lemma permute_view (maps : Tensor) (c kh kw n : Z) :
  shape maps = [n; c; kh; kw] ->
  0 < c -> 0 < kh -> 0 < kw -> 0 < n ->
  exists m3,
    (m <- permute1230 maps ;; view_1_m1 m n) = Ok m3
    /\ shape m3 = [1; c * (kh * kw); n]
    /\ forall ci ki kj l,
         0 <= ci < c -> 0 <= ki < kh -> 0 <= kj < kw -> 0 <= l < n ->
         data m3 [0; (ci * kh + ki) * kw + kj; l] = data maps [l; ci; ki; kj].
Proof.
  intros Hsh Hc Hkh Hkw Hn.
  unfold permute1230. rewrite Hsh. cbn [bind].
  unfold view_1_m1. cbn [shape].
  assert (Htot : Zprod [c; kh; kw; n] = c * (kh * kw) * n) by (simpl; ring).
  rewrite Htot.
  guard_false (n <=? 0).
  rewrite Z.mod_mul by lia. cbn [Z.eqb negb orb].
  rewrite Z.div_mul by lia.
  eexists. split; [reflexivity|]. split; [reflexivity|].
  intros ci ki kj l Hci Hki Hkj Hl. cbn [data].
  assert (Hr : ravel [1; c * (kh * kw); n] [0; (ci * kh + ki) * kw + kj; l]
               = ravel [c; kh; kw; n] [ci; ki; kj; l]) by (simpl; ring).
  rewrite Hr, unravel_ravel; [reflexivity|].
  repeat constructor; lia.
Qed.

(** [F.fold] adds up, at every pixel, the patches whose window covers
    it. *)
Lemma fold_blocks (maps : Tensor) (c kh kw o nh nw : Z) :
  shape maps = [nh * nw; c; kh; kw] ->
  0 < c -> 0 < nh -> 0 < nw -> 0 <= o < kh -> o < kw ->
  exists r,
    (m <- permute1230 maps ;;
     m <- view_1_m1 m (nh * nw) ;;
     F_fold m (nh * kh - (nh - 1) * o, nw * kw - (nw - 1) * o) (kh, kw)
       (kh - o, kw - o)) = Ok r
    /\ shape r = [1; c; nh * kh - (nh - 1) * o; nw * kw - (nw - 1) * o]
    /\ forall ci y x,
         0 <= ci < c ->
         data r [0; ci; y; x]
         == Qsum (fun l =>
                    if in_block nw kh kw (kh - o) (kw - o) y x l
                    then data maps [l; ci; y - l / nw * (kh - o);
                                    x - l mod nw * (kw - o)]
                    else 0%Q) (Zrange (nh * nw)).
Proof.
  intros Hsh Hc Hnh Hnw Hoh How.
  destruct (permute_view maps c kh kw (nh * nw) Hsh)
    as (m3 & Hm3 & Hm3sh & Hm3d); try nia.
  apply bind_inv_Ok in Hm3. destruct Hm3 as (m1 & Hm1 & Hm3).
  rewrite Hm1. cbn [bind]. rewrite Hm3. cbn [bind].
  unfold F_fold. rewrite Hm3sh.
  guard_false (kh <=? 0).
  guard_false (kw <=? 0).
  guard_false (kh - o <=? 0).
  guard_false (kw - o <=? 0).
  cbn [orb].
  rewrite Z.mod_mul by nia. cbn [Z.eqb negb].
  assert (Hbh : (nh * kh - (nh - 1) * o - kh) / (kh - o) + 1 = nh).
  { replace (nh * kh - (nh - 1) * o - kh) with ((nh - 1) * (kh - o)) by ring.
    rewrite Z.div_mul by lia. lia. }
  assert (Hbw : (nw * kw - (nw - 1) * o - kw) / (kw - o) + 1 = nw).
  { replace (nw * kw - (nw - 1) * o - kw) with ((nw - 1) * (kw - o)) by ring.
    rewrite Z.div_mul by lia. lia. }
  rewrite Hbh, Hbw.
  guard_false (nh <? 1).
  guard_false (nw <? 1).
  rewrite Z.eqb_refl. cbn [orb negb].
  eexists. split; [reflexivity|]. split.
  { cbn [shape]. now rewrite Z.div_mul by nia. }
  intros ci y x Hci. cbn [data].
  apply Qsum_ext. intros l Hl. apply In_Zrange in Hl.
  unfold in_block.
  destruct ((0 <=? y - l / nw * (kh - o)) && (y - l / nw * (kh - o) <? kh)
            && (0 <=? x - l mod nw * (kw - o))
            && (x - l mod nw * (kw - o) <? kw)) eqn:E; [|reflexivity].
  rewrite !andb_true_iff, !Z.leb_le, !Z.ltb_lt in E.
  rewrite Hm3d by lia. reflexivity.
Qed.

Import ImageToPatches.

(** With a stride that is positive and at most the patch, the grid covers
    the axis. *)
Lemma grid_count_overlap (len p s : Z) :
  0 < len -> 0 < s <= p ->
  0 < grid_count len p s /\ len <= (grid_count len p s - 1) * s + p.
Proof.
  intros Hl Hs. unfold grid_count.
  guard_false (len <=? 0).
  destruct (len <=? p) eqn:E'.
  - apply Z.leb_le in E'. lia.
  - apply Z.leb_gt in E'.
    pose proof (Z.div_mod (len - p + s - 1) s ltac:(lia)).
    pose proof (Z.mod_pos_bound (len - p + s - 1) s ltac:(lia)).
    assert (0 <= (len - p + s - 1) / s) by (apply Z.div_pos; lia).
    nia.
Qed.

(** [_patch_maps] for sum and mean when the down ratio is 1. *)
Lemma patch_maps_blocks {M : Type} (self : Stitcher.t M) (a : attrs)
    (ts : list Tensor) (maps : Tensor) (ci H W c kh kw o nh nw : Z) :
  shape (Stitcher.image a) = [ci; H; W] ->
  String.eqb (reduction self) "max" = false ->
  Stitcher.overlap self = o ->
  down_ratio self = 1 ->
  Stitcher.size self = (kh, kw) ->
  _ncol a = nh -> _nrow a = nw ->
  torch_cat0 ts = Ok maps ->
  shape maps = [nh * nw; c; kh; kw] ->
  0 < c -> 0 < nh -> 0 < nw -> 0 <= o < kh -> o < kw ->
  0 <= H <= nh * kh - (nh - 1) * o ->
  0 <= W <= nw * kw - (nw - 1) * o ->
  exists r,
    _patch_maps self a ts = Ok r
    /\ shape r = [1; c; H; W]
    /\ forall cc y x,
         0 <= cc < c ->
         data r [0; cc; y; x]
         == Qsum (fun l =>
                    if in_block nw kh kw (kh - o) (kw - o) y x l
                    then data maps [l; cc; y - l / nw * (kh - o);
                                    x - l mod nw * (kw - o)]
                    else 0%Q) (Zrange (nh * nw)).
Proof.
  intros Himg Hred Hov Hdr Hsize Hncol Hnrow Hcat Hsh Hc Hn1 Hn2 Ho1 Ho2
    HH HW.
  destruct (fold_blocks maps c kh kw o nh nw Hsh Hc Hn1 Hn2 Ho1 Ho2)
    as (r & Hfold & Hrsh & Hdata).
  unfold _patch_maps. rewrite Himg, Hdr.
  rewrite !floordiv_pos by lia. cbn [bind]. cbv zeta.
  rewrite Hsize, Hov, Hncol, Hnrow. cbn [fst snd].
  rewrite !Z.div_1_r. rewrite Hcat. cbn [bind]. rewrite Hred, Hsh.
  cbn [hd]. rewrite Hfold. cbn [bind].
  unfold crop4. rewrite Hrsh.
  rewrite !slice_len_inside by lia. rewrite !Z.sub_0_r.
  eexists. split; [reflexivity|]. split; [reflexivity|].
  intros cc y x Hcc. cbn [data]. now apply Hdata.
Qed.

(** Every pixel of the image is covered by a patch. *)
Lemma cover_count_pos (nh nw kh kw o y x : Z) :
  0 < nh -> 0 < nw -> 0 <= o < kh -> o < kw ->
  0 <= y < (nh - 1) * (kh - o) + kh ->
  0 <= x < (nw - 1) * (kw - o) + kw ->
  (1 <= cover_count nh nw kh kw (kh - o) (kw - o) y x)%Q.
Proof.
  intros Hnh Hnw Ho1 Ho2 Hy Hx. unfold cover_count.
  set (bi := Z.min (y / (kh - o)) (nh - 1)).
  set (bj := Z.min (x / (kw - o)) (nw - 1)).
  pose proof (Z.div_mod y (kh - o) ltac:(lia)) as Hyd.
  pose proof (Z.mod_pos_bound y (kh - o) ltac:(lia)) as Hym.
  pose proof (Z.div_mod x (kw - o) ltac:(lia)) as Hxd.
  pose proof (Z.mod_pos_bound x (kw - o) ltac:(lia)) as Hxm.
  assert (Hyq : 0 <= y / (kh - o)) by (apply Z.div_pos; lia).
  assert (Hxq : 0 <= x / (kw - o)) by (apply Z.div_pos; lia).
  assert (Hbi : 0 <= bi < nh) by (unfold bi; lia).
  assert (Hbj : 0 <= bj < nw) by (unfold bj; lia).
  assert (Hwy : bi * (kh - o) <= y < bi * (kh - o) + kh).
  { unfold bi. destruct (Z.min_spec (y / (kh - o)) (nh - 1)) as [[? ->]|[? ->]];
      nia. }
  assert (Hwx : bj * (kw - o) <= x < bj * (kw - o) + kw).
  { unfold bj. destruct (Z.min_spec (x / (kw - o)) (nw - 1)) as [[? ->]|[? ->]];
      nia. }
  destruct (div_mod_unique bi bj nw Hbj) as [Hq Hr].
  set (g := fun l => if in_block nw kh kw (kh - o) (kw - o) y x l
                     then 1%Q else 0%Q).
  assert (Hg : g (bi * nw + bj) = 1%Q).
  { unfold g, in_block. rewrite Hq, Hr.
    replace ((0 <=? y - bi * (kh - o)) && (y - bi * (kh - o) <? kh)
             && (0 <=? x - bj * (kw - o)) && (x - bj * (kw - o) <? kw))
      with true; [reflexivity|].
    symmetry. rewrite !andb_true_iff, !Z.leb_le, !Z.ltb_lt. lia. }
  rewrite <- Hg. apply Qsum_ge_term.
  - intros i. unfold g. destruct (in_block _ _ _ _ _ _ _ _);
      unfold Qle; simpl; lia.
  - apply In_Zrange. nia.
Qed.

(** Concatenating tensors that hold [v] everywhere. *)
Lemma cat_data_const (v : Q) (ts : list Tensor) :
  Forall (fun u => forall idx, data u idx == v) ts ->
  forall l rest,
    0 <= l < fold_right Z.add 0 (map (fun u => hd 0 (shape u)) ts) ->
    cat_data ts (l :: rest) == v.
Proof.
  induction 1 as [|u ts Hu _ IH]; intros l rest Hl; simpl in Hl; [lia|].
  cbn [cat_data]. destruct (l <? hd 0 (shape u)) eqn:E.
  - apply Hu.
  - apply Z.ltb_ge in E. apply IH. lia.
Qed.

Lemma inference_cat_const (self : Stitcher.t (Tensor -> Tensor))
    (patches : Tensor) (N ci ph pw c kh kw : Z) (v : Q) :
  shape patches = [N; ci; ph; pw] ->
  0 < N -> 0 < batch_size self ->
  (forall b B, shape b = [B; ci; ph; pw] ->
               shape (model self b) = [B; c; kh; kw]) ->
  (forall b idx, data (model self b) idx == v) ->
  exists det_maps maps,
    _inference self patches = Ok det_maps
    /\ torch_cat0 det_maps = Ok maps
    /\ shape maps = [N; c; kh; kw]
    /\ forall l rest, 0 <= l < N -> data maps (l :: rest) == v.
Proof.
  intros Hsh HN Hbs Hmodel Hconst.
  destruct (inference_cat self patches N ci ph pw c kh kw Hsh HN Hbs Hmodel)
    as (det_maps & maps & Hinf & Hcat & Hmsh).
  exists det_maps, maps. repeat split; try assumption.
  intros l rest Hl.
  assert (Hall : Forall (fun u => exists n, shape u = n :: [c; kh; kw])
                   det_maps /\ det_maps <> []
                 /\ Forall (fun u => forall idx, data u idx == v) det_maps).
  { unfold _inference in Hinf.
    apply bind_inv_Ok in Hinf. destruct Hinf as (batches & Hload & Hloop).
    rewrite dense_inference_loop in Hloop. cbn [app] in Hloop.
    inversion Hloop; subst det_maps. clear Hloop.
    unfold DataLoader in Hload. rewrite Hsh in Hload.
    destruct (batch_size self <=? 0); [discriminate|].
    inversion Hload; subst batches; clear Hload.
    repeat split.
    - apply Forall_forall. intros u Hu. apply in_map_iff in Hu.
      destruct Hu as (b & <- & Hb). apply in_map_iff in Hb.
      destruct Hb as (i & <- & _). eexists. apply Hmodel.
      unfold narrow0. cbn [shape]. now rewrite Hsh.
    - assert (Hcnt : 0 < (N + batch_size self - 1) / batch_size self)
        by (apply Z.div_str_pos; lia).
      rewrite (Zrange_S _ Hcnt). discriminate.
    - apply Forall_forall. intros u Hu. apply in_map_iff in Hu.
      destruct Hu as (b & <- & _). apply Hconst. }
  destruct Hall as (Hshape & Hne & Hv).
  rewrite (torch_cat0_uniform _ _ Hne Hshape) in Hcat.
  inversion Hcat; subst maps. cbn [shape data] in *.
  apply cat_data_const; [exact Hv|].
  inversion Hmsh. lia.
Qed.

(** In mean mode with down ratio 1, [_reduce] divides every pixel by the
    number of patches that cover it. *)
Lemma reduce_mean_blocks {M : Type} (self : Stitcher.t M) (a : attrs)
    (m : Tensor) (ci H W kh kw o c : Z) :
  shape (Stitcher.image a) = [ci; H; W] ->
  2 <= ci -> 0 < H -> 0 < W -> 0 <= o < kh -> o < kw ->
  down_ratio self = 1 ->
  reduction self = "mean"%string ->
  Stitcher.overlap self = o ->
  Stitcher.size self = (kh, kw) ->
  _ncol a = grid_count H kh (kh - o) ->
  _nrow a = grid_count W kw (kw - o) ->
  shape m = [1; c; H; W] ->
  exists r,
    _reduce self a m = Ok r
    /\ shape r = shape m
    /\ forall cc y x,
         0 <= cc < c -> 0 <= y < H -> 0 <= x < W ->
         data r [0; cc; y; x]
         == data m [0; cc; y; x]
            / cover_count (grid_count H kh (kh - o)) (grid_count W kw (kw - o))
                kh kw (kh - o) (kw - o) y x.
Proof.
  intros Himg Hci HH HW Ho1 Ho2 Hdr Hred Hov Hsize Hncol Hnrow Hm.
  set (nh := grid_count H kh (kh - o)) in *.
  set (nw := grid_count W kw (kw - o)) in *.
  destruct (grid_count_overlap H kh (kh - o) HH ltac:(lia)) as [Hnh Hch].
  destruct (grid_count_overlap W kw (kw - o) HW ltac:(lia)) as [Hnw Hcw].
  fold nh in Hnh, Hch. fold nw in Hnw, Hcw.
  set (ones := const_tensor 1 [ci; H; W]).
  set (P := {| shape := [nh * nw; ci; kh; kw];
               data := fun idx =>
                 match idx with
                 | [l; ch; i; j] =>
                     if (l / nw * (kh - o) + i <? H)
                        && (l mod nw * (kw - o) + j <? W)
                     then data ones [ch; l / nw * (kh - o) + i;
                                     l mod nw * (kw - o) + j]
                     else 0%Q
                 | _ => 0%Q
                 end |}).
  assert (HP : make_patches
                 {| ImageToPatches.image := ones;
                    ImageToPatches.size := (kh, kw);
                    ImageToPatches.overlap := o |} = Ok (P, (nh, nw))).
  { unfold make_patches.
    cbn [ImageToPatches.image ImageToPatches.size ImageToPatches.overlap
         shape ones const_tensor].
    guard_false (kh - o <=? 0).
    guard_false (kw - o <=? 0).
    reflexivity. }
  set (chan := {| shape := [nh * nw; kh; kw];
                  data := fun idx =>
                    data P (firstn 1 idx ++ 1 :: skipn 1 idx) |}).
  assert (Hsel : select P 1 1 = Ok chan).
  { unfold select. cbn [shape P nth_error].
    replace ((- ci <=? 1) && (1 <? ci)) with true
      by (symmetry; rewrite andb_true_iff, Z.leb_le, Z.ltb_lt; lia).
    reflexivity. }
  set (f := fun i => unsqueeze0 (unsqueeze0 (row chan i))).
  set (maps1 := {| shape := [nh * nw; 1; kh; kw];
                   data := cat_data (map f (Zrange (nh * nw))) |}).
  assert (Hcat : torch_cat0 (map f (Zrange (nh * nw))) = Ok maps1).
  { rewrite (torch_cat0_uniform _ [1; kh; kw]).
    - unfold maps1. rewrite map_map.
      rewrite (sum_of_ones (fun i => hd 0 (shape (f i)))) by reflexivity.
      rewrite Zrange_length by nia. reflexivity.
    - rewrite Zrange_S by nia. discriminate.
    - apply Forall_forall. intros u Hu. apply in_map_iff in Hu.
      destruct Hu as (i & <- & _). exists 1. reflexivity. }
  destruct (patch_maps_blocks self a (map f (Zrange (nh * nw))) maps1
              ci H W 1 kh kw o nh nw)
    as (norm & Hnorm & Hnsh & Hndata);
    try assumption; try reflexivity; try lia.
  { now rewrite Hred. }
  assert (Hcount : forall y x, 0 <= y < H -> 0 <= x < W ->
            data norm [0; 0; y; x]
            == cover_count nh nw kh kw (kh - o) (kw - o) y x).
  { intros y x Hy Hx. rewrite Hndata by lia. unfold cover_count.
    apply Qsum_ext. intros l Hl. apply In_Zrange in Hl.
    destruct (in_block nw kh kw (kh - o) (kw - o) y x l) eqn:E;
      [|reflexivity].
    unfold in_block in E.
    rewrite !andb_true_iff, !Z.leb_le, !Z.ltb_lt in E.
    unfold maps1. cbn [data].
    replace (nh * nw) with (Z.of_nat (Z.to_nat (nh * nw))) by nia.
    rewrite cat_data_rows by (try reflexivity; nia).
    unfold f. cbn [data unsqueeze0 row tl chan firstn skipn app P].
    replace (l / nw * (kh - o) + (y - l / nw * (kh - o))) with y by lia.
    replace (l mod nw * (kw - o) + (x - l mod nw * (kw - o))) with x by lia.
    replace ((y <? H) && (x <? W)) with true
      by (symmetry; rewrite andb_true_iff, !Z.ltb_lt; lia).
    reflexivity. }
  unfold _reduce. rewrite Himg, Hdr. rewrite !floordiv_pos by lia.
  rewrite !Z.div_1_r. cbn [bind]. unfold torch_ones.
  rewrite torch_full_nonneg by (repeat constructor; lia). cbn [bind].
  rewrite Hred. cbn [String.eqb Ascii.eqb Bool.eqb].
  rewrite Hsize, Hov. cbn [fst snd]. rewrite ?Z.div_1_r.
  fold ones. rewrite HP. cbn [bind]. rewrite Hsel. cbn [bind].
  unfold tensor_iter. cbn [shape chan bind]. rewrite map_map. fold f.
  rewrite Hnorm. cbn [bind].
  unfold torch_div, pointwise. rewrite Hm, Hnsh.
  rewrite broadcast_shapes_channel. cbn [bind].
  eexists. split; [reflexivity|]. split; [reflexivity|].
  intros cc y x Hcc Hy Hx. cbn [data].
  rewrite broadcast_index_same by (repeat constructor; lia).
  rewrite broadcast_index_channel by lia.
  rewrite Hcount by lia. reflexivity.
Qed.

(** Mean reduction of a constant: for an image of at least two channels,
    down ratio 1 and a model that returns the value [v] everywhere, the
    mean-reduced map holds [v] at every pixel, in the regions where
    patches overlap too. *)
Lemma mean_of_constant (F_interpolate : Tensor -> Z -> Res Tensor)
    (model : Tensor -> Tensor) (img : Tensor)
    (ci H W kh kw o bs c : Z) (v : Q) :
  shape img = [ci; H; W] ->
  2 <= ci -> 0 < H -> 0 < W -> 0 <= o < kh -> o < kw -> 0 < bs -> 0 < c ->
  (forall b B, shape b = [B; ci; kh; kw] ->
               shape (model b) = [B; c; kh; kw]) ->
  (forall b idx, data (model b) idx == v) ->
  exists r,
    __call__ F_interpolate (dense_stitcher model (kh, kw) o bs 1 "mean") img
    = Ok r
    /\ shape r = [1; c; H; W]
    /\ forall cc y x,
         0 <= cc < c -> 0 <= y < H -> 0 <= x < W ->
         data r [0; cc; y; x] == v.
Proof.
  intros Himg Hci HH HW Ho1 Ho2 Hbs Hc Hmodel Hconst.
  set (nh := grid_count H kh (kh - o)).
  set (nw := grid_count W kw (kw - o)).
  destruct (grid_count_overlap H kh (kh - o) HH ltac:(lia)) as [Hnh Hch].
  destruct (grid_count_overlap W kw (kw - o) HW ltac:(lia)) as [Hnw Hcw].
  fold nh in Hnh, Hch. fold nw in Hnw, Hcw.
  set (self := dense_stitcher model (kh, kw) o bs 1 "mean").
  destruct (make_patches {| ImageToPatches.image := img;
                            ImageToPatches.size := (kh, kw);
                            ImageToPatches.overlap := o |})
    as [[patches [ncol nrow]]|e] eqn:HP.
  2:{ exfalso. revert HP. unfold make_patches.
      cbn [ImageToPatches.image ImageToPatches.size ImageToPatches.overlap].
      rewrite Himg.
      guard_false (kh - o <=? 0). guard_false (kw - o <=? 0).
      discriminate. }
  assert (Hgrid : ncol = nh /\ nrow = nw
                  /\ shape patches = [nh * nw; ci; kh; kw]).
  { revert HP. unfold make_patches.
    cbn [ImageToPatches.image ImageToPatches.size ImageToPatches.overlap].
    rewrite Himg.
    guard_false (kh - o <=? 0). guard_false (kw - o <=? 0).
    cbn [orb]. fold nh nw. intros HP. inversion HP; subst. auto. }
  destruct Hgrid as (-> & -> & Hpsh).
  destruct (inference_cat_const self patches (nh * nw) ci kh kw c kh kw v
              Hpsh ltac:(nia) Hbs Hmodel Hconst)
    as (det_maps & maps & Hinf & Hcat & Hmsh & Hmv).
  set (a := {| Stitcher.image := img; _ncol := nh; _nrow := nw |}).
  destruct (patch_maps_blocks self a det_maps maps ci H W c kh kw o nh nw)
    as (pm & Hpm & Hpmsh & Hpmd); try assumption; try reflexivity; try lia.
  destruct (reduce_mean_blocks self a pm ci H W kh kw o c)
    as (r & Hr & Hrsh & Hrd); try assumption; try reflexivity.
  exists r. split.
  { unfold __call__. fold self.
    cbn [Stitcher.size Stitcher.overlap self dense_stitcher].
    rewrite HP. cbn [bind]. fold self a.
    rewrite Hinf. cbn [bind]. rewrite Hpm. cbn [bind]. rewrite Hr.
    reflexivity. }
  split; [congruence|].
  intros cc y x Hcc Hy Hx. rewrite Hrd by assumption.
  fold nh nw. rewrite Hpmd by assumption.
  pose proof (cover_count_pos nh nw kh kw o y x Hnh Hnw Ho1 Ho2
                ltac:(lia) ltac:(lia)) as Hpos.
  assert (Hsum :
    Qsum (fun l => if in_block nw kh kw (kh - o) (kw - o) y x l
                   then data maps [l; cc; y - l / nw * (kh - o);
                                   x - l mod nw * (kw - o)]
                   else 0%Q) (Zrange (nh * nw))
    == v * cover_count nh nw kh kw (kh - o) (kw - o) y x).
  { unfold cover_count. rewrite <- Qsum_scale.
    apply Qsum_ext. intros l Hl. apply In_Zrange in Hl.
    destruct (in_block nw kh kw (kh - o) (kw - o) y x l).
    - rewrite Hmv by lia. ring.
    - ring. }
  rewrite Hsum. field. intros Hz. rewrite Hz in Hpos.
  revert Hpos. unfold Qle. simpl. lia.
Qed.

(** The end-to-end example on three channels: a 512x512 image, patches of
    256x256 with overlap 64, reduction mean and a model that returns
    ones; the stitched map has the size of the image and holds 1
    everywhere.  On one channel the same call raises. *)
Lemma call_512_three_channels_mean (F_interpolate : Tensor -> Z -> Res Tensor) :
  exists r,
    __call__ F_interpolate (ones_stitcher "mean" (256, 256) 64 1 1)
      (const_tensor 1 [3; 512; 512]) = Ok r
    /\ shape r = [1; 1; 512; 512]
    /\ forall y x, 0 <= y < 512 -> 0 <= x < 512 ->
         data r [0; 0; y; x] == 1.
Proof.
  destruct (mean_of_constant F_interpolate (constant_model 1 256 256)
              (const_tensor 1 [3; 512; 512]) 3 512 512 256 256 64 1 1 1)
    as (r & Hr & Hsh & Hd); try lia; try reflexivity.
  - intros b B Hb. unfold constant_model. cbn [shape const_tensor].
    now rewrite Hb.
  - exists r. split; [exact Hr|]. split; [exact Hsh|].
    intros y x Hy Hx. apply Hd; lia.
Qed.

End MeanFacts.

(** * Further properties of the stitchers *)

(** ** Batches and their outputs *)

Module BatchFacts.

Import InferenceFacts TensorFacts FoldFacts.

Lemma DataLoader_batches (patches : Tensor) (n bs : Z) (rest : list Z) :
  shape patches = n :: rest -> 0 < bs ->
  DataLoader patches bs
  = Ok (map (batch_of patches bs) (Zrange ((n + bs - 1) / bs))).
Proof.
  intros Hsh Hbs. unfold DataLoader, batch_of. rewrite Hsh.
  guard_false (bs <=? 0). reflexivity.
Qed.

(** Rows behind batches that are full are found by skipping them. *)
Lemma cat_data_skip (bs : Z) (ts1 ts2 : list Tensor) (l : Z) (r : list Z) :
  0 <= bs ->
  Forall (fun u => hd 0 (shape u) = bs) ts1 ->
  Z.of_nat (length ts1) * bs <= l ->
  cat_data (ts1 ++ ts2) (l :: r)
  = cat_data ts2 (l - Z.of_nat (length ts1) * bs :: r).
Proof.
  intros Hbs H. revert l.
  induction H as [|u ts1 Hu _ IH]; intros l Hl.
  - simpl. now rewrite Z.sub_0_r.
  - cbn [app cat_data]. rewrite Hu.
    cbn [length] in Hl.
    destruct (l <? bs) eqn:E; [apply Z.ltb_lt in E; nia|].
    rewrite IH by nia. f_equal. f_equal. cbn [length]. lia.
Qed.

(** X1: the dense [_inference] calls the model once per batch of
    [batch_size] consecutive patches and returns the outputs in order:
    there are ceil(N / batch_size) of them, and their concatenation holds
    N rows, of which row [l] is row [l mod batch_size] of the output for
    the batch of rank [l / batch_size]. *)
Theorem dense_inference_rows (self : Stitcher.t (Tensor -> Tensor))
    (patches : Tensor) (N : Z) (rest orest : list Z)
    (Hsh : shape patches = N :: rest)
    (HN : 0 < N) (Hbs : 0 < Stitcher.batch_size self)
    (Hmodel : forall b B, shape b = B :: rest ->
                          shape (Stitcher.model self b) = B :: orest) :
  exists det_maps maps,
    Stitcher._inference self patches = Ok det_maps
    /\ Z.of_nat (length det_maps)
       = (N + Stitcher.batch_size self - 1) / Stitcher.batch_size self
    /\ torch_cat0 det_maps = Ok maps
    /\ shape maps = N :: orest
    /\ forall l r,
         0 <= l < N ->
         data maps (l :: r)
         = data (Stitcher.model self
                   (batch_of patches (Stitcher.batch_size self)
                      (l / Stitcher.batch_size self)))
             (l mod Stitcher.batch_size self :: r).
Proof.
  set (bs := Stitcher.batch_size self) in *.
  set (nb := (N + bs - 1) / bs).
  set (g := fun i => Stitcher.model self (batch_of patches bs i)).
  assert (Hnb : 0 < nb) by (apply Z.div_str_pos; lia).
  assert (Hg : forall i, shape (g i) = Z.min bs (N - i * bs) :: orest).
  { intros i. unfold g. apply Hmodel. unfold batch_of, narrow0.
    cbn [shape]. now rewrite Hsh. }
  exists (map g (Zrange nb)). eexists.
  split.
  { rewrite (dense_inference self patches (map (batch_of patches bs)
                                              (Zrange nb))).
    - now rewrite map_map.
    - now apply DataLoader_batches with (rest := rest). }
  split; [rewrite length_map; apply Zrange_length; lia|].
  rewrite (torch_cat0_uniform _ orest).
  - split; [reflexivity|]. cbn [shape data]. split.
    + f_equal. rewrite map_map.
      rewrite (map_ext _ (fun i => Z.min bs (N - i * bs)))
        by (intros i; now rewrite Hg).
      apply (batch_sizes_sum bs (Z.to_nat N)); lia.
    + intros l r Hl.
      pose proof (Z.div_mod l bs ltac:(lia)) as Hd.
      pose proof (Z.mod_pos_bound l bs Hbs) as Hm.
      assert (Hq : 0 <= l / bs) by (apply Z.div_pos; lia).
      assert (Hlt : l / bs < nb).
      { unfold nb. replace (N + bs - 1) with (N - 1 + 1 * bs) by ring.
        rewrite Z.div_add by lia.
        assert (l / bs <= (N - 1) / bs) by (apply Z.div_le_mono; lia). lia. }
      replace nb with (l / bs + (nb - l / bs)) by ring.
      rewrite Zrange_app, map_app by lia.
      rewrite (cat_data_skip bs); try lia.
      * rewrite length_map, Zrange_length by lia.
        replace (l - l / bs * bs) with (l mod bs) by lia.
        rewrite (Zrange_S (nb - l / bs)) by lia. cbn [map cat_data].
        rewrite Z.add_0_r. fold (g (l / bs)). rewrite Hg. cbn [hd].
        destruct (l mod bs <? Z.min bs (N - l / bs * bs)) eqn:E;
          [reflexivity|].
        apply Z.ltb_ge in E. lia.
      * apply Forall_forall. intros u Hu. apply in_map_iff in Hu.
        destruct Hu as (i & <- & Hi). apply In_Zrange in Hi.
        rewrite Hg. cbn [hd]. nia.
      * rewrite length_map, Zrange_length by lia. lia.
  - rewrite (Zrange_S _ Hnb). discriminate.
  - apply Forall_forall. intros u Hu. apply in_map_iff in Hu.
    destruct Hu as (i & <- & _). rewrite Hg. eauto.
Qed.

(** Five patches in batches of two: three outputs, and row 3 of the
    concatenation is row 1 of the second output. *)
Lemma dense_inference_rows_example :
  let self := dense_stitcher (constant_model 7 2 2) (2, 2) 0 2 1 "sum" in
  let patches := const_tensor 1 [5; 3; 2; 2] in
  exists det_maps maps,
    Stitcher._inference self patches = Ok det_maps
    /\ Z.of_nat (length det_maps) = 3
    /\ torch_cat0 det_maps = Ok maps
    /\ shape maps = [5; 1; 2; 2]
    /\ forall l r,
         0 <= l < 5 ->
         data maps (l :: r)
         = data (constant_model 7 2 2 (batch_of patches 2 (l / 2)))
             (l mod 2 :: r).
Proof.
  intros self patches.
  apply (dense_inference_rows self patches 5 [3; 2; 2] [1; 2; 2]);
    try reflexivity.
  intros b B Hb. unfold self, dense_stitcher, constant_model.
  cbn [Stitcher.model shape const_tensor]. now rewrite Hb.
Defined.

(** X2: with batch size 1 the detection [_inference] returns one
    detection set per patch, in the order of the patches: the set that
    the model reports for that patch alone. *)
Theorem detection_inference_one_by_one (self : FasterRCNNStitcher.t)
    (patches : Tensor) (N : Z) (rest : list Z)
    (Hsh : shape patches = N :: rest)
    (Hbs : Stitcher.batch_size (FasterRCNNStitcher.base self) = 1)
    (Hmodel : forall b,
        hd 0 (shape b) = 1 ->
        length (Stitcher.model (FasterRCNNStitcher.base self) b) = 1%nat) :
  FasterRCNNStitcher._inference self patches
  = Ok (map (fun i =>
               hd no_detections
                 (Stitcher.model (FasterRCNNStitcher.base self)
                    (batch_of patches 1 i))) (Zrange N)).
Proof.
  unfold FasterRCNNStitcher._inference. rewrite Hbs.
  rewrite (DataLoader_batches patches N 1 rest Hsh) by lia. cbn [bind].
  replace ((N + 1 - 1) / 1) with N by (rewrite Z.div_1_r; lia).
  rewrite (detection_inference_loop_single _ _ [] no_detections).
  - cbn [app]. now rewrite map_map.
  - apply Forall_forall. intros b Hb. apply in_map_iff in Hb.
    destruct Hb as (i & <- & Hi). apply In_Zrange in Hi.
    apply Hmodel. unfold batch_of, narrow0. cbn [shape hd].
    rewrite Hsh. cbn [hd]. lia.
Qed.

Lemma detection_inference_one_by_one_example :
  let det_model := fun b : Tensor =>
    map (fun _ => {| boxes := [ {| x1 := 1; y1 := 2; x2 := 3; y2 := 4 |} ];
                     labels := [5]; scores := [1 # 2] |})
        (Zrange (hd 0 (shape b))) in
  let self :=
    {| FasterRCNNStitcher.base :=
         {| Stitcher.model := det_model;
            Stitcher.size := (4, 4);
            Stitcher.overlap := 1;
            Stitcher.batch_size := 1;
            Stitcher.down_ratio := 1;
            Stitcher.up := false;
            Stitcher.reduction := "sum";
            Stitcher.device := "cpu" |};
       FasterRCNNStitcher.nms_threshold := 1 # 2;
       FasterRCNNStitcher.score_threshold := 0 |} in
  let patches := const_tensor 1 [3; 3; 4; 4] in
  FasterRCNNStitcher._inference self patches
  = Ok (map (fun i => hd no_detections (det_model (batch_of patches 1 i)))
          (Zrange 3)).
Proof.
  intros det_model self patches.
  apply (detection_inference_one_by_one self patches 3 [3; 4; 4]);
    try reflexivity.
  intros b Hb. unfold self, det_model. cbn [Stitcher.model FasterRCNNStitcher.base].
  rewrite Hb. reflexivity.
Defined.

(** X3: the detection [_inference] raises a type error as soon as a batch
    holds two patches or more, that is when the batch size and the number
    of patches are both at least 2 and the model reports one detection
    set per patch. *)
Theorem detection_inference_type_error (self : FasterRCNNStitcher.t)
    (patches : Tensor) (N : Z) (rest : list Z)
    (Hsh : shape patches = N :: rest)
    (HN : 2 <= N)
    (Hbs : 2 <= Stitcher.batch_size (FasterRCNNStitcher.base self))
    (Hmodel : forall b,
        0 <= hd 0 (shape b) ->
        Z.of_nat (length (Stitcher.model (FasterRCNNStitcher.base self) b))
        = hd 0 (shape b)) :
  FasterRCNNStitcher._inference self patches = Raise TypeError.
Proof.
  unfold FasterRCNNStitcher._inference.
  set (bs := Stitcher.batch_size (FasterRCNNStitcher.base self)) in *.
  rewrite (DataLoader_batches patches N bs rest Hsh) by lia. cbn [bind].
  assert (Hcnt : 0 < (N + bs - 1) / bs) by (apply Z.div_str_pos; lia).
  rewrite (Zrange_S _ Hcnt). cbn [map].
  apply detection_inference_loop_raises.
  assert (Hhd : hd 0 (shape (batch_of patches bs 0)) = Z.min bs N).
  { unfold batch_of, narrow0. cbn [shape hd]. rewrite Hsh. cbn [hd].
    f_equal. lia. }
  specialize (Hmodel (batch_of patches bs 0)). rewrite Hhd in Hmodel.
  specialize (Hmodel ltac:(lia)). lia.
Qed.

Lemma detection_inference_type_error_example :
  let det_model := fun b : Tensor =>
    map (fun _ => no_detections) (Zrange (hd 0 (shape b))) in
  let self :=
    {| FasterRCNNStitcher.base :=
         {| Stitcher.model := det_model;
            Stitcher.size := (4, 4);
            Stitcher.overlap := 1;
            Stitcher.batch_size := 4;
            Stitcher.down_ratio := 1;
            Stitcher.up := false;
            Stitcher.reduction := "sum";
            Stitcher.device := "cpu" |};
       FasterRCNNStitcher.nms_threshold := 1 # 2;
       FasterRCNNStitcher.score_threshold := 0 |} in
  FasterRCNNStitcher._inference self (const_tensor 1 [7; 3; 4; 4])
  = Raise TypeError.
Proof.
  intros det_model self.
  apply (detection_inference_type_error self _ 7 [3; 4; 4]);
    try reflexivity; try (cbn; lia).
  intros b Hb. unfold self, det_model.
  cbn [Stitcher.model FasterRCNNStitcher.base].
  rewrite length_map. now apply Zrange_length.
Defined.

End BatchFacts.

(** ** The max reduction on any input *)

Module MaxFoldMore.

Import InferenceFacts TensorFacts ChannelFacts MaxFoldFacts Stitcher.

Lemma slice_assign_shape (p : Tensor) (a b c d : Z) (m p' : Tensor) :
  slice_assign p a b c d m = Ok p' -> shape p' = shape p.
Proof.
  unfold slice_assign.
  destruct (shape p) as [|n [|ch [|H [|W [|x s]]]]]; try discriminate.
  destruct (broadcast_shapes _ _) as [sh|e]; [|discriminate].
  destruct (list_eqb sh _); [|discriminate].
  intros E. inversion E. reflexivity.
Qed.

Lemma torch_max_same_shape (out p r : Tensor) :
  shape p = shape out ->
  torch_max out p = Ok r ->
  shape r = shape out
  /\ forall idx, in_bounds (shape out) idx ->
       data r idx = Qmax (data out idx) (data p idx).
Proof.
  intros Hp. unfold torch_max, pointwise. rewrite Hp.
  rewrite broadcast_shapes_refl. cbn [bind].
  intros E. inversion E. cbn [shape data]. split; [reflexivity|].
  intros idx Hb. now rewrite (broadcast_index_same _ _ Hb).
Qed.

(** No turn of the loop makes an entry negative. *)
Lemma max_fold_loop_nonneg (locs : list ((Z * Z) * (Z * Z))) :
  forall (ms : list Tensor) (out r : Tensor),
    (forall idx, in_bounds (shape out) idx -> (0 <= data out idx)%Q) ->
    max_fold_loop out locs ms = Ok r ->
    shape r = shape out
    /\ forall idx, in_bounds (shape r) idx -> (0 <= data r idx)%Q.
Proof.
  induction locs as [|loc locs IH]; intros ms out r Hout H.
  - inversion H; subst. auto.
  - destruct ms as [|m ms]; [inversion H; subst; auto|].
    cbn [max_fold_loop] in H.
    apply bind_inv_Ok in H. destruct H as (z & Hz & H).
    apply bind_inv_Ok in H. destruct H as (p & Hp & H).
    apply bind_inv_Ok in H. destruct H as (out' & Hmax & H).
    apply torch_full_Ok in Hz. subst z.
    apply slice_assign_shape in Hp. cbn [shape const_tensor] in Hp.
    destruct (torch_max_same_shape out p out' Hp Hmax) as [Hsh Hd].
    destruct (IH ms out' r) as [Hr Hn]; [|exact H|].
    + intros idx Hb. rewrite Hsh in Hb. rewrite Hd by exact Hb.
      eapply Qle_trans; [apply Hout; exact Hb | apply Q.le_max_l].
    + split; [congruence | exact Hn].
Qed.

(** X4: whatever the patches hold, a map that [_max_fold] returns has one
    row, the channels of the patches and the requested size, and none of
    its entries is negative. *)
Theorem max_fold_never_negative (maps : Tensor)
    (output_size kernel_size stride : Z * Z) (r : Tensor)
    (Hr : _max_fold maps output_size kernel_size stride = Ok r) :
  (exists c, nth_error (shape maps) 1 = Some c
             /\ shape r = [1; c; fst output_size; snd output_size])
  /\ forall idx, in_bounds (shape r) idx -> (0 <= data r idx)%Q.
Proof.
  unfold _max_fold in Hr.
  destruct (nth_error (shape maps) 1) as [c|]; [|discriminate].
  apply bind_inv_Ok in Hr. destruct Hr as (out & Hout & Hr).
  apply bind_inv_Ok in Hr. destruct Hr as (fh & _ & Hr).
  apply bind_inv_Ok in Hr. destruct Hr as (locs & _ & Hr).
  apply bind_inv_Ok in Hr. destruct Hr as (ms & _ & Hr).
  apply torch_full_Ok in Hout. subst out.
  apply max_fold_loop_nonneg in Hr.
  - destruct Hr as [Hsh Hn]. split; [|exact Hn].
    exists c. split; [reflexivity | exact Hsh].
  - intros idx _. apply Qle_refl.
Qed.

Lemma max_fold_never_negative_example :
  match _max_fold (two_patches (-2) (-1)) (2, 5) (2, 3) (1, 2) with
  | Ok r => forall idx, in_bounds (shape r) idx -> (0 <= data r idx)%Q
  | Raise _ => False
  end.
Proof.
  destruct (_max_fold (two_patches (-2) (-1)) (2, 5) (2, 3) (1, 2))
    as [r|e] eqn:E.
  - exact (proj2 (max_fold_never_negative _ _ _ _ r E)).
  - assert (Hok : match _max_fold (two_patches (-2) (-1)) (2, 5) (2, 3)
                          (1, 2) with
                  | Ok _ => true
                  | Raise _ => false
                  end = true) by (vm_compute; reflexivity).
    rewrite E in Hok. discriminate Hok.
Defined.

(** The loop stops with the shorter of the windows and the patches. *)
Lemma max_fold_loop_zip (locs : list ((Z * Z) * (Z * Z))) :
  forall (ms : list Tensor) (out : Tensor),
    max_fold_loop out locs ms
    = max_fold_loop out (map fst (combine locs ms))
        (map snd (combine locs ms)).
Proof.
  induction locs as [|loc locs IH]; intros [|m ms] out; try reflexivity.
  cbn [combine map fst snd max_fold_loop].
  destruct (torch_zeros (shape out)) as [z|e]; [|reflexivity]. cbn [bind].
  destruct (slice_assign z _ _ _ _ m) as [p|e]; [|reflexivity]. cbn [bind].
  destruct (torch_max out p) as [o|e]; [|reflexivity]. cbn [bind].
  apply IH.
Qed.

Lemma max_fold_fn_no_overlap (n k : Z) :
  0 < n -> 0 < k ->
  max_fold_fn (n * k) k k
  = Ok (map (fun i => (i * k, i * k + k)) (Zrange (n - 1))).
Proof.
  intros Hn Hk. unfold max_fold_fn, py_range.
  guard_false (k =? 0).
  destruct (0 <? k) eqn:E; [|apply Z.ltb_ge in E; lia].
  replace ((n * k - 0 + k - 1) / k) with n
    by (apply Z.div_unique with (r := k - 1); lia).
  cbn [bind]. rewrite map_map, removelast_map.
  replace n with (n - 1 + 1) at 1 by ring.
  rewrite Zrange_succ, removelast_last by lia.
  reflexivity.
Qed.

(** X5: when the stride is the kernel (no overlap), [_max_fold] computes
    one window fewer than there are patches in each direction.  The call
    returns, but nothing is written in the last band of rows and in the
    last band of columns of the map: it holds 0 there, whatever the
    patches hold. *)
Theorem max_fold_without_overlap_band (maps : Tensor)
    (N C kh kw nh nw : Z)
    (Hsh : shape maps = [N; C; kh; kw])
    (HC : 0 <= C) (Hkh : 0 < kh) (Hkw : 0 < kw)
    (Hnh : 0 < nh) (Hnw : 0 < nw) :
  exists r,
    _max_fold maps (nh * kh, nw * kw) (kh, kw) (kh, kw) = Ok r
    /\ shape r = [1; C; nh * kh; nw * kw]
    /\ forall c y x,
         0 <= c < C -> 0 <= y < nh * kh -> 0 <= x < nw * kw ->
         (nh - 1) * kh <= y \/ (nw - 1) * kw <= x ->
         data r [0; c; y; x] == 0.
Proof.
  unfold _max_fold. rewrite Hsh. cbn [nth_error fst snd].
  unfold torch_zeros. rewrite torch_full_nonneg by (repeat constructor; nia).
  cbn [bind]. rewrite !max_fold_fn_no_overlap by lia. cbn [bind].
  rewrite max_fold_locs_Ok. cbn [bind].
  unfold tensor_iter. rewrite Hsh. cbn [bind].
  rewrite max_fold_loop_zip.
  set (locs := flat_map _ _). set (rows := map (row maps) (Zrange N)).
  assert (Hlocs : forall loc, In loc locs ->
            exists i j, 0 <= i < nh - 1 /\ 0 <= j < nw - 1
                        /\ loc = ((i * kh, i * kh + kh), (j * kw, j * kw + kw))).
  { intros loc Hloc. apply in_flat_map in Hloc.
    destruct Hloc as (h & Hh & Hloc).
    apply in_map_iff in Hloc. destruct Hloc as (w & <- & Hw).
    apply in_map_iff in Hh. destruct Hh as (i & <- & Hi).
    apply in_map_iff in Hw. destruct Hw as (j & <- & Hj).
    apply In_Zrange in Hi, Hj. exists i, j. auto. }
  assert (Hps : Forall (placeable C (nh * kh) (nw * kw)) (combine locs rows)).
  { apply Forall_forall. intros [loc m] Hp.
    pose proof (in_combine_l _ _ _ _ Hp) as Hl.
    pose proof (in_combine_r _ _ _ _ Hp) as Hm.
    destruct (Hlocs loc Hl) as (i & j & Hi & Hj & ->).
    apply in_map_iff in Hm. destruct Hm as (l & <- & _).
    unfold placeable. cbn [fst snd row shape]. rewrite Hsh. cbn [tl].
    replace (i * kh + kh - i * kh) with kh by lia.
    replace (j * kw + kw - j * kw) with kw by lia.
    split; [reflexivity | nia]. }
  destruct (max_fold_loop_assembles C (nh * kh) (nw * kw) HC
              ltac:(nia) ltac:(nia) (combine locs rows) []
              (const_tensor 0 [1; C; nh * kh; nw * kw]) Hps)
    as (r & Hr & Hrsh & Hinv).
  { split; [reflexivity|]. intros c y x _ _ _. cbn [const_tensor data].
    split; [apply Qle_refl|]. split; [intros p []|]. left. reflexivity. }
  exists r. split; [exact Hr|]. split; [exact Hrsh|].
  intros c y x Hc Hy Hx Hband.
  destruct (Hinv c y x Hc Hy Hx) as (_ & _ & [Hz | (p & Hp & Hw & _)]);
    [exact Hz|].
  exfalso. cbn [app] in Hp. destruct p as [loc m].
  pose proof (in_combine_l _ _ _ _ Hp) as Hl.
  destruct (Hlocs loc Hl) as (i & j & Hi & Hj & ->).
  unfold in_window in Hw. cbn [fst snd] in Hw. nia.
Qed.

(** Four patches of ones for a map of 4x4 pixels: the map holds 0 in its
    last two rows and columns. *)
Lemma max_fold_without_overlap_band_example :
  exists r,
    _max_fold (const_tensor 1 [4; 1; 2; 2]) (4, 4) (2, 2) (2, 2) = Ok r
    /\ shape r = [1; 1; 4; 4]
    /\ data r [0; 0; 3; 0] == 0
    /\ data r [0; 0; 1; 2] == 0.
Proof.
  destruct (max_fold_without_overlap_band (const_tensor 1 [4; 1; 2; 2])
              4 1 2 2 2 2) as (r & Hr & Hsh & Hd);
    try lia; [reflexivity|].
  exists r. split; [exact Hr|]. split; [exact Hsh|].
  split; apply Hd; lia.
Defined.

End MaxFoldMore.

(** ** Dense calls with overlap *)

Module DenseCallFacts.

Import InferenceFacts TensorFacts ChannelFacts MaxFoldFacts FoldFacts
  MeanFacts Stitcher ImageToPatches.

(** The first steps of a dense call with down ratio 1: the patches of the
    grid and one row of output per patch. *)
Lemma dense_call_prefix (model : Tensor -> Tensor) (img : Tensor)
    (ci H W kh kw o bs c : Z) (red : string) :
  shape img = [ci; H; W] ->
  0 < H -> 0 < W -> 0 <= o < kh -> o < kw -> 0 < bs ->
  (forall b B, shape b = [B; ci; kh; kw] ->
               shape (model b) = [B; c; kh; kw]) ->
  let nh := grid_count H kh (kh - o) in
  let nw := grid_count W kw (kw - o) in
  exists patches det_maps maps,
    make_patches {| ImageToPatches.image := img;
                    ImageToPatches.size := (kh, kw);
                    ImageToPatches.overlap := o |} = Ok (patches, (nh, nw))
    /\ _inference (dense_stitcher model (kh, kw) o bs 1 red) patches
       = Ok det_maps
    /\ torch_cat0 det_maps = Ok maps
    /\ shape maps = [nh * nw; c; kh; kw]
    /\ (forall v, (forall b idx, data (model b) idx == v) ->
                  forall l rest, 0 <= l < nh * nw -> data maps (l :: rest) == v).
Proof.
  intros Himg HH HW Ho1 Ho2 Hbs Hmodel nh nw.
  destruct (grid_count_overlap H kh (kh - o) HH ltac:(lia)) as [Hnh _].
  destruct (grid_count_overlap W kw (kw - o) HW ltac:(lia)) as [Hnw _].
  fold nh in Hnh. fold nw in Hnw.
  set (patches :=
         {| shape := [nh * nw; ci; kh; kw];
            data := fun idx =>
              match idx with
              | [l; ch; i; j] =>
                  if (l / nw * (kh - o) + i <? H)
                     && (l mod nw * (kw - o) + j <? W)
                  then data img [ch; l / nw * (kh - o) + i;
                                 l mod nw * (kw - o) + j]
                  else 0%Q
              | _ => 0%Q
              end |}).
  assert (HP : make_patches {| ImageToPatches.image := img;
                               ImageToPatches.size := (kh, kw);
                               ImageToPatches.overlap := o |}
               = Ok (patches, (nh, nw))).
  { unfold make_patches.
    cbn [ImageToPatches.image ImageToPatches.size ImageToPatches.overlap].
    rewrite Himg.
    guard_false (kh - o <=? 0). guard_false (kw - o <=? 0). reflexivity. }
  set (self := dense_stitcher model (kh, kw) o bs 1 red).
  destruct (inference_cat self patches (nh * nw) ci kh kw c kh kw
              eq_refl ltac:(nia) Hbs Hmodel)
    as (det_maps & maps & Hinf & Hcat & Hmsh).
  exists patches, det_maps, maps.
  repeat split; try assumption.
  intros v Hconst l rest Hl.
  destruct (inference_cat_const self patches (nh * nw) ci kh kw c kh kw v
              eq_refl ltac:(nia) Hbs Hmodel Hconst)
    as (det_maps' & maps' & Hinf' & Hcat' & _ & Hv).
  rewrite Hinf in Hinf'. inversion Hinf'; subst det_maps'.
  rewrite Hcat in Hcat'. inversion Hcat'; subst maps'.
  now apply Hv.
Qed.

(** X6: a dense call with down ratio 1 on an image of at least two
    channels returns, in sum mode, at every pixel the sum of the outputs
    of the patches that cover it (overlap-add), and, in mean mode, that
    sum divided by the number of covering patches, which is never 0: the
    average of the covering patches. *)
Theorem sum_and_mean_with_overlap
    (F_interpolate : Tensor -> Z -> Res Tensor) (model : Tensor -> Tensor)
    (img : Tensor) (ci H W kh kw o bs c : Z)
    (Himg : shape img = [ci; H; W])
    (Hci : 2 <= ci) (HH : 0 < H) (HW : 0 < W)
    (Ho1 : 0 <= o < kh) (Ho2 : o < kw) (Hbs : 0 < bs) (Hc : 0 < c)
    (Hmodel : forall b B, shape b = [B; ci; kh; kw] ->
                          shape (model b) = [B; c; kh; kw]) :
  sum_and_mean_calls F_interpolate model img H W kh kw o bs c.
Proof.
  unfold sum_and_mean_calls. cbv zeta.
  set (nh := grid_count H kh (kh - o)).
  set (nw := grid_count W kw (kw - o)).
  destruct (grid_count_overlap H kh (kh - o) HH ltac:(lia)) as [Hnh Hch].
  destruct (grid_count_overlap W kw (kw - o) HW ltac:(lia)) as [Hnw Hcw].
  fold nh in Hnh, Hch. fold nw in Hnw, Hcw.
  destruct (dense_call_prefix model img ci H W kh kw o bs c "sum"
              Himg HH HW Ho1 Ho2 Hbs Hmodel)
    as (patches & det_maps & maps & HP & Hinf & Hcat & Hmsh & _).
  fold nh nw in HP, Hmsh.
  set (ssum := dense_stitcher model (kh, kw) o bs 1 "sum") in *.
  set (smean := dense_stitcher model (kh, kw) o bs 1 "mean").
  set (a := {| Stitcher.image := img; _ncol := nh; _nrow := nw |}).
  destruct (patch_maps_blocks ssum a det_maps maps ci H W c kh kw o nh nw)
    as (ps & Hps & Hpssh & Hpsd); try assumption; try reflexivity; try lia.
  destruct (patch_maps_blocks smean a det_maps maps ci H W c kh kw o nh nw)
    as (pm & Hpm & Hpmsh & Hpmd); try assumption; try reflexivity; try lia.
  destruct (reduce_plain ssum a ps ci H W c)
    as (rs & Hrs & Hrssh & Hrsd); try assumption; try reflexivity;
    try (cbn [down_ratio ssum dense_stitcher]; rewrite ?Z.div_1_r; lia).
  { cbn [down_ratio ssum dense_stitcher]. now rewrite !Z.div_1_r. }
  destruct (reduce_mean_blocks smean a pm ci H W kh kw o c)
    as (rm & Hrm & Hrmsh & Hrmd); try assumption; try reflexivity.
  exists patches, maps, rs, rm.
  split; [exact HP|].
  split; [rewrite Hinf; exact Hcat|].
  split; [exact Hmsh|].
  split.
  { unfold __call__. fold ssum.
    cbn [Stitcher.size Stitcher.overlap ssum dense_stitcher].
    rewrite HP. cbn [bind]. fold ssum a.
    rewrite Hinf. cbn [bind]. rewrite Hps. cbn [bind]. rewrite Hrs.
    reflexivity. }
  split.
  { unfold __call__. fold smean.
    cbn [Stitcher.size Stitcher.overlap smean dense_stitcher].
    rewrite HP. cbn [bind]. fold smean a.
    change (_inference smean patches) with (_inference ssum patches).
    rewrite Hinf. cbn [bind]. rewrite Hpm. cbn [bind]. rewrite Hrm.
    reflexivity. }
  split; [congruence|]. split; [congruence|].
  intros cc y x Hcc Hy Hx. unfold overlap_add. split; [|split].
  - rewrite Hrsd by (rewrite Hpssh; repeat constructor; lia).
    now apply Hpsd.
  - apply cover_count_pos; lia.
  - rewrite Hrmd by assumption. fold nh nw.
    rewrite Hpmd by assumption. reflexivity.
Qed.

(** A 2-channel image of 5x5 pixels, patches of 3x3 that overlap by 1. *)
Lemma sum_and_mean_with_overlap_example :
  sum_and_mean_calls (fun x _ => Ok x) (constant_model 7 3 3)
    (const_tensor (1 # 2) [2; 5; 5]) 5 5 3 3 1 2 1.
Proof.
  apply (sum_and_mean_with_overlap (fun x _ => Ok x) (constant_model 7 3 3)
           (const_tensor (1 # 2) [2; 5; 5]) 2);
    try lia; try reflexivity.
  intros b B Hb. unfold constant_model. cbn [shape const_tensor].
  now rewrite Hb.
Defined.

(** X7: for an image of at least two channels, down ratio 1 and a model
    that returns the value [v] everywhere, the mean-reduced map of a call
    has the size of the image and holds [v] at every pixel, also where
    patches overlap: the normalisation cancels the number of covering
    patches. *)
Theorem mean_reduction_of_constant
    (F_interpolate : Tensor -> Z -> Res Tensor) (model : Tensor -> Tensor)
    (img : Tensor) (ci H W kh kw o bs c : Z) (v : Q)
    (Himg : shape img = [ci; H; W])
    (Hci : 2 <= ci) (HH : 0 < H) (HW : 0 < W)
    (Ho1 : 0 <= o < kh) (Ho2 : o < kw) (Hbs : 0 < bs) (Hc : 0 < c)
    (Hmodel : forall b B, shape b = [B; ci; kh; kw] ->
                          shape (model b) = [B; c; kh; kw])
    (Hconst : forall b idx, data (model b) idx == v) :
  exists r,
    __call__ F_interpolate (dense_stitcher model (kh, kw) o bs 1 "mean") img
    = Ok r
    /\ shape r = [1; c; H; W]
    /\ forall cc y x,
         0 <= cc < c -> 0 <= y < H -> 0 <= x < W ->
         data r [0; cc; y; x] == v.
Proof.
  exact (mean_of_constant F_interpolate model img ci H W kh kw o bs c v
           Himg Hci HH HW Ho1 Ho2 Hbs Hc Hmodel Hconst).
Qed.

(** A 3-channel image of 512x512 pixels, patches of 256x256 that overlap
    by 64 and a model that returns ones. *)
Lemma mean_reduction_of_constant_example :
  exists r,
    __call__ (fun x _ => Ok x) (ones_stitcher "mean" (256, 256) 64 1 1)
      (const_tensor 1 [3; 512; 512]) = Ok r
    /\ shape r = [1; 1; 512; 512]
    /\ forall cc y x,
         0 <= cc < 1 -> 0 <= y < 512 -> 0 <= x < 512 ->
         data r [0; cc; y; x] == 1.
Proof.
  apply (mean_reduction_of_constant (fun x _ => Ok x)
           (constant_model 1 256 256) (const_tensor 1 [3; 512; 512])
           3 512 512 256 256 64 1 1 1); try lia; try reflexivity.
  intros b B Hb. unfold constant_model. cbn [shape const_tensor].
  now rewrite Hb.
Defined.

(** X8: in sum and in max mode [_reduce] divides by a map of ones: for an
    image of at least two channels it returns a map of the same shape and
    the same values. *)
Theorem reduce_sum_max_unchanged {M : Type} (self : Stitcher.t M)
    (a : attrs) (m : Tensor) (ci H W c : Z)
    (Himg : shape (Stitcher.image a) = [ci; H; W])
    (Hci : 2 <= ci) (Hdr : 0 < down_ratio self)
    (Hred : reduction self <> "mean"%string)
    (Hm : shape m = [1; c; H / down_ratio self; W / down_ratio self])
    (HH : 0 <= H / down_ratio self) (HW : 0 <= W / down_ratio self) :
  exists r,
    _reduce self a m = Ok r
    /\ shape r = shape m
    /\ forall cc y x,
         in_bounds (shape m) [0; cc; y; x] ->
         data r [0; cc; y; x] == data m [0; cc; y; x].
Proof.
  apply (reduce_plain self a m ci H W c); try assumption.
  now apply String.eqb_neq.
Qed.

Lemma reduce_sum_max_unchanged_example :
  let self := ones_stitcher "max" (2, 2) 1 1 2 in
  let a := {| Stitcher.image := const_tensor 1 [3; 6; 8];
              _ncol := 5; _nrow := 7 |} in
  let m := {| shape := [1; 1; 3; 4];
              data := fun idx => inject_Z (nth 2 idx 0 - nth 3 idx 0) |} in
  exists r,
    _reduce self a m = Ok r
    /\ shape r = shape m
    /\ forall cc y x,
         in_bounds (shape m) [0; cc; y; x] ->
         data r [0; cc; y; x] == data m [0; cc; y; x].
Proof.
  intros self a m.
  apply (reduce_sum_max_unchanged self a m 3 6 8 1);
    try reflexivity; try (cbn; lia); discriminate.
Defined.

(** X9: nothing checks the down ratio at construction; with a down ratio
    of 0, [_patch_maps] raises a zero-division error on every image of
    three dimensions, and a dense call raises instead of returning a
    map. *)
Theorem call_with_down_ratio_zero
    (F_interpolate : Tensor -> Z -> Res Tensor)
    (self : Stitcher.t (Tensor -> Tensor)) (img : Tensor)
    (Hdr : down_ratio self = 0) :
  (forall a maps ci h w,
     shape (Stitcher.image a) = [ci; h; w] ->
     _patch_maps self a maps = Raise ZeroDivisionError)
  /\ exists e, __call__ F_interpolate self img = Raise e.
Proof.
  assert (Hpm : forall a maps ci h w,
            shape (Stitcher.image a) = [ci; h; w] ->
            _patch_maps self a maps = Raise ZeroDivisionError).
  { intros a maps ci h w Ha. unfold _patch_maps. rewrite Ha, Hdr.
    reflexivity. }
  split; [exact Hpm|].
  unfold __call__.
  destruct (make_patches _) as [[patches [ncol nrow]]|e] eqn:HP;
    [|cbn [bind]; eauto].
  apply make_patches_shape in HP. cbn [ImageToPatches.image] in HP.
  destruct HP as (ci & h & w & Himg & _). cbn [bind].
  destruct (_inference self patches) as [det_maps|e]; [|cbn [bind]; eauto].
  cbn [bind]. rewrite (Hpm _ _ ci h w) by exact Himg. cbn [bind]. eauto.
Qed.

Lemma call_with_down_ratio_zero_example :
  exists e,
    __call__ (fun x _ => Ok x) (ones_stitcher "sum" (2, 2) 0 1 0)
      (const_tensor 1 [3; 4; 4]) = Raise e.
Proof.
  exact (proj2 (call_with_down_ratio_zero (fun x _ => Ok x)
                  (ones_stitcher "sum" (2, 2) 0 1 0)
                  (const_tensor 1 [3; 4; 4]) eq_refl)).
Defined.

(** Every pixel of the grid lies in the window of a patch. *)
Lemma covering_block (nh nw kh kw o y x : Z) :
  0 < nh -> 0 < nw -> 0 <= o < kh -> o < kw ->
  0 <= y < (nh - 1) * (kh - o) + kh ->
  0 <= x < (nw - 1) * (kw - o) + kw ->
  exists l, 0 <= l < nh * nw
            /\ in_block nw kh kw (kh - o) (kw - o) y x l = true.
Proof.
  intros Hnh Hnw Ho1 Ho2 Hy Hx.
  pose proof (cover_count_pos nh nw kh kw o y x Hnh Hnw Ho1 Ho2 Hy Hx)
    as Hpos.
  destruct (existsb (in_block nw kh kw (kh - o) (kw - o) y x)
              (Zrange (nh * nw))) eqn:E.
  - apply existsb_exists in E. destruct E as (l & Hl & Hb).
    apply In_Zrange in Hl. eauto.
  - exfalso. unfold cover_count in Hpos.
    rewrite Qsum_zero in Hpos.
    + revert Hpos. unfold Qle. simpl. lia.
    + intros l Hl.
      destruct (in_block nw kh kw (kh - o) (kw - o) y x l) eqn:Hb;
        [|reflexivity].
      assert (existsb (in_block nw kh kw (kh - o) (kw - o) y x)
                (Zrange (nh * nw)) = true)
        by (apply existsb_exists; eauto).
      congruence.
Qed.

(** [_patch_maps] in max mode, with down ratio 1 and an overlap that is
    positive and at most the stride. *)
Lemma patch_maps_max {M : Type} (self : Stitcher.t M) (a : attrs)
    (ts : list Tensor) (maps : Tensor) (ci H W c kh kw o nh nw : Z) :
  shape (Stitcher.image a) = [ci; H; W] ->
  reduction self = "max"%string ->
  Stitcher.overlap self = o ->
  down_ratio self = 1 ->
  Stitcher.size self = (kh, kw) ->
  _ncol a = nh -> _nrow a = nw ->
  torch_cat0 ts = Ok maps ->
  shape maps = [nh * nw; c; kh; kw] ->
  0 <= c -> 0 < nh -> 0 < nw -> 0 < o <= kh - o -> o <= kw - o ->
  0 <= H <= nh * kh - (nh - 1) * o ->
  0 <= W <= nw * kw - (nw - 1) * o ->
  exists r,
    _patch_maps self a ts = Ok r
    /\ shape r = [1; c; H; W]
    /\ forall cc y x,
         0 <= cc < c -> 0 <= y < H -> 0 <= x < W ->
         max_with_zero
           (map (fun l =>
                   (((l / nw * (kh - o), l / nw * (kh - o) + kh),
                     (l mod nw * (kw - o), l mod nw * (kw - o) + kw)),
                    row maps l)) (Zrange (nh * nw)))
           cc y x (data r [0; cc; y; x]).
Proof.
  intros Himg Hred Hov Hdr Hsize Hncol Hnrow Hcat Hsh Hc Hn1 Hn2 Ho1 Ho2
    HH HW.
  set (oh := nh * kh - (nh - 1) * o) in *.
  set (ow := nw * kw - (nw - 1) * o) in *.
  set (ps := map _ (Zrange (nh * nw))).
  assert (Hps : Forall (placeable c oh ow) ps).
  { apply Forall_forall. intros p Hp. apply in_map_iff in Hp.
    destruct Hp as (l & <- & Hl). apply In_Zrange in Hl.
    assert (0 <= l / nw < nh).
    { split; [apply Z.div_pos; lia | apply Z.div_lt_upper_bound; lia]. }
    assert (0 <= l mod nw < nw) by (apply Z.mod_pos_bound; lia).
    unfold placeable, oh, ow. cbn [fst snd row shape]. rewrite Hsh.
    cbn [tl].
    replace (l / nw * (kh - o) + kh - l / nw * (kh - o)) with kh by lia.
    replace (l mod nw * (kw - o) + kw - l mod nw * (kw - o)) with kw by lia.
    split; [reflexivity | nia]. }
  destruct (max_fold_loop_assembles c oh ow Hc ltac:(unfold oh; nia)
              ltac:(unfold ow; nia) ps [] (const_tensor 0 [1; c; oh; ow]) Hps)
    as (r & Hr & Hrsh & Hinv).
  { split; [reflexivity|]. intros cc y x _ _ _. cbn [const_tensor data].
    split; [apply Qle_refl|]. split; [intros p []|]. left. reflexivity. }
  unfold _patch_maps. rewrite Himg, Hdr.
  rewrite !floordiv_pos by lia. cbn [bind]. cbv zeta.
  rewrite Hsize, Hov, Hncol, Hnrow. cbn [fst snd].
  rewrite !Z.div_1_r. rewrite Hcat. cbn [bind]. rewrite Hred.
  cbn [String.eqb Ascii.eqb Bool.eqb].
  rewrite (max_fold_unfold maps c kh kw o nh nw) by (assumption || lia).
  cbv zeta. fold oh ow ps. rewrite Hr. cbn [bind].
  unfold crop4. rewrite Hrsh.
  rewrite !slice_len_inside by lia. rewrite !Z.sub_0_r.
  eexists. split; [reflexivity|]. split; [reflexivity|].
  intros cc y x Hcc Hy Hx. cbn [data]. cbn [app] in Hinv.
  apply Hinv; lia.
Qed.

(** X10: for an image of at least two channels, down ratio 1, an overlap
    that is positive and at most the stride, and a model that returns the
    same value [v], not negative, everywhere, the max-reduced map of a
    call has the size of the image and holds [v] at every pixel. *)
Theorem max_reduction_of_constant
    (F_interpolate : Tensor -> Z -> Res Tensor) (model : Tensor -> Tensor)
    (img : Tensor) (ci H W kh kw o bs c : Z) (v : Q)
    (Himg : shape img = [ci; H; W])
    (Hci : 2 <= ci) (HH : 0 < H) (HW : 0 < W)
    (Ho1 : 0 < o <= kh - o) (Ho2 : o <= kw - o) (Hbs : 0 < bs) (Hc : 0 < c)
    (Hmodel : forall b B, shape b = [B; ci; kh; kw] ->
                          shape (model b) = [B; c; kh; kw])
    (Hconst : forall b idx, data (model b) idx == v)
    (Hv : (0 <= v)%Q) :
  exists r,
    __call__ F_interpolate (dense_stitcher model (kh, kw) o bs 1 "max") img
    = Ok r
    /\ shape r = [1; c; H; W]
    /\ forall cc y x,
         0 <= cc < c -> 0 <= y < H -> 0 <= x < W ->
         data r [0; cc; y; x] == v.
Proof.
  set (nh := grid_count H kh (kh - o)).
  set (nw := grid_count W kw (kw - o)).
  destruct (grid_count_overlap H kh (kh - o) HH ltac:(lia)) as [Hnh Hch].
  destruct (grid_count_overlap W kw (kw - o) HW ltac:(lia)) as [Hnw Hcw].
  fold nh in Hnh, Hch. fold nw in Hnw, Hcw.
  destruct (dense_call_prefix model img ci H W kh kw o bs c "max"
              Himg HH HW ltac:(lia) ltac:(lia) Hbs Hmodel)
    as (patches & det_maps & maps & HP & Hinf & Hcat & Hmsh & Hmv).
  fold nh nw in HP, Hmsh, Hmv. specialize (Hmv v Hconst).
  set (self := dense_stitcher model (kh, kw) o bs 1 "max") in *.
  set (a := {| Stitcher.image := img; _ncol := nh; _nrow := nw |}).
  destruct (patch_maps_max self a det_maps maps ci H W c kh kw o nh nw)
    as (pm & Hpm & Hpmsh & Hpmd); try assumption; try reflexivity; try lia.
  destruct (reduce_plain self a pm ci H W c)
    as (r & Hr & Hrsh & Hrd); try assumption; try reflexivity;
    try (cbn [down_ratio self dense_stitcher]; rewrite ?Z.div_1_r; lia).
  { cbn [down_ratio self dense_stitcher]. now rewrite !Z.div_1_r. }
  exists r. split.
  { unfold __call__. fold self.
    cbn [Stitcher.size Stitcher.overlap self dense_stitcher].
    rewrite HP. cbn [bind]. fold self a.
    rewrite Hinf. cbn [bind]. rewrite Hpm. cbn [bind]. rewrite Hr.
    reflexivity. }
  split; [congruence|].
  intros cc y x Hcc Hy Hx.
  rewrite Hrd by (rewrite Hpmsh; repeat constructor; lia).
  destruct (Hpmd cc y x Hcc Hy Hx) as (H0 & Hub & Hex).
  destruct (covering_block nh nw kh kw o y x Hnh Hnw ltac:(lia) ltac:(lia)
              ltac:(lia) ltac:(lia)) as (l0 & Hl0 & Hb0).
  unfold in_block in Hb0.
  rewrite !andb_true_iff, !Z.leb_le, !Z.ltb_lt in Hb0.
  assert (Hge : Qle v (data pm [0; cc; y; x])).
  { rewrite <- (Hmv l0 [cc; y - l0 / nw * (kh - o);
                        x - l0 mod nw * (kw - o)] Hl0).
    apply (Hub (((l0 / nw * (kh - o), l0 / nw * (kh - o) + kh),
                 (l0 mod nw * (kw - o), l0 mod nw * (kw - o) + kw)),
                row maps l0)).
    - apply in_map_iff. exists l0. split; [reflexivity|].
      now apply In_Zrange.
    - unfold in_window. cbn [fst snd]. lia. }
  destruct Hex as [Hz | (p & Hp & _ & Hval)].
  - rewrite Hz in *. apply Qle_antisym; assumption.
  - apply in_map_iff in Hp. destruct Hp as (l & <- & Hl).
    apply In_Zrange in Hl. rewrite Hval.
    unfold value_at. cbn [fst snd row data]. now apply Hmv.
Qed.

(** A 2-channel image of 5x5 pixels, patches of 3x3 that overlap by 1
    and a model that returns 7. *)
Lemma max_reduction_of_constant_example :
  exists r,
    __call__ (fun x _ => Ok x)
      (dense_stitcher (constant_model 7 3 3) (3, 3) 1 2 1 "max")
      (const_tensor (1 # 2) [2; 5; 5]) = Ok r
    /\ shape r = [1; 1; 5; 5]
    /\ forall cc y x,
         0 <= cc < 1 -> 0 <= y < 5 -> 0 <= x < 5 ->
         data r [0; cc; y; x] == 7.
Proof.
  apply (max_reduction_of_constant (fun x _ => Ok x) (constant_model 7 3 3)
           (const_tensor (1 # 2) [2; 5; 5]) 2 5 5 3 3 1 2 1 7);
    try lia; try reflexivity.
  - intros b B Hb. unfold constant_model. cbn [shape const_tensor].
    now rewrite Hb.
  - unfold Qle. simpl. lia.
Defined.

End DenseCallFacts.

(** ** Further properties of the detection stitcher *)

Module DetectionMore.

Import ImageToPatches FasterRCNNStitcher torchvision_ops.

Lemma input_count_firstn (limits : list BoundingBox) (maps : list DetMap) :
  length (flat_map (fun p => map (new_box (snd p)) (boxes (fst p)))
            (combine maps limits))
  = input_count (firstn (length limits) maps).
Proof.
  revert limits. induction maps as [|m maps IH]; intros [|l limits]; simpl;
    try reflexivity.
  rewrite length_app, length_map, IH. reflexivity.
Qed.

(** X11: [_patch_maps] pairs the detection sets with the limits in order
    and stops at the shorter of the two lists: the sets beyond the last
    limit and the limits beyond the last set play no part, and the
    stitched set holds exactly as many boxes as the paired sets. *)
Theorem patch_maps_pairs_in_order (limits : list BoundingBox)
    (maps : list DetMap) :
  _patch_maps limits maps = _patch_maps limits (firstn (length limits) maps)
  /\ _patch_maps limits maps
     = _patch_maps (firstn (length maps) limits) maps
  /\ length (boxes (_patch_maps limits maps))
     = input_count (firstn (length limits) maps).
Proof.
  split; [|split].
  - unfold _patch_maps. now rewrite <- combine_firstn_r.
  - unfold _patch_maps. now rewrite <- combine_firstn_l.
  - destruct (PatchMapsFacts.patch_maps_fields limits maps) as (-> & _).
    unfold torch_Tensor_boxes. rewrite length_map.
    apply input_count_firstn.
Qed.

(** X12: stitching is done patch by patch: the stitched set of two runs
    of patches is the stitched set of the first run followed by the one
    of the second run, field by field. *)
Theorem patch_maps_concatenates (limits1 limits2 : list BoundingBox)
    (maps1 maps2 : list DetMap)
    (Hlen : length maps1 = length limits1) :
  boxes (_patch_maps (limits1 ++ limits2) (maps1 ++ maps2))
  = boxes (_patch_maps limits1 maps1) ++ boxes (_patch_maps limits2 maps2)
  /\ labels (_patch_maps (limits1 ++ limits2) (maps1 ++ maps2))
     = labels (_patch_maps limits1 maps1)
       ++ labels (_patch_maps limits2 maps2)
  /\ scores (_patch_maps (limits1 ++ limits2) (maps1 ++ maps2))
     = scores (_patch_maps limits1 maps1)
       ++ scores (_patch_maps limits2 maps2).
Proof.
  destruct (PatchMapsFacts.patch_maps_fields (limits1 ++ limits2)
              (maps1 ++ maps2)) as (-> & -> & ->).
  destruct (PatchMapsFacts.patch_maps_fields limits1 maps1)
    as (-> & -> & ->).
  destruct (PatchMapsFacts.patch_maps_fields limits2 maps2)
    as (-> & -> & ->).
  rewrite (PatchMapsFacts.combine_app maps1 maps2 limits1 limits2 Hlen).
  unfold torch_Tensor_boxes, torch_Tensor_int, torch_Tensor.
  rewrite !flat_map_app, !map_app. auto.
Qed.

Lemma patch_maps_concatenates_example :
  let l1 := {| x_min := 0; y_min := 0; x_max := 256; y_max := 256 |} in
  let l2 := {| x_min := 192; y_min := 0; x_max := 448; y_max := 256 |} in
  let m1 := {| boxes := [ {| x1 := 10; y1 := 10; x2 := 20; y2 := 20 |} ];
               labels := [1]; scores := [9 # 10] |} in
  let m2 := {| boxes := [ {| x1 := 1; y1 := 2; x2 := 3; y2 := 4 |};
                          {| x1 := 5; y1 := 5; x2 := 9; y2 := 9 |} ];
               labels := [2; 3]; scores := [1 # 2; 1 # 3] |} in
  boxes (_patch_maps ([l1] ++ [l2]) ([m1] ++ [m2]))
  = boxes (_patch_maps [l1] [m1]) ++ boxes (_patch_maps [l2] [m2])
  /\ labels (_patch_maps ([l1] ++ [l2]) ([m1] ++ [m2]))
     = labels (_patch_maps [l1] [m1]) ++ labels (_patch_maps [l2] [m2])
  /\ scores (_patch_maps ([l1] ++ [l2]) ([m1] ++ [m2]))
     = scores (_patch_maps [l1] [m1]) ++ scores (_patch_maps [l2] [m2]).
Proof.
  intros l1 l2 m1 m2.
  apply (patch_maps_concatenates [l1] [l2] [m1] [m2]). reflexivity.
Defined.






Section DetectionInit.

Variable device_available : string -> bool.

(** X14: the constructor of the detection stitcher raises an assertion
    error for a model that is not a module and a runtime error for a
    device that is not available; otherwise it returns a stitcher with the
    given model, size, overlap, batch size and thresholds, whose
    reduction is the sum, whose down ratio is 1 and which does not
    upsample.  The stride is not checked. *)
Theorem detection_init_outcome (model : PyObject (Tensor -> list DetMap))
    (size : Z * Z) (overlap : Z) (nms_thr score_thr : Q) (batch_size : Z)
    (device_name : string) :
  match model with
  | OtherObject =>
      __init__ device_available model size overlap nms_thr score_thr
        batch_size device_name = Raise AssertionError
  | NNModule m =>
      if device_available device_name then
        exists self,
          __init__ device_available model size overlap nms_thr score_thr
            batch_size device_name = Ok self
          /\ Stitcher.model (base self) = m
          /\ Stitcher.size (base self) = size
          /\ Stitcher.overlap (base self) = overlap
          /\ Stitcher.batch_size (base self) = batch_size
          /\ Stitcher.down_ratio (base self) = 1
          /\ Stitcher.up (base self) = false
          /\ Stitcher.reduction (base self) = "sum"%string
          /\ Stitcher.device (base self) = device_name
          /\ nms_threshold self = nms_thr
          /\ score_threshold self = score_thr
      else
        __init__ device_available model size overlap nms_thr score_thr
          batch_size device_name = Raise RuntimeError
  end.
Proof.
  unfold __init__, Stitcher.__init__.
  destruct model as [m|]; [|reflexivity].
  cbn [existsb String.eqb assert bind].
  replace (existsb (String.eqb "sum") ["sum"; "mean"; "max"]%string)
    with true by reflexivity.
  cbn [assert bind].
  destruct (device_available device_name); [|reflexivity].
  eexists. cbn [bind]. split; [reflexivity|].
  cbn. repeat split.
Qed.

End DetectionInit.

Lemma get_limits_after_patches (itp : ImageToPatches.t) (patches : Tensor)
    (g : Z * Z) :
  make_patches itp = Ok (patches, g) ->
  exists limits,
    get_limits itp = Ok limits
    /\ Z.of_nat (length limits) = hd 0 (shape patches)
    /\ shape patches
       = [fst g * snd g; hd 0 (shape (ImageToPatches.image itp));
          fst (ImageToPatches.size itp); snd (ImageToPatches.size itp)].
Proof.
  unfold make_patches, get_limits.
  destruct (shape (ImageToPatches.image itp)) as [|c [|h [|w [|? ?]]]];
    try discriminate.
  destruct (ImageToPatches.size itp) as [ph pw].
  destruct ((ph - ImageToPatches.overlap itp <=? 0)
            || (pw - ImageToPatches.overlap itp <=? 0)) eqn:E;
    [discriminate|].
  intros H. inversion H; subst; clear H.
  eexists. split; [reflexivity|]. cbn [shape hd fst snd]. split; [|reflexivity].
  rewrite length_map.
  apply orb_false_iff in E. destruct E as [E1 E2].
  apply Z.leb_gt in E1, E2.
  apply InferenceFacts.Zrange_length.
  apply Z.mul_nonneg_nonneg; unfold grid_count;
    repeat match goal with
           | |- context [?a <=? ?b] => destruct (a <=? b) eqn:?
           end; try lia.
  - apply Z.leb_gt in Heqb, Heqb0.
    assert (0 <= (h - ph + (ph - ImageToPatches.overlap itp) - 1)
                 / (ph - ImageToPatches.overlap itp))
      by (apply Z.div_pos; lia). lia.
  - apply Z.leb_gt in Heqb, Heqb0.
    assert (0 <= (w - pw + (pw - ImageToPatches.overlap itp) - 1)
                 / (pw - ImageToPatches.overlap itp))
      by (apply Z.div_pos; lia). lia.
Qed.

Lemma patch_maps_nothing (limits : list BoundingBox) (maps : list DetMap) :
  Forall (fun m => m = no_detections) maps ->
  _patch_maps limits maps = no_detections.
Proof.
  intros H. unfold _patch_maps. cbv zeta.
  assert (E : fold_left patch_maps_step (combine maps limits) no_detections
              = no_detections).
  { generalize dependent limits.
    induction H as [|m maps -> _ IH]; intros limits; [reflexivity|].
    destruct limits as [|l limits]; [reflexivity|].
    cbn [combine fold_left patch_maps_step boxes labels scores app
         no_detections].
    apply IH. }
  unfold no_detections in E at 1. rewrite E. reflexivity.
Qed.

(** X15: a call of the detection stitcher with a batch size of 2 or more
    raises a type error as soon as the image is cut into 2 patches or
    more, for a model that reports one detection set per patch: the
    stitcher works with batch size 1 only. *)
Theorem detection_call_type_error (self : t) (img patches : Tensor)
    (g : Z * Z)
    (Hp : make_patches
            {| ImageToPatches.image := img;
               ImageToPatches.size := Stitcher.size (base self);
               ImageToPatches.overlap := Stitcher.overlap (base self) |}
          = Ok (patches, g))
    (HN : 2 <= hd 0 (shape patches))
    (Hbs : 2 <= Stitcher.batch_size (base self))
    (Hmodel : forall b,
        0 <= hd 0 (shape b) ->
        Z.of_nat (length (Stitcher.model (base self) b)) = hd 0 (shape b)) :
  __call__ self img = Raise TypeError.
Proof.
  unfold __call__. rewrite Hp. cbn [bind].
  destruct (get_limits_after_patches _ _ _ Hp) as (limits & _ & _ & Hsh).
  cbn [ImageToPatches.image ImageToPatches.size] in Hsh.
  rewrite Hsh in HN. cbn [hd] in HN.
  unfold _inference.
  set (bs := Stitcher.batch_size (base self)) in *.
  rewrite (BatchFacts.DataLoader_batches patches _ bs _ Hsh) by lia.
  cbn [bind].
  assert (Hcnt : 0 < (fst g * snd g + bs - 1) / bs)
    by (apply Z.div_str_pos; lia).
  rewrite (InferenceFacts.Zrange_S _ Hcnt). cbn [map].
  rewrite InferenceFacts.detection_inference_loop_raises; [reflexivity|].
  assert (Hhd : hd 0 (shape (batch_of patches bs 0))
                = Z.min bs (fst g * snd g)).
  { unfold batch_of, narrow0. cbn [shape hd]. rewrite Hsh. cbn [hd].
    f_equal. lia. }
  specialize (Hmodel (batch_of patches bs 0)). rewrite Hhd in Hmodel.
  specialize (Hmodel ltac:(lia)). lia.
Qed.

Lemma detection_call_type_error_example :
  let det_model := fun b : Tensor =>
    map (fun _ => no_detections) (Zrange (hd 0 (shape b))) in
  let self :=
    {| base := {| Stitcher.model := det_model;
                  Stitcher.size := (4, 4);
                  Stitcher.overlap := 1;
                  Stitcher.batch_size := 2;
                  Stitcher.down_ratio := 1;
                  Stitcher.up := false;
                  Stitcher.reduction := "sum";
                  Stitcher.device := "cpu" |};
       nms_threshold := 1 # 2;
       score_threshold := 0 |} in
  __call__ self (const_tensor 1 [3; 4; 7]) = Raise TypeError.
Proof.
  intros det_model self.
  eapply (detection_call_type_error self (const_tensor 1 [3; 4; 7])).
  - reflexivity.
  - cbn. lia.
  - cbn. lia.
  - intros b Hb. unfold self, det_model. cbn [Stitcher.model base].
    rewrite length_map. now apply InferenceFacts.Zrange_length.
Defined.

(** X16: with batch size 1, when the model finds nothing in any patch,
    the call returns the detection set without detections, whatever the
    image, the patch size and the thresholds. *)
Theorem detection_call_nothing_found (self : t) (img patches : Tensor)
    (g : Z * Z)
    (Hp : make_patches
            {| ImageToPatches.image := img;
               ImageToPatches.size := Stitcher.size (base self);
               ImageToPatches.overlap := Stitcher.overlap (base self) |}
          = Ok (patches, g))
    (Hbs : Stitcher.batch_size (base self) = 1)
    (Hmodel : forall b,
        hd 0 (shape b) = 1 ->
        Stitcher.model (base self) b = [no_detections]) :
  __call__ self img = Ok no_detections.
Proof.
  unfold __call__. rewrite Hp. cbn [bind].
  destruct (get_limits_after_patches _ _ _ Hp) as (limits & -> & _ & Hsh).
  unfold _inference. rewrite Hbs.
  rewrite (BatchFacts.DataLoader_batches patches _ 1 _ Hsh) by lia.
  cbn [bind].
  replace ((fst g * snd g + 1 - 1) / 1) with (fst g * snd g)
    by (rewrite Z.div_1_r; lia).
  rewrite (InferenceFacts.detection_inference_loop_single _ _ []
             no_detections).
  - cbn [bind app]. rewrite patch_maps_nothing; [reflexivity|].
    apply Forall_forall. intros m Hm.
    apply in_map_iff in Hm. destruct Hm as (b & <- & Hb).
    apply in_map_iff in Hb. destruct Hb as (i & <- & Hi).
    apply InferenceFacts.In_Zrange in Hi.
    rewrite Hmodel; [reflexivity|].
    unfold batch_of, narrow0. cbn [shape hd]. rewrite Hsh. cbn [hd]. lia.
  - apply Forall_forall. intros b Hb.
    apply in_map_iff in Hb. destruct Hb as (i & <- & Hi).
    apply InferenceFacts.In_Zrange in Hi.
    rewrite Hmodel; [reflexivity|].
    unfold batch_of, narrow0. cbn [shape hd]. rewrite Hsh. cbn [hd]. lia.
Qed.

Lemma detection_call_nothing_found_example :
  let self :=
    {| base := {| Stitcher.model := fun _ => [no_detections];
                  Stitcher.size := (4, 4);
                  Stitcher.overlap := 1;
                  Stitcher.batch_size := 1;
                  Stitcher.down_ratio := 1;
                  Stitcher.up := false;
                  Stitcher.reduction := "sum";
                  Stitcher.device := "cpu" |};
       nms_threshold := 1 # 2;
       score_threshold := 0 |} in
  __call__ self (const_tensor 1 [3; 4; 7]) = Ok no_detections.
Proof.
  intros self.
  eapply (detection_call_nothing_found self (const_tensor 1 [3; 4; 7])).
  - reflexivity.
  - reflexivity.
  - intros b _. reflexivity.
Defined.

End DetectionMore.

(** ** Order and separation of the reduced detections *)

Module SuppressionFacts.

Import ImageToPatches FasterRCNNStitcher torchvision_ops.

Lemma Qlt_bool_false_iff (a b : Q) : Qlt_bool a b = false <-> (b <= a)%Q.
Proof.
  split; intros H.
  - apply Qnot_lt_le. intros Hlt. apply Qlt_bool_iff in Hlt. congruence.
  - destruct (Qlt_bool a b) eqn:E; [|reflexivity].
    apply Qlt_bool_iff in E. exfalso. exact (Qle_not_lt _ _ H E).
Qed.

Section Lists.

Context {A B : Type}.

Lemma StronglySorted_remove (R : A -> A -> Prop) (a b : list A) (c : A) :
  StronglySorted R (a ++ c :: b) -> StronglySorted R (a ++ b).
Proof.
  induction a as [|x a IH]; simpl; intros H.
  - now apply StronglySorted_inv in H.
  - apply StronglySorted_inv in H. destruct H as [Hs Hx].
    constructor; [now apply IH|].
    apply Forall_app in Hx. destruct Hx as [Ha Hb].
    apply Forall_app. split; [exact Ha|]. now inversion Hb.
Qed.

Lemma StronglySorted_filter (R : A -> A -> Prop) (p : A -> bool)
    (l : list A) :
  StronglySorted R l -> StronglySorted R (filter p l).
Proof.
  induction 1 as [|x l _ IH Hx]; simpl; [constructor|].
  destruct (p x); [|exact IH].
  constructor; [exact IH|].
  apply Forall_forall. intros y Hy. apply filter_In in Hy.
  rewrite Forall_forall in Hx. now apply Hx.
Qed.

Lemma StronglySorted_map (R : B -> B -> Prop) (f : A -> B) (l : list A) :
  StronglySorted (fun x y => R (f x) (f y)) l <-> StronglySorted R (map f l).
Proof.
  induction l as [|x l IH]; simpl.
  - split; constructor.
  - split; intros H; apply StronglySorted_inv in H; destruct H as [Hs Hx];
      constructor; try (now apply IH).
    + apply Forall_forall. intros y Hy. apply in_map_iff in Hy.
      destruct Hy as (z & <- & Hz). rewrite Forall_forall in Hx.
      now apply Hx.
    + apply Forall_forall. intros y Hy. rewrite Forall_forall in Hx.
      apply Hx. now apply in_map.
Qed.

Lemma FOP_inv (R : A -> A -> Prop) (x : A) (l : list A) :
  ForallOrdPairs R (x :: l) -> Forall (R x) l /\ ForallOrdPairs R l.
Proof. intros H. inversion H; subst. auto. Qed.

Lemma FOP_snoc (R : A -> A -> Prop) (l : list A) (c : A) :
  ForallOrdPairs R l -> Forall (fun k => R k c) l ->
  ForallOrdPairs R (l ++ [c]).
Proof.
  induction 1 as [|x l Hx _ IH]; simpl; intros Hc.
  - constructor; constructor.
  - inversion Hc; subst. constructor; [|now apply IH].
    apply Forall_app. split; [exact Hx|]. now constructor.
Qed.

Lemma FOP_before (R : A -> A -> Prop) (a b : list A) (c : A) :
  ForallOrdPairs R (a ++ c :: b) -> Forall (fun k => R k c) a.
Proof.
  induction a as [|x a IH]; simpl; intros H; [constructor|].
  apply FOP_inv in H. destruct H as [Hx Hr].
  constructor; [|now apply IH].
  apply Forall_app in Hx. destruct Hx as [_ Hx]. now inversion Hx.
Qed.

Lemma FOP_filter (R : A -> A -> Prop) (p : A -> bool) (l : list A) :
  ForallOrdPairs R l -> ForallOrdPairs R (filter p l).
Proof.
  induction 1 as [|x l Hx _ IH]; simpl; [constructor|].
  destruct (p x); [|exact IH].
  constructor; [|exact IH].
  apply Forall_forall. intros y Hy. apply filter_In in Hy.
  rewrite Forall_forall in Hx. now apply Hx.
Qed.

Lemma FOP_map (R : B -> B -> Prop) (f : A -> B) (l : list A) :
  ForallOrdPairs (fun x y => R (f x) (f y)) l <-> ForallOrdPairs R (map f l).
Proof.
  induction l as [|x l IH]; simpl.
  - split; constructor.
  - split; intros H; inversion H as [|? ? Hx Hs]; subst;
      constructor; try (now apply IH).
    + apply Forall_forall. intros y Hy. apply in_map_iff in Hy.
      destruct Hy as (z & <- & Hz). rewrite Forall_forall in Hx.
      now apply Hx.
    + apply Forall_forall. intros y Hy. rewrite Forall_forall in Hx.
      apply Hx. now apply in_map.
Qed.

Lemma existsb_false_Forall (f : A -> bool) (l : list A) :
  existsb f l = false <-> Forall (fun x => f x = false) l.
Proof.
  induction l as [|x l IH]; simpl.
  - split; [constructor | reflexivity].
  - rewrite orb_false_iff, IH. split.
    + intros [H1 H2]. now constructor.
    + intros H. inversion H; subst. auto.
Qed.

Lemma nth_error_combine (a : list A) (b : list B) (i : nat) (x : A) (y : B) :
  nth_error a i = Some x -> nth_error b i = Some y ->
  nth_error (combine a b) i = Some (x, y).
Proof.
  revert b i. induction a as [|x' a IH]; intros [|y' b] [|i]; simpl;
    try discriminate.
  - intros H1 H2. congruence.
  - apply IH.
Qed.

Lemma nth_error_combine_inv (a : list A) (b : list B) (i : nat) (p : A * B) :
  nth_error (combine a b) i = Some p ->
  nth_error a i = Some (fst p) /\ nth_error b i = Some (snd p).
Proof.
  revert b i. induction a as [|x' a IH]; intros [|y' b] [|i]; simpl;
    try discriminate.
  - intros H. inversion H; subst. auto.
  - apply IH.
Qed.

Lemma index_select_combine (a : list A) (b : list B) (idx : list nat)
    (ra : list A) (rb : list B) :
  index_select a idx = Ok ra -> index_select b idx = Ok rb ->
  index_select (combine a b) idx = Ok (combine ra rb).
Proof.
  revert ra rb. induction idx as [|i idx IH]; simpl; intros ra rb Ha Hb.
  - inversion Ha; inversion Hb; subst. reflexivity.
  - destruct (nth_error a i) as [x|] eqn:Ea; [|discriminate].
    destruct (nth_error b i) as [y|] eqn:Eb; [|discriminate].
    destruct (index_select a idx) as [xs|] eqn:Xa; [|discriminate].
    destruct (index_select b idx) as [ys|] eqn:Xb; [|discriminate].
    cbn [bind] in Ha, Hb. inversion Ha; inversion Hb; subst.
    rewrite (nth_error_combine _ _ _ _ _ Ea Eb).
    rewrite (IH xs ys eq_refl eq_refl). reflexivity.
Qed.

Lemma seq_entries (l : list A) (s : nat) (c : nat * A) :
  In c (combine (seq s (length l)) l) ->
  (s <= fst c)%nat /\ nth_error l (fst c - s) = Some (snd c).
Proof.
  revert s. induction l as [|x l IH]; simpl; intros s H; [contradiction|].
  destruct H as [<- | H].
  - simpl. rewrite Nat.sub_diag. auto.
  - apply IH in H. destruct H as [Hle Hn]. split; [lia|].
    replace (fst c - s)%nat with (S (fst c - S s)) by lia. exact Hn.
Qed.

Lemma index_select_all_shift (pre l : list A) :
  index_select (pre ++ l) (seq (length pre) (length l)) = Ok l.
Proof.
  revert pre. induction l as [|x l IH]; intros pre; simpl; [reflexivity|].
  rewrite nth_error_app2 by lia. rewrite Nat.sub_diag. simpl.
  specialize (IH (pre ++ [x])). rewrite <- app_assoc in IH. simpl in IH.
  rewrite length_app in IH. simpl in IH. rewrite Nat.add_1_r in IH.
  now rewrite IH.
Qed.

Lemma index_select_all (l : list A) :
  index_select l (seq 0 (length l)) = Ok l.
Proof. exact (index_select_all_shift [] l). Qed.

End Lists.

Lemma nonzero_all_true (mask : list bool) :
  Forall (fun b => b = true) mask -> nonzero mask = seq 0 (length mask).
Proof.
  unfold nonzero. generalize 0%nat.
  induction mask as [|b mask IH]; intros s H; simpl; [reflexivity|].
  inversion H; subst. simpl. f_equal. now apply IH.
Qed.

(** The candidate [c] may stand before the candidate [d]. *)
Local Abbreviation by_score :=
  (fun c d : cand => (snd (snd d) <= snd (snd c))%Q).

(** The candidate [d] is not suppressed by the candidate [c]. *)
Local Abbreviation apart thr :=
  (fun c d : cand => (iou (fst (snd c)) (fst (snd d)) <= thr)%Q).

Lemma insert_desc_sorted (c : cand) (l : list cand) :
  StronglySorted by_score l -> StronglySorted by_score (insert_desc c l).
Proof.
  induction 1 as [|d l Hs IH Hd]; simpl.
  - constructor; constructor.
  - destruct (Qlt_bool (snd (snd c)) (snd (snd d))) eqn:E.
    + apply Qlt_bool_iff in E. constructor; [exact IH|].
      apply Forall_forall. intros e He.
      apply (Permutation_in _ (NmsFacts.insert_desc_perm c l)) in He.
      destruct He as [<- | He].
      * now apply Qlt_le_weak.
      * rewrite Forall_forall in Hd. now apply Hd.
    + apply Qlt_bool_false_iff in E.
      constructor; [now constructor|].
      constructor; [exact E|].
      apply Forall_forall. intros e He. rewrite Forall_forall in Hd.
      apply Qle_trans with (snd (snd d)); [now apply Hd | exact E].
Qed.

Lemma sort_desc_sorted (l : list cand) : StronglySorted by_score (sort_desc l).
Proof.
  induction l as [|c l IH]; simpl; [constructor|].
  now apply insert_desc_sorted.
Qed.

(** A list that is sorted already is left as it is. *)
Lemma sort_desc_fixed (l : list cand) :
  StronglySorted by_score l -> sort_desc l = l.
Proof.
  induction 1 as [|c l Hs IH Hc]; simpl; [reflexivity|].
  rewrite IH. destruct l as [|d l]; [reflexivity|]. simpl.
  inversion Hc as [|? ? Hd _]; subst.
  apply Qlt_bool_false_iff in Hd. now rewrite Hd.
Qed.

Lemma keep_loop_sorted (thr : Q) (order kept : list cand) :
  StronglySorted by_score (kept ++ order) ->
  StronglySorted by_score (fold_left (keep_step thr) order kept).
Proof.
  revert kept. induction order as [|c order IH]; intros kept H; simpl.
  - now rewrite app_nil_r in H.
  - destruct (NmsFacts.keep_step_cases thr kept c) as [-> | ->].
    + apply IH. now apply StronglySorted_remove in H.
    + apply IH. now rewrite <- app_assoc.
Qed.

Lemma keep_loop_apart (thr : Q) (order kept : list cand) :
  ForallOrdPairs (apart thr) kept ->
  ForallOrdPairs (apart thr) (fold_left (keep_step thr) order kept).
Proof.
  revert kept. induction order as [|c order IH]; intros kept H; simpl;
    [exact H|].
  apply IH. unfold keep_step.
  match goal with
  | |- context [existsb ?f kept] => destruct (existsb f kept) eqn:E
  end; [exact H|].
  apply FOP_snoc; [exact H|].
  apply existsb_false_Forall in E.
  eapply Forall_impl; [|exact E].
  intros k Hk. cbv beta in Hk. now apply Qlt_bool_false_iff in Hk.
Qed.

(** Candidates that are apart already are all kept. *)
Lemma keep_loop_fixed (thr : Q) (order kept : list cand) :
  ForallOrdPairs (apart thr) (kept ++ order) ->
  fold_left (keep_step thr) order kept = kept ++ order.
Proof.
  revert kept. induction order as [|c order IH]; intros kept H; simpl.
  - now rewrite app_nil_r.
  - assert (E : keep_step thr kept c = kept ++ [c]).
    { unfold keep_step.
      match goal with
      | |- context [existsb ?f kept] =>
          replace (existsb f kept) with false; [reflexivity|]
      end.
      symmetry. apply existsb_false_Forall.
      apply FOP_before in H. eapply Forall_impl; [|exact H].
      intros k Hk. now apply Qlt_bool_false_iff. }
    rewrite E, IH by (now rewrite <- app_assoc).
    now rewrite <- app_assoc.
Qed.

(** What [_reduce] returns for a set with boxes, in terms of the
    candidates that the suppression keeps. *)
Lemma reduce_candidates (self : t) (m : DetMap) :
  well_formed m -> boxes m <> [] ->
  exists F : list cand,
    _reduce self m
    = Ok {| boxes := map (fun c => fst (snd c)) F;
            labels := map (fun c => nth (fst c) (labels m) 0) F;
            scores := map (fun c => snd (snd c)) F |}
    /\ StronglySorted by_score F
    /\ ForallOrdPairs (apart (nms_threshold self)) F
    /\ Forall (fun c => (float32 (score_threshold self) < snd (snd c))%Q) F.
Proof.
  intros Hwf Hne.
  destruct (ReduceFacts.reduce_well_formed self m Hwf)
    as (kept & r & Hnms & _ & Hrange & Hred & Hb & Hl & Hs).
  destruct Hwf as [Hll Hls].
  destruct m as [bs ls ss]. cbn [boxes labels scores] in *.
  destruct bs as [|b0 bs']; [congruence|].
  set (bs := b0 :: bs') in *.
  unfold nms in Hnms. rewrite Hls, Nat.eqb_refl in Hnms.
  set (cands := combine (seq 0 (length bs)) (combine bs ss)) in *.
  set (K := fold_left (keep_step (nms_threshold self)) (sort_desc cands) [])
    in *.
  inversion Hnms as [Hk]; clear Hnms.
  set (p := fun i => Qlt_bool (float32 (score_threshold self))
                       (nth i ss 0%Q)) in *.
  set (F := filter (fun c => p (fst c)) K).
  assert (Hfinal : filter p kept = map fst F).
  { rewrite <- Hk. unfold F. apply filter_map_swap. }
  assert (HinK : forall c, In c K ->
            nth_error bs (fst c) = Some (fst (snd c))
            /\ nth_error ss (fst c) = Some (snd (snd c))).
  { intros c Hc. unfold K in Hc.
    apply NmsFacts.keep_loop_incl in Hc. cbn [app] in Hc.
    apply (Permutation_in _ (NmsFacts.sort_desc_perm cands)) in Hc.
    unfold cands in Hc.
    replace (length bs) with (length (combine bs ss)) in Hc
      by (rewrite length_combine; lia).
    apply seq_entries in Hc. destruct Hc as [_ Hc].
    rewrite Nat.sub_0_r in Hc.
    now apply nth_error_combine_inv in Hc. }
  assert (HinF : forall c, In c F -> In c K).
  { intros c Hc. unfold F in Hc. now apply filter_In in Hc. }
  assert (Hfr : Forall (fun i => (i < length bs)%nat) (filter p kept)).
  { apply Forall_forall. intros i Hi. apply filter_In in Hi.
    rewrite Forall_forall in Hrange. now apply Hrange. }
  rewrite (index_select_in_range _ _ b0 Hfr) in Hb.
  rewrite (index_select_in_range _ _ 0) in Hl by (now rewrite Hll).
  rewrite (index_select_in_range _ _ 0%Q) in Hs by (now rewrite Hls).
  injection Hb as Hb'. injection Hl as Hl'. injection Hs as Hs'.
  exists F. split; [|split; [|split]].
  - rewrite Hred. f_equal. destruct r as [rb rl rs].
    cbn [boxes labels scores] in *.
    subst rb rl rs. rewrite Hfinal, !map_map. f_equal.
    + apply map_ext_in. intros c Hc.
      destruct (HinK c (HinF c Hc)) as [Hn _].
      exact (nth_error_nth bs _ b0 Hn).
    + apply map_ext_in. intros c Hc.
      destruct (HinK c (HinF c Hc)) as [_ Hn].
      exact (nth_error_nth ss _ 0%Q Hn).
  - apply StronglySorted_filter. unfold K.
    apply keep_loop_sorted. cbn [app]. apply sort_desc_sorted.
  - apply FOP_filter. unfold K. apply keep_loop_apart. constructor.
  - apply Forall_forall. intros c Hc. unfold F in Hc.
    apply filter_In in Hc. destruct Hc as [HcK Hp].
    unfold p in Hp. apply Qlt_bool_iff in Hp.
    destruct (HinK c HcK) as [_ Hn].
    now rewrite (nth_error_nth _ _ _ Hn) in Hp.
Qed.

(** A set that is in the order and with the separation that [_reduce]
    produces, and whose scores pass the threshold, is returned as it is. *)
Lemma reduce_fixed (self : t) (r : DetMap) :
  well_formed r ->
  non_increasing (scores r) ->
  separated (nms_threshold self) (boxes r) ->
  Forall (fun s => (float32 (score_threshold self) < s)%Q) (scores r) ->
  _reduce self r = Ok r.
Proof.
  intros [Hl Hs] Hsorted Hsep Habove.
  destruct r as [bs ls ss]. simpl in *.
  unfold _reduce. cbn [boxes labels scores].
  destruct bs as [|b0 bs']; [reflexivity|].
  set (bs := b0 :: bs') in *.
  unfold nms. rewrite <- Hs, Nat.eqb_refl.
  set (cands := combine (seq 0 (length ss)) (combine bs ss)).
  assert (Hlc : length (combine bs ss) = length ss)
    by (rewrite length_combine; lia).
  assert (Hfst : map fst cands = seq 0 (length ss)).
  { unfold cands. rewrite <- Hlc at 1.
    rewrite NmsFacts.map_fst_combine_seq. now rewrite Hlc. }
  assert (Hsnd : map snd cands = combine bs ss).
  { unfold cands. rewrite <- Hlc.
    generalize (combine bs ss) 0%nat. clear.
    induction l as [|x l IH]; intros s; simpl; [reflexivity|].
    now rewrite IH. }
  assert (Hbox : map (fun c : cand => fst (snd c)) cands = bs).
  { transitivity (map fst (map snd cands)); [symmetry; apply map_map|].
    rewrite Hsnd.
    clear -Hs. revert ss Hs. generalize bs.
    induction bs0 as [|b l IH]; intros [|s ss] H; simpl in *;
      try discriminate; [reflexivity|].
    f_equal. apply IH. lia. }
  assert (Hscore : map (fun c : cand => snd (snd c)) cands = ss).
  { transitivity (map snd (map snd cands)); [symmetry; apply map_map|].
    rewrite Hsnd.
    clear -Hs. revert ss Hs. generalize bs.
    induction bs0 as [|b l IH]; intros [|s ss] H; simpl in *;
      try discriminate; [reflexivity|].
    f_equal. apply IH. lia. }
  assert (Hcs : StronglySorted by_score cands).
  { apply (StronglySorted_map (fun s s' => (s' <= s)%Q)
             (fun c : cand => snd (snd c))).
    now rewrite Hscore. }
  assert (Hca : ForallOrdPairs (apart (nms_threshold self)) cands).
  { apply (FOP_map (fun a b => (iou a b <= nms_threshold self)%Q)
             (fun c : cand => fst (snd c))).
    now rewrite Hbox. }
  rewrite (sort_desc_fixed _ Hcs).
  rewrite (keep_loop_fixed _ cands []) by exact Hca.
  cbn [app bind]. rewrite Hfst.
  assert (Hib : index_select bs (seq 0 (length ss)) = Ok bs)
    by (rewrite Hs; apply index_select_all).
  assert (Hil : index_select ls (seq 0 (length ss)) = Ok ls)
    by (rewrite Hs, <- Hl; apply index_select_all).
  rewrite Hib, Hil, index_select_all. cbn [bind].
  rewrite nonzero_all_true.
  - rewrite length_map, Hib, Hil, index_select_all. reflexivity.
  - apply Forall_forall. intros b Hb. apply in_map_iff in Hb.
    destruct Hb as (s & <- & Hin). apply Qlt_bool_iff.
    rewrite Forall_forall in Habove. now apply Habove.
Qed.

Lemma reduce_output (self : t) (m r : DetMap) :
  well_formed m -> _reduce self m = Ok r ->
  well_formed r
  /\ non_increasing (scores r)
  /\ separated (nms_threshold self) (boxes r)
  /\ Forall (fun s => (float32 (score_threshold self) < s)%Q) (scores r).
Proof.
  intros Hwf Hr.
  destruct (boxes m) as [|b0 bs'] eqn:Eb.
  - unfold _reduce in Hr. rewrite Eb in Hr. inversion Hr; subst r.
    destruct Hwf as [Hl Hs]. rewrite Eb in Hl, Hs.
    unfold well_formed, non_increasing, separated. rewrite Eb.
    destruct (scores m); [|discriminate].
    repeat split; try constructor. exact Hl.
  - destruct (reduce_candidates self m Hwf) as (F & HF & Hs & Ha & Hab);
      [congruence|].
    rewrite Hr in HF. inversion HF; subst r. cbn [boxes labels scores].
    split; [|split; [|split]].
    + unfold well_formed. cbn [boxes labels scores].
      now rewrite !length_map.
    + unfold non_increasing.
      now apply (StronglySorted_map (fun s s' => (s' <= s)%Q)
                   (fun c : cand => snd (snd c))).
    + unfold separated.
      now apply (FOP_map (fun a b => (iou a b <= nms_threshold self)%Q)
                   (fun c : cand => fst (snd c))).
    + apply Forall_forall. intros s Hin. apply in_map_iff in Hin.
      destruct Hin as (c & <- & Hc). rewrite Forall_forall in Hab.
      now apply Hab.
Qed.

(** X17: [_reduce] returns a selection of the detections it is given:
    every returned detection is one of the given ones, with the box, the
    label and the score that belonged together; no detection is returned
    twice, none is altered and none is made up. *)
Theorem reduce_selects_detections (self : t) (m : DetMap)
    (Hwf : well_formed m) :
  exists r final,
    _reduce self m = Ok r
    /\ NoDup final
    /\ Forall (fun i => (i < length (detections m))%nat) final
    /\ index_select (detections m) final = Ok (detections r)
    /\ well_formed r
    /\ incl (detections r) (detections m)
    /\ (length (detections r) <= length (detections m))%nat.
Proof.
  destruct (ReduceFacts.reduce_well_formed self m Hwf)
    as (kept & r & _ & Hnd & Hrange & Hred & Hb & Hl & Hs).
  set (final := filter (fun i => Qlt_bool (float32 (score_threshold self))
                                   (nth i (scores m) 0%Q)) kept) in *.
  destruct Hwf as [Hll Hls].
  assert (Hlen : length (detections m) = length (boxes m)).
  { unfold detections. rewrite !length_combine. lia. }
  assert (Hnf : NoDup final) by (now apply NoDup_filter).
  assert (Hrf : Forall (fun i => (i < length (detections m))%nat) final).
  { apply Forall_forall. intros i Hi. apply filter_In in Hi.
    rewrite Forall_forall in Hrange. rewrite Hlen. now apply Hrange. }
  assert (Hsel : index_select (detections m) final = Ok (detections r)).
  { unfold detections. apply index_select_combine; [exact Hb|].
    now apply index_select_combine. }
  exists r, final. repeat split; try assumption.
  - rewrite (index_select_length _ _ _ Hl).
    now rewrite (index_select_length _ _ _ Hb).
  - rewrite (index_select_length _ _ _ Hs).
    now rewrite (index_select_length _ _ _ Hb).
  - intros d Hd. exact (index_select_In _ _ _ _ Hsel Hd).
  - rewrite (index_select_length _ _ _ Hsel).
    rewrite <- (length_seq (length (detections m)) 0%nat).
    apply NoDup_incl_length; [exact Hnf|].
    intros i Hi. rewrite Forall_forall in Hrf.
    apply in_seq. specialize (Hrf i Hi). lia.
Qed.

(** Of two boxes that overlap, the one with the lower score goes, with
    its label and its score; the distant box stays. *)
Lemma reduce_selects_detections_example :
  let self := {| base := {| Stitcher.model := fun _ => [];
                            Stitcher.size := (256, 256);
                            Stitcher.overlap := 64;
                            Stitcher.batch_size := 1;
                            Stitcher.down_ratio := 1;
                            Stitcher.up := false;
                            Stitcher.reduction := "sum";
                            Stitcher.device := "cpu" |};
                 nms_threshold := 1 # 2;
                 score_threshold := 0 |} in
  let m := {| boxes := [ {| x1 := 0; y1 := 0; x2 := 10; y2 := 10 |};
                         {| x1 := 1; y1 := 0; x2 := 11; y2 := 10 |};
                         {| x1 := 50; y1 := 50; x2 := 60; y2 := 60 |} ];
              labels := [1; 2; 3];
              scores := [6 # 10; 9 # 10; 3 # 10] |} in
  well_formed m
  /\ _reduce self m
     = Ok {| boxes := [ {| x1 := 1; y1 := 0; x2 := 11; y2 := 10 |};
                        {| x1 := 50; y1 := 50; x2 := 60; y2 := 60 |} ];
             labels := [2; 3]; scores := [9 # 10; 3 # 10] |}
  /\ exists r final,
       _reduce self m = Ok r
       /\ NoDup final
       /\ Forall (fun i => (i < length (detections m))%nat) final
       /\ index_select (detections m) final = Ok (detections r)
       /\ well_formed r
       /\ incl (detections r) (detections m)
       /\ (length (detections r) <= length (detections m))%nat.
Proof.
  intros self m.
  assert (Hwf : well_formed m) by (split; reflexivity).
  split; [exact Hwf|]. split; [reflexivity|].
  exact (reduce_selects_detections self m Hwf).
Defined.

(** X18: the detections that [_reduce] returns for a set with boxes come
    by decreasing score, and no returned box overlaps a returned box of
    higher rank by an IoU above [nms_threshold]. *)
Theorem reduce_ordered_and_separated (self : t) (m : DetMap)
    (Hwf : well_formed m) :
  exists r,
    _reduce self m = Ok r
    /\ non_increasing (scores r)
    /\ separated (nms_threshold self) (boxes r).
Proof.
  destruct (ReduceFacts.reduce_well_formed self m Hwf)
    as (kept & r & _ & _ & _ & Hred & _).
  exists r. split; [exact Hred|].
  destruct (reduce_output self m r Hwf Hred) as (_ & Hs & Ha & _).
  auto.
Qed.

Lemma reduce_ordered_and_separated_example :
  let self := {| base := {| Stitcher.model := fun _ => [];
                            Stitcher.size := (256, 256);
                            Stitcher.overlap := 64;
                            Stitcher.batch_size := 1;
                            Stitcher.down_ratio := 1;
                            Stitcher.up := false;
                            Stitcher.reduction := "sum";
                            Stitcher.device := "cpu" |};
                 nms_threshold := 1 # 2;
                 score_threshold := 0 |} in
  let m := {| boxes := [ {| x1 := 50; y1 := 50; x2 := 60; y2 := 60 |};
                         {| x1 := 0; y1 := 0; x2 := 10; y2 := 10 |};
                         {| x1 := 1; y1 := 0; x2 := 11; y2 := 10 |} ];
              labels := [3; 1; 2];
              scores := [3 # 10; 6 # 10; 9 # 10] |} in
  well_formed m
  /\ _reduce self m
     = Ok {| boxes := [ {| x1 := 1; y1 := 0; x2 := 11; y2 := 10 |};
                        {| x1 := 50; y1 := 50; x2 := 60; y2 := 60 |} ];
             labels := [2; 3]; scores := [9 # 10; 3 # 10] |}
  /\ exists r,
       _reduce self m = Ok r
       /\ non_increasing (scores r)
       /\ separated (nms_threshold self) (boxes r).
Proof.
  intros self m.
  assert (Hwf : well_formed m) by (split; reflexivity).
  split; [exact Hwf|]. split; [reflexivity|].
  exact (reduce_ordered_and_separated self m Hwf).
Defined.

(** X19: a detection set that comes by decreasing score, whose boxes
    overlap pairwise by no more than [nms_threshold] and whose scores are
    all above the 32-bit float nearest to [score_threshold] passes
    [_reduce] unchanged. *)
Theorem reduce_keeps_reduced_set (self : t) (r : DetMap)
    (Hwf : well_formed r)
    (Hsorted : non_increasing (scores r))
    (Hsep : separated (nms_threshold self) (boxes r))
    (Habove : Forall (fun s => (float32 (score_threshold self) < s)%Q)
                (scores r)) :
  _reduce self r = Ok r.
Proof.
  apply reduce_fixed.
  - exact Hwf.
  - exact Hsorted.
  - exact Hsep.
  - exact Habove.
Qed.

Lemma reduce_keeps_reduced_set_example :
  let self := {| base := {| Stitcher.model := fun _ => [];
                            Stitcher.size := (256, 256);
                            Stitcher.overlap := 64;
                            Stitcher.batch_size := 1;
                            Stitcher.down_ratio := 1;
                            Stitcher.up := false;
                            Stitcher.reduction := "sum";
                            Stitcher.device := "cpu" |};
                 nms_threshold := 1 # 2;
                 score_threshold := 1 # 10 |} in
  let r := {| boxes := [ {| x1 := 0; y1 := 0; x2 := 10; y2 := 10 |};
                         {| x1 := 8; y1 := 0; x2 := 18; y2 := 10 |} ];
              labels := [1; 2];
              scores := [7 # 8; 7 # 8] |} in
  _reduce self r = Ok r.
Proof.
  intros self r.
  apply (reduce_keeps_reduced_set self r).
  - split; reflexivity.
  - repeat constructor; apply Qle_bool_iff; reflexivity.
  - repeat constructor; apply Qle_bool_iff; reflexivity.
  - repeat constructor.
Defined.

(** X20: reducing twice changes nothing: what [_reduce] returns is
    returned as it is when it is reduced again. *)
Theorem reduce_idempotent (self : t) (m r : DetMap)
    (Hwf : well_formed m) (Hr : _reduce self m = Ok r) :
  _reduce self r = Ok r.
Proof.
  destruct (reduce_output self m r Hwf Hr) as (Hw & Hs & Ha & Hab).
  now apply reduce_fixed.
Qed.

Lemma reduce_idempotent_example :
  let self := {| base := {| Stitcher.model := fun _ => [];
                            Stitcher.size := (256, 256);
                            Stitcher.overlap := 64;
                            Stitcher.batch_size := 1;
                            Stitcher.down_ratio := 1;
                            Stitcher.up := false;
                            Stitcher.reduction := "sum";
                            Stitcher.device := "cpu" |};
                 nms_threshold := 1 # 2;
                 score_threshold := 1 # 2 |} in
  let m := {| boxes := [ {| x1 := 50; y1 := 50; x2 := 60; y2 := 60 |};
                         {| x1 := 0; y1 := 0; x2 := 10; y2 := 10 |};
                         {| x1 := 1; y1 := 0; x2 := 11; y2 := 10 |};
                         {| x1 := 100; y1 := 0; x2 := 110; y2 := 10 |} ];
              labels := [3; 1; 2; 4];
              scores := [7 # 10; 6 # 10; 9 # 10; 1 # 2] |} in
  let r := {| boxes := [ {| x1 := 1; y1 := 0; x2 := 11; y2 := 10 |};
                         {| x1 := 50; y1 := 50; x2 := 60; y2 := 60 |} ];
              labels := [2; 3]; scores := [9 # 10; 7 # 10] |} in
  well_formed m /\ _reduce self m = Ok r /\ _reduce self r = Ok r.
Proof.
  intros self m r.
  assert (Hwf : well_formed m) by (split; reflexivity).
  assert (Hr : _reduce self m = Ok r) by reflexivity.
  split; [exact Hwf|]. split; [exact Hr|].
  exact (reduce_idempotent self m r Hwf Hr).
Defined.

End SuppressionFacts.
